(** * CVVR: Jacobi relaxation of the Laplace equation on a mirrored half-domain

    A shallow embedding of [simulate_export.py]: the problem builder
    [build_problem_half], the mirror operator [mirror_full_from_half], the
    exporter [export_structured_csv_full], the solver
    [jacobi_laplace_half_with_snapshots] and the entry point [main].

    Conventions of the embedding:
    - a Python [float] and a NumPy [float64] are IEEE binary64 numbers: Rocq's
      primitive [float], with the operations the processor provides;
    - a Python [int] is a [Z];
    - a 2-D NumPy array is the list of its rows ([grid]); a 1-D array is a list;
    - a Python exception is an [Err] of the [result] monad;
    - the [while True] loop of the solver is driven by a [nat] of fuel, and
      [None] means the fuel ran out before the loop returned.

    The properties are stated on cells ([Np.cell]) of arrays of a given
    shape ([rect]).  Those that need the size of a rounded quotient read
    the binary64 numbers as real numbers, through [SpecFloat]. *)

From Stdlib Require Import List ZArith Lia Bool Floats Reals Lra Psatz.
From Stdlib Require Uint63.
Import ListNotations.

Local Open Scope Z_scope.

(** ** Exceptions *)

Inductive py_error : Set :=
| ZeroDivisionError
| IndexError
| ValueError
| OverflowError.

Inductive result (A : Type) : Type :=
| Ok (a : A)
| Err (e : py_error).

Arguments Ok {A} a.
Arguments Err {A} e.

Definition bind {A B : Type} (r : result A) (k : A -> result B) : result B :=
  match r with
  | Ok a => k a
  | Err e => Err e
  end.

Notation "x <- r ;; k" := (bind r (fun x => k))
  (at level 61, r at next level, right associativity).
Notation "' p <- r ;; k" := (bind r (fun p => k))
  (at level 61, p pattern, r at next level, right associativity).

(** ** Python numbers *)

Module Py.

(** [float(z)] for an [int] the code converts implicitly (grid sizes and
    indices, all far below 2^63). *)
Definition float_of_int (z : Z) : float :=
  if z <? 0 then (- of_uint63 (Uint63.of_Z (- z)))%float
  else of_uint63 (Uint63.of_Z z).

(** [x / y] on Python floats: a zero divisor raises. *)
Definition truediv (x y : float) : result float :=
  if (y =? 0)%float then Err ZeroDivisionError else Ok (x / y)%float.

(** [x / k] for a float [x] and an int [k]: the int is converted first,
    and it is a zero divisor exactly when it is [0]. *)
Definition truediv_int (x : float) (k : Z) : result float :=
  if k =? 0 then Err ZeroDivisionError else Ok (x / float_of_int k)%float.

(** [a % b] on Python ints. *)
Definition mod_ (a b : Z) : result Z :=
  if b =? 0 then Err ZeroDivisionError else Ok (a mod b).

(** Nearest integer to [m * 2^e], ties to the even one. *)
Definition round_half_even (m : positive) (e : Z) : Z :=
  match e with
  | Zneg k =>
      let d := Z.pow_pos 2 k in
      let q := Z.pos m / d in
      let r := Z.pos m mod d in
      match (2 * r) ?= d with
      | Lt => q
      | Gt => q + 1
      | Eq => if Z.even q then q else q + 1
      end
  | _ => Z.pos m * 2 ^ e
  end.

(** [int(round(x))]: [round] of a float without [ndigits] is the nearest
    [int], ties to even; it raises on NaN and on the infinities. *)
Definition round (x : float) : result Z :=
  match Prim2SF x with
  | S754_nan => Err ValueError
  | S754_infinity _ => Err OverflowError
  | S754_zero _ => Ok 0
  | S754_finite s m e =>
      let n := round_half_even m e in
      Ok (if s then - n else n)
  end.

(** [slice(start, stop).indices(n)] with step 1: the half-open range
    [lo, hi) of positions a slice selects in a sequence of length [n]. *)
Definition slice_bound (n : nat) (dflt : Z) (b : option Z) : nat :=
  match b with
  | None => Z.to_nat dflt
  | Some k =>
      let k' := if k <? 0 then k + Z.of_nat n else k in
      Z.to_nat (Z.min (Z.max k' 0) (Z.of_nat n))
  end.

Definition slice_indices (start stop : option Z) (n : nat) : nat * nat :=
  (slice_bound n 0 start, slice_bound n (Z.of_nat n) stop).

(** An integer index [k] into an axis of length [n]; negative indices
    count from the end, and an index outside the axis raises. *)
Definition index (k : Z) (n : nat) : result nat :=
  let k' := if k <? 0 then k + Z.of_nat n else k in
  if (0 <=? k') && (k' <? Z.of_nat n) then Ok (Z.to_nat k') else Err IndexError.

End Py.

(** ** NumPy arrays *)

(** A 2-D array as the list of its rows, bottom row first. *)
Definition grid (A : Type) : Type := list (list A).

Module Np.

(** Apply [f] to the [len] elements of [l] from position [lo] on. *)
Fixpoint update_range {A : Type} (lo len : nat) (f : A -> A) (l : list A)
  : list A :=
  match l with
  | [] => []
  | x :: t =>
      match lo with
      | S lo' => x :: update_range lo' len f t
      | O =>
          match len with
          | O => x :: t
          | S len' => f x :: update_range O len' f t
          end
      end
  end.

(** Write the elements of [src] over [l] from position [lo] on, each
    through [f] (which receives the old element too). *)
Fixpoint overlay {A B : Type} (f : B -> A -> A) (lo : nat) (src : list B)
    (l : list A) : list A :=
  match l with
  | [] => []
  | x :: t =>
      match lo with
      | S lo' => x :: overlay f lo' src t
      | O =>
          match src with
          | [] => x :: t
          | b :: src' => f b x :: overlay f O src' t
          end
      end
  end.

Section Arrays.
Context {A : Type}.

(** [T.shape] *)
Definition nrows (g : grid A) : nat := length g.
Definition ncols (g : grid A) : nat := length (hd [] g).

(** A dimension of a new array: negative ones are refused. *)
Definition dim (n : Z) : result nat :=
  if n <? 0 then Err ValueError else Ok (Z.to_nat n).

(** [np.full((Ny, Nx), v)].  The array is always made: that NumPy refuses a
    shape too large for the memory is not part of the embedding. *)
Definition full (Ny Nx : nat) (v : A) : grid A := repeat (repeat v Nx) Ny.

(** [g[j, i]], with [d] where the position does not exist. *)
Definition cell (d : A) (g : grid A) (j i : nat) : A := nth i (nth j g []) d.

(** [l[start:stop]] *)
Definition slice1 {B : Type} (start stop : option Z) (l : list B) : list B :=
  let '(lo, hi) := Py.slice_indices start stop (length l) in
  firstn (hi - lo) (skipn lo l).

(** [g[r0:r1, c0:c1]] *)
Definition slice2 (rs cs : option Z * option Z) (g : grid A) : grid A :=
  map (slice1 (fst cs) (snd cs)) (slice1 (fst rs) (snd rs) g).

(** [g[:, ::-1]] *)
Definition flip_columns (g : grid A) : grid A := map (@rev A) g.

(** [g[k, :] = v] *)
Definition set_row (k : Z) (v : A) (g : grid A) : result (grid A) :=
  j <- Py.index k (nrows g) ;;
  Ok (update_range j 1 (map (fun _ => v)) g).

(** [g[:, k] = v] for a scalar [v] *)
Definition set_column (k : Z) (v : A) (g : grid A) : result (grid A) :=
  i <- Py.index k (ncols g) ;;
  Ok (map (update_range i 1 (fun _ => v)) g).

(** [g[:, k]] *)
Definition column (d : A) (k : Z) (g : grid A) : result (list A) :=
  i <- Py.index k (ncols g) ;;
  Ok (map (fun row => nth i row d) g).

(** [g[:, k] = vals] for a 1-D array [vals], one value per row. *)
Definition set_column_from (k : Z) (vals : list A) (g : grid A)
  : result (grid A) :=
  i <- Py.index k (ncols g) ;;
  if Nat.eqb (length vals) (nrows g)
  then Ok (overlay (fun v row => update_range i 1 (fun _ => v) row) 0 vals g)
  else Err ValueError.

(** [g[r0:r1, c0:c1] = v] for a scalar [v]; never raises. *)
Definition fill_block (rs cs : option Z * option Z) (v : A) (g : grid A)
  : grid A :=
  let '(r0, r1) := Py.slice_indices (fst rs) (snd rs) (nrows g) in
  let '(c0, c1) := Py.slice_indices (fst cs) (snd cs) (ncols g) in
  update_range r0 (r1 - r0) (update_range c0 (c1 - c0) (fun _ => v)) g.

(** Writing the block [blk] through the view [g[r0:, c0:]]. *)
Definition put_block (r0 c0 : nat) (blk g : grid A) : grid A :=
  overlay (fun brow row => overlay (fun b _ => b) c0 brow row) r0 blk g.

(** A boolean mask indexes an array of its own shape only. *)
Fixpoint same_shape {B : Type} (mask : grid B) (g : grid A) : bool :=
  match mask, g with
  | [], [] => true
  | mrow :: mask', row :: g' =>
      Nat.eqb (length mrow) (length row) && same_shape mask' g'
  | _, _ => false
  end.

(** [l[mask]] on one row, and [g[mask]] (row-major) on a 2-D array. *)
Fixpoint select_row (mask : list bool) (l : list A) : list A :=
  match mask, l with
  | m :: mask', x :: l' =>
      if m then x :: select_row mask' l' else select_row mask' l'
  | _, _ => []
  end.

Fixpoint select_rows (mask : grid bool) (g : grid A) : list A :=
  match mask, g with
  | mrow :: mask', row :: g' => select_row mrow row ++ select_rows mask' g'
  | _, _ => []
  end.

Definition select (mask : grid bool) (g : grid A) : result (list A) :=
  if same_shape mask g then Ok (select_rows mask g) else Err IndexError.

(** [l[mask] = vals] on one row: the values are consumed in order; the
    unused ones are returned with the new row. *)
Fixpoint assign_row (l : list A) (mask : list bool) (vals : list A)
  : list A * list A :=
  match l, mask with
  | x :: l', m :: mask' =>
      if m then
        match vals with
        | v :: vals' =>
            let '(r, rest) := assign_row l' mask' vals' in (v :: r, rest)
        | [] => (x :: l', [])
        end
      else let '(r, rest) := assign_row l' mask' vals in (x :: r, rest)
  | _, _ => (l, vals)
  end.

Fixpoint assign_rows (g : grid A) (mask : grid bool) (vals : list A)
  : grid A :=
  match g, mask with
  | row :: g', mrow :: mask' =>
      let '(r, rest) := assign_row row mrow vals in
      r :: assign_rows g' mask' rest
  | _, _ => g
  end.

(** [g[mask] = vals], for as many values as the mask selects (the program
    only assigns what it selected with the same mask). *)
Definition assign (g : grid A) (mask : grid bool) (vals : list A)
  : result (grid A) :=
  if same_shape mask g then Ok (assign_rows g mask vals) else Err IndexError.

End Arrays.

(** Element-wise operations on arrays of one shape. *)
Fixpoint zip_with {A B C : Type} (f : A -> B -> C) (a : list A) (b : list B)
  : list C :=
  match a, b with
  | x :: a', y :: b' => f x y :: zip_with f a' b'
  | _, _ => []
  end.

Definition map2 {A B C : Type} (f : A -> B -> C) (a : grid A) (b : grid B)
  : grid C :=
  zip_with (zip_with f) a b.

Definition add (a b : grid float) : grid float := map2 PrimFloat.add a b.
Definition sub (a b : grid float) : grid float := map2 PrimFloat.sub a b.
Definition scale (c : float) (a : grid float) : grid float :=
  map (map (PrimFloat.mul c)) a.
Definition abs (a : grid float) : grid float := map (map PrimFloat.abs) a.

(** [np.hstack([a, b])] of two 2-D arrays with the same number of rows. *)
Definition hstack {A : Type} (a b : grid A) : grid A := zip_with (@app A) a b.

(** [~mask] and [np.any(mask)] *)
Definition logical_not (mask : grid bool) : grid bool := map (map negb) mask.
Definition any (mask : grid bool) : bool := existsb (existsb (fun b => b)) mask.

(** [np.maximum]: the larger of two numbers, a NaN if either is one. *)
Definition maximum (a b : float) : float :=
  if (b <=? a)%float || is_nan a then a else b.

(** [np.max] of a 1-D array; it refuses the empty one. *)
Definition max (l : list float) : result float :=
  match l with
  | [] => Err ValueError
  | x :: t => Ok (fold_left maximum t x)
  end.

(** [np.clip(x, lo, hi)] on scalars: a NaN bound wins; otherwise the lower
    bound is applied first, then the upper one. *)
Definition clip (x lo hi : float) : float :=
  if is_nan lo then lo
  else if is_nan hi then hi
  else
    let m := if is_nan x then x else if (lo <? x)%float then x else lo in
    if is_nan m then m else if (m <? hi)%float then m else hi.

(** [np.linspace(start, stop, num)]: [num] samples, the last one [stop]
    itself. *)
Definition linspace (start stop : float) (num : nat) : list float :=
  let delta := (stop - start)%float in
  let div := (Z.of_nat num - 1)%Z in
  let fdiv := Py.float_of_int div in
  let step := (delta / fdiv)%float in
  let sample (k : nat) : float :=
    let fk := Py.float_of_int (Z.of_nat k) in
    let y :=
      if (0 <? div)%Z then
        if (step =? 0)%float then (fk / fdiv * delta)%float
        else (fk * step)%float
      else (fk * delta)%float in
    (y + start)%float in
  map (fun k => if (0 <? div)%Z && Nat.eqb (S k) num then stop else sample k)
      (seq 0 num).

End Np.

(** ** The program *)

Local Open Scope float_scope.

(** *** Problem construction (half-domain with left-right symmetry) *)

(** The keyword arguments of [build_problem_half]. *)
Record builder_args : Set := {
  N : Z;
  L : float;
  L_inner : float;
  T_top : float;
  T_bottom : float;
  T_inner : float;
  init_guess : float;
  bath_height : option float;
  bath_fraction : float
}.

(** Their default values. *)
Definition default_args : builder_args := {|
  N := 241;
  L := 9;
  L_inner := 3;
  T_top := 100;
  T_bottom := 32;
  T_inner := 212;
  init_guess := 90;
  bath_height := None;
  bath_fraction := 4 / 9
|}.

(** The outer wall profile: [T_bottom] up to the bath height [y0], then
    linear up to [T_top] at the top. *)
Definition side_profile (a : builder_args) (y0 : float) (y : list float)
  : list float :=
  map (fun yk =>
         if yk <=? y0 then T_bottom a
         else T_bottom a + (T_top a - T_bottom a) * ((yk - y0) / (L a - y0)))
      y.

(** The three indices of the inner hot square, as the builder rounds them. *)
Definition inner_square (a : builder_args) (h_y h_x : float)
  : result (Z * Z * Z) :=
  let half := L a / 2 in
  let inner_half := L_inner a / 2 in
  q_low <- Py.truediv (half - inner_half) h_y ;;
  j_low <- Py.round q_low ;;
  q_high <- Py.truediv (half + inner_half) h_y ;;
  j_high <- Py.round q_high ;;
  q_right <- Py.truediv inner_half h_x ;;
  i_right <- Py.round q_right ;;
  Ok (j_low, j_high, i_right).

Definition build_problem_half (a : builder_args)
  : result (grid float * grid bool * float * float * float) :=
  let Ny := N a in
  let Nx_full := N a in
  h_y <- Py.truediv_int (L a) (Ny - 1) ;;
  let Nx_half := (Nx_full / 2 + 1)%Z in
  h_x <- (if (1 <? Nx_half)%Z
          then Py.truediv_int (L a / 2) (Nx_half - 1)
          else Ok 0) ;;
  ny <- Np.dim Ny ;;
  nx <- Np.dim Nx_half ;;
  let T := Np.full ny nx (init_guess a) in
  let fixed := Np.full ny nx false in
  let y := Np.linspace 0 (L a) ny in
  (* Dirichlet: bottom/top *)
  T <- Np.set_row 0 (T_bottom a) T ;;
  fixed <- Np.set_row 0 true fixed ;;
  T <- Np.set_row (-1) (T_top a) T ;;
  fixed <- Np.set_row (-1) true fixed ;;
  (* outer wall profile *)
  let y0 := match bath_height a with
            | Some b => b
            | None => bath_fraction a * L a
            end in
  let y0 := Np.clip y0 0 (L a) in
  T <- Np.set_column_from (-1) (side_profile a y0 y) T ;;
  fixed <- Np.set_column (-1) true fixed ;;
  (* inner hot square (centered) *)
  '(j_low, j_high, i_right) <- inner_square a h_y h_x ;;
  let i_left := 0%Z in
  let rows := (Some j_low, Some (j_high + 1)%Z) in
  let cols := (Some i_left, Some (i_right + 1)%Z) in
  let T := Np.fill_block rows cols (T_inner a) T in
  let fixed := Np.fill_block rows cols true fixed in
  Ok (T, fixed, h_y, h_x, L a).

(** *** Mirror half -> full *)

Definition mirror_full_from_half {A : Type} (T_half : grid A) : grid A :=
  (* exclude centerline when mirroring to avoid duplicate column *)
  let left := Np.flip_columns (Np.slice2 (None, None) (Some 1%Z, None) T_half) in
  Np.hstack left T_half.

(** *** Export of the full field *)

(** One line of the table: [i, j, k, x, y, Temperature]. *)
Record csv_row : Set := {
  row_i : Z;
  row_j : Z;
  row_k : Z;
  row_x : float;
  row_y : float;
  row_Temperature : float
}.

(** The lines [export_structured_csv_full] writes after the header. *)
Definition export_structured_csv_full (T_full : grid float) (L : float)
  : result (list csv_row) :=
  let Ny := Np.nrows T_full in
  let Nx := Np.ncols T_full in
  h_x <- Py.truediv_int L (Z.of_nat Nx - 1) ;;
  h_y <- Py.truediv_int L (Z.of_nat Ny - 1) ;;
  Ok (flat_map
        (fun j =>
           let y := Py.float_of_int (Z.of_nat j) * h_y in
           map (fun i =>
                  let x := Py.float_of_int (Z.of_nat i) * h_x in
                  {| row_i := Z.of_nat i; row_j := Z.of_nat j; row_k := 0;
                     row_x := x; row_y := y;
                     row_Temperature := Np.cell 0 T_full j i |})
               (seq 0 Nx))
        (seq 0 Ny)).

(** *** Jacobi solver on the half-domain with periodic snapshots *)

(** The keyword arguments of the solver that steer the loop. *)
Record solver_config : Set := {
  delta : float;
  max_iters : Z;
  report_every : Z;
  snap_every : Z
}.

Definition default_config : solver_config := {|
  delta := 0x1.0624dd2f1a9fcp-10;   (* 1e-3 *)
  max_iters := 2000000;
  report_every := 500;
  snap_every := 500
|}.

(** What the solver hands to its collaborators: a progress line, a
    snapshot tagged by its epoch, and the final snapshot. *)
Inductive event : Set :=
| Report (epochs : Z) (max_change : float)
| Snapshot (epochs : Z) (table : list csv_row)
| FinalSnapshot (table : list csv_row).

(** Which cells get updated. *)
Definition variable_mask (fixed : grid bool) : result (grid bool) :=
  let var := Np.logical_not fixed in
  var <- Np.set_column 0 false var ;;      (* symmetry line *)
  var <- Np.set_row 0 false var ;;         (* bottom *)
  var <- Np.set_row (-1) false var ;;      (* top *)
  Np.set_column (-1) false var.            (* right wall *)

Definition interior : (option Z * option Z) * (option Z * option Z) :=
  ((Some 1%Z, Some (-1)%Z), (Some 1%Z, Some (-1)%Z)).

(** [0.25 * (T[:-2, 1:-1] + T[2:, 1:-1] + T[1:-1, :-2] + T[1:-1, 2:])] *)
Definition neighbour_average (T : grid float) : grid float :=
  Np.scale 0.25
    (Np.add
       (Np.add
          (Np.add (Np.slice2 (None, Some (-2)%Z) (Some 1%Z, Some (-1)%Z) T)
                  (Np.slice2 (Some 2%Z, None) (Some 1%Z, Some (-1)%Z) T))
          (Np.slice2 (Some 1%Z, Some (-1)%Z) (None, Some (-2)%Z) T))
       (Np.slice2 (Some 1%Z, Some (-1)%Z) (Some 2%Z, None) T)).

(** The body of the loop up to the convergence metric: the next grid and
    [max_change]. *)
Definition sweep (fixed var : grid bool) (T : grid float)
  : result (grid float * float) :=
  let T_new := T in
  let avg := neighbour_average T in
  let mask := Np.slice2 (fst interior) (snd interior) var in
  vals <- Np.select mask avg ;;
  view <- Np.assign (Np.slice2 (fst interior) (snd interior) T_new) mask vals ;;
  let T_new := Np.put_block 1 1 view T_new in
  (* Neumann at centerline *)
  col1 <- Np.column 0 1 T_new ;;
  T_new <- Np.set_column_from 0 col1 T_new ;;
  (* keep Dirichlet fixed *)
  kept <- Np.select fixed T ;;
  T_new <- Np.assign T_new fixed kept ;;
  (* convergence metric *)
  max_change <- (if Np.any var
                 then changes <- Np.select var (Np.abs (Np.sub T_new T)) ;;
                      Np.max changes
                 else Ok 0) ;;
  Ok (T_new, max_change).

(** One pass through the body of [while True]: the new grid, the new epoch
    count, [max_change], what was reported and exported, and whether the
    body returned. *)
Definition iteration (cfg : solver_config) (L : float) (fixed var : grid bool)
    (T : grid float) (epochs : Z)
  : result (grid float * Z * float * list event * bool) :=
  '(T_new, max_change) <- sweep fixed var T ;;
  let T := T_new in
  let epochs := (epochs + 1)%Z in
  r <- Py.mod_ epochs (report_every cfg) ;;
  let reported := if (r =? 0)%Z then [Report epochs max_change] else [] in
  s <- Py.mod_ epochs (snap_every cfg) ;;
  snapped <- (if (s =? 0)%Z
              then table <- export_structured_csv_full
                              (mirror_full_from_half T) L ;;
                   Ok [Snapshot epochs table]
              else Ok []) ;;
  if (max_change <? delta cfg) || (max_iters cfg <=? epochs)%Z
  then table <- export_structured_csv_full (mirror_full_from_half T) L ;;
       Ok (T, epochs, max_change,
           reported ++ snapped ++ [FinalSnapshot table], true)
  else Ok (T, epochs, max_change, reported ++ snapped, false).

(** The loop, for at most [fuel] passes. *)
Fixpoint solver_loop (fuel : nat) (cfg : solver_config) (L : float)
    (fixed var : grid bool) (T : grid float) (epochs : Z) (trace : list event)
  : option (result (grid float * Z * float * list event)) :=
  match fuel with
  | O => None
  | S fuel' =>
      match iteration cfg L fixed var T epochs with
      | Err e => Some (Err e)
      | Ok (T', epochs', max_change, events, returned) =>
          if returned
          then Some (Ok (T', epochs', max_change, trace ++ events))
          else solver_loop fuel' cfg L fixed var T' epochs' (trace ++ events)
      end
  end.

(** The solver: the final grid, the epoch count, the last [max_change],
    and the trace of its collaborators' calls. [h_y] and [h_x] are
    accepted and not used, as in the source. *)
Definition jacobi_laplace_half_with_snapshots (fuel : nat)
    (T : grid float) (fixed : grid bool) (h_y h_x L : float)
    (cfg : solver_config)
  : option (result (grid float * Z * float * list event)) :=
  match variable_mask fixed with
  | Err e => Some (Err e)
  | Ok var => solver_loop fuel cfg L fixed var T 0 []
  end.

(** *** Main *)

(** The program as [main] runs it: the problem of resolution 241 and the
    solver with a report and a snapshot every 500 epochs, the other
    arguments left at their defaults.  What it prints at the end is the
    epoch count and the last [max_change]. *)
Definition main (fuel : nat) : option (result (Z * float * list event)) :=
  match build_problem_half
          {| N := 241; L := 9; L_inner := 3;
             T_top := 100; T_bottom := 32; T_inner := 212; init_guess := 90;
             bath_height := bath_height default_args;
             bath_fraction := bath_fraction default_args |} with
  | Err e => Some (Err e)
  | Ok (T0_half, fixed_half, h_y, h_x, L) =>
      match jacobi_laplace_half_with_snapshots fuel T0_half fixed_half
              h_y h_x L
              {| delta := 0x1.0624dd2f1a9fcp-10;   (* 1e-3 *)
                 max_iters := max_iters default_config;
                 report_every := 500; snap_every := 500 |} with
      | None => None
      | Some (Err e) => Some (Err e)
      | Some (Ok (T_half, epochs, last_change, trace)) =>
          Some (Ok (epochs, last_change, trace))
      end
  end.

(** * Vocabulary of the properties *)

Local Open Scope nat_scope.

(** [rect Ny Nx g]: [g] is an array of shape [(Ny, Nx)]. *)
Definition rect {A : Type} (Ny Nx : nat) (g : grid A) : Prop :=
  length g = Ny /\ Forall (fun row => length row = Nx) g.

(** Row by row, the mirror is the reversed tail followed by the row. *)
Definition mirror_row {A : Type} (row : list A) : list A :=
  rev (tl row) ++ row.

(** Columns [lo] to [hi], both included, of a 2-D array: [g[:, lo:hi+1]]. *)
Definition columns {A : Type} (lo hi : Z) (g : grid A) : grid A :=
  Np.slice2 (None, None) (Some lo, Some (hi + 1)%Z) g.

(** [np.where(mask, a, b)], row by row: the element of [a] where the mask
    is set, that of [b] elsewhere. *)
Fixpoint choose_row {A : Type} (mask : list bool) (a b : list A) : list A :=
  match mask, a, b with
  | m :: mask', x :: a', y :: b' =>
      (if m then x else y) :: choose_row mask' a' b'
  | _, _, _ => []
  end.

Fixpoint choose {A : Type} (mask : grid bool) (a b : grid A) : grid A :=
  match mask, a, b with
  | mrow :: mask', arow :: a', brow :: b' =>
      choose_row mrow arow brow :: choose mask' a' b'
  | _, _, _ => []
  end.

(** Position [k] of an axis of length [n] lies in the slice [s]. *)
Definition in_slice (s : option Z * option Z) (n k : nat) : bool :=
  let '(lo, hi) := Py.slice_indices (fst s) (snd s) n in
  (lo <=? k) && (k <? hi).

(** The cells of a [(Ny, Nx)] array off its four edges. *)
Definition is_interior (Ny Nx j i : nat) : bool :=
  (1 <=? j) && (j <? Ny - 1) && (1 <=? i) && (i <? Nx - 1).

(** The unweighted average of the four orthogonal neighbours of [(j, i)],
    summed in the order below, above, left, right. *)
Definition average_at (T : grid float) (j i : nat) : float :=
  (0.25 * (Np.cell 0 T (j - 1) i + Np.cell 0 T (j + 1) i
           + Np.cell 0 T j (i - 1) + Np.cell 0 T j (i + 1)))%float.

(** The grid after the masked write of the averages through the
    interior view. *)
Definition averaged (var : grid bool) (T : grid float) : grid float :=
  Np.put_block 1 1
    (choose (Np.slice2 (fst interior) (snd interior) var)
            (neighbour_average T)
            (Np.slice2 (fst interior) (snd interior) T))
    T.

(** What the masked write of the averages leaves in cell [(j, i)]. *)
Definition relaxed (Ny Nx : nat) (var : grid bool) (T : grid float)
    (j i : nat) : float :=
  if is_interior Ny Nx j i && Np.cell false var j i
  then average_at T j i else Np.cell 0%float T j i.

(** The value of cell [(j, i)] after one sweep of a [(Ny, Nx)] grid. *)
Definition next_cell (Ny Nx : nat) (fixed var : grid bool) (T : grid float)
    (j i : nat) : float :=
  if Np.cell false fixed j i then Np.cell 0%float T j i
  else if i =? 0 then relaxed Ny Nx var T j 1
  else relaxed Ny Nx var T j i.

(** The convergence metric of a sweep from [T] to [T_new]. *)
Definition max_change_of (var : grid bool) (T T_new : grid float) : float :=
  if Np.any var
  then
    let changes := Np.select_rows var (Np.abs (Np.sub T_new T)) in
    fold_left Np.maximum (tl changes) (hd 0%float changes)
  else 0%float.

(** The grid and [max_change] at the end of pass [k + 1] of the loop that
    starts from [T]. *)
Fixpoint after_pass (k : nat) (fixed var : grid bool) (T : grid float)
  : result (grid float * float) :=
  match k with
  | O => sweep fixed var T
  | S k' => '(T', _) <- sweep fixed var T ;; after_pass k' fixed var T'
  end.

(** *** The builder, cell by cell *)

(** The spacings the builder computes for a grid of at least two rows. *)
Definition spacing_y (a : builder_args) : float :=
  (L a / Py.float_of_int (N a - 1))%float.

Definition spacing_x (a : builder_args) : float :=
  (L a / 2 / Py.float_of_int (N a / 2))%float.

(** The bath height the builder uses: the given one, or the fraction of
    [L], clipped to [0, L]. *)
Definition bath_level (a : builder_args) : float :=
  Np.clip (match bath_height a with
           | Some b => b
           | None => (bath_fraction a * L a)%float
           end) 0%float (L a).

(** The temperatures of the outer wall, bottom row first. *)
Definition wall_profile (a : builder_args) : list float :=
  side_profile a (bath_level a) (Np.linspace 0%float (L a) (Z.to_nat (N a))).

(** The cells of the bottom row, the top row and the outer wall of a
    [(Ny, Nx)] array. *)
Definition on_boundary (Ny Nx j i : nat) : bool :=
  (j =? 0) || (j =? Ny - 1) || (i =? Nx - 1).

(** What the builder has put in cell [(j, i)] before it writes the inner
    square: the wall profile on the last column, then [T_top] on the top
    row, then [T_bottom] on the bottom row, the initial guess elsewhere. *)
Definition boundary_cell (a : builder_args) (j i : nat) : float :=
  if i =? Z.to_nat (N a / 2 + 1) - 1 then nth j (wall_profile a) 0%float
  else if j =? Z.to_nat (N a) - 1 then T_top a
  else if j =? 0 then T_bottom a
  else init_guess a.

(** Cell [(j, i)] of a [(Ny, Nx)] array lies in the block of the slices
    [rows] and [cols]. *)
Definition in_block (rows cols : option Z * option Z) (Ny Nx j i : nat)
  : bool :=
  in_slice rows Ny j && in_slice cols Nx i.

(** *** The run of the solver *)

(** The grid that pass [k + 1] of the loop starts from. *)
Definition grid_before_pass (k : nat) (fixed var : grid bool)
    (T : grid float) : result (grid float) :=
  match k with
  | O => Ok T
  | S k' => '(T', _) <- after_pass k' fixed var T ;; Ok T'
  end.

(** The absolute change of cell [(j, i)] from [T] to [T_new]. *)
Definition change_at (T T_new : grid float) (j i : nat) : float :=
  PrimFloat.abs (Np.cell 0%float T_new j i - Np.cell 0%float T j i)%float.

(** What a pass that ends at epoch [epochs] with the grid [T] and the
    metric [max_change] hands to the reporter and to the exporter. *)
Definition periodic_events (cfg : solver_config) (L : float) (epochs : Z)
    (T : grid float) (max_change : float) : list event :=
  (if (epochs mod report_every cfg =? 0)%Z
   then [Report epochs max_change] else [])
  ++ (if (epochs mod snap_every cfg =? 0)%Z
      then match export_structured_csv_full (mirror_full_from_half T) L with
           | Ok table => [Snapshot epochs table]
           | Err _ => []
           end
      else []).

(** The same for pass [k + 1] of the loop that starts from [T] with
    [start] epochs counted. *)
Definition events_of_pass (cfg : solver_config) (L : float)
    (fixed var : grid bool) (T : grid float) (start : Z) (k : nat)
  : list event :=
  match after_pass k fixed var T with
  | Ok (T_k, max_change) =>
      periodic_events cfg L (start + Z.of_nat k + 1)%Z T_k max_change
  | Err _ => []
  end.

(** The line of the exported table for node [(j, i)]. *)
Definition csv_row_at (T_full : grid float) (h_x h_y : float) (j i : nat)
  : csv_row :=
  {| row_i := Z.of_nat i; row_j := Z.of_nat j; row_k := 0;
     row_x := (Py.float_of_int (Z.of_nat i) * h_x)%float;
     row_y := (Py.float_of_int (Z.of_nat j) * h_y)%float;
     row_Temperature := Np.cell 0%float T_full j i |}.

(** *** Concrete inputs *)

(** Scenario A of the specification: a uniform problem of resolution 5. *)
Definition scenario_A : builder_args := {|
  N := 5; L := 1; L_inner := 3;
  T_top := 50; T_bottom := 50; T_inner := 50; init_guess := 50;
  bath_height := None; bath_fraction := 4 / 9
|}.

(** The same uniform problem with an inner square of size zero. *)
Definition scenario_A_point : builder_args := {|
  N := 5; L := 1; L_inner := 0;
  T_top := 50; T_bottom := 50; T_inner := 50; init_guess := 50;
  bath_height := None; bath_fraction := 4 / 9
|}.

(** Seven rows one unit apart, and an inner square of half-extent [1.5]. *)
Definition seven_rows : builder_args := {|
  N := 7; L := 6; L_inner := 3;
  T_top := 100; T_bottom := 32; T_inner := 212; init_guess := 90;
  bath_height := None; bath_fraction := 4 / 9
|}.

(** The default problem at resolution [n]. *)
Definition with_resolution (n : Z) (a : builder_args) : builder_args := {|
  N := n; L := L a; L_inner := L_inner a;
  T_top := T_top a; T_bottom := T_bottom a; T_inner := T_inner a;
  init_guess := init_guess a;
  bath_height := bath_height a; bath_fraction := bath_fraction a
|}.

(** What the builder makes of [seven_rows]. *)
Definition seven_rows_grid : grid float :=
  Eval vm_compute in
    match build_problem_half seven_rows with
    | Ok (T, _, _, _, _) => T
    | Err _ => []
    end.

Definition seven_rows_fixed : grid bool :=
  Eval vm_compute in
    match build_problem_half seven_rows with
    | Ok (_, fixed, _, _, _) => fixed
    | Err _ => []
    end.

Definition seven_rows_var : grid bool :=
  Eval vm_compute in
    match variable_mask seven_rows_fixed with
    | Ok var => var
    | Err _ => []
    end.

(** What the builder makes of [scenario_A_point]. *)
Definition scenario_A_point_grid : grid float :=
  Eval vm_compute in
    match build_problem_half scenario_A_point with
    | Ok (T, _, _, _, _) => T
    | Err _ => []
    end.

Definition scenario_A_point_fixed : grid bool :=
  Eval vm_compute in
    match build_problem_half scenario_A_point with
    | Ok (_, fixed, _, _, _) => fixed
    | Err _ => []
    end.

(** A short run: at most three passes, a report at each, a snapshot at
    every other. *)
Definition short_run : solver_config := {|
  delta := 1; max_iters := 3; report_every := 1; snap_every := 2
|}.

(** A half-domain grid of two rows and three columns. *)
Definition sample_half : grid float := [[1; 2; 3]; [4; 5; 6]]%float.

(** The uniform problem with an infinite initial guess. *)
Definition unbounded_guess : builder_args := {|
  N := 5; L := 1; L_inner := 0;
  T_top := 50; T_bottom := 50; T_inner := 50; init_guess := infinity;
  bath_height := None; bath_fraction := 4 / 9
|}.

(** The default problem at resolution 5 on a domain of length zero, and on
    one of infinite length. *)
Definition zero_length : builder_args := {|
  N := 5; L := 0; L_inner := 3;
  T_top := 100; T_bottom := 32; T_inner := 212; init_guess := 90;
  bath_height := None; bath_fraction := 4 / 9
|}.

Definition infinite_length : builder_args := {|
  N := 5; L := infinity; L_inner := 3;
  T_top := 100; T_bottom := 32; T_inner := 212; init_guess := 90;
  bath_height := None; bath_fraction := 4 / 9
|}.

(** Grids of a single column and of a single row, with their masks, and
    masks of the shape of [sample_half] and of another one. *)
Definition single_column : grid float := [[1]; [2]; [3]]%float.
Definition single_column_fixed : grid bool := [[true]; [false]; [true]].
Definition single_row : grid float := [[1; 2; 3]]%float.
Definition single_row_fixed : grid bool := [[true; false; true]].
Definition sample_fixed : grid bool :=
  [[true; true; true]; [true; false; true]].
Definition narrow_fixed : grid bool := [[true; true]; [true; true]].

(** Runs with no reporting period, with no pass allowed, and with a
    threshold of zero. *)
Definition silent_run : solver_config := {|
  delta := 1; max_iters := 3; report_every := 0; snap_every := 2
|}.

Definition no_budget : solver_config := {|
  delta := 1; max_iters := 0; report_every := 1; snap_every := 2
|}.

Definition exact_run : solver_config := {|
  delta := 0; max_iters := 3; report_every := 1; snap_every := 2
|}.

(** The uniform problem with an inner square of size zero and a bath
    height that is not a number. *)
Definition scenario_A_nan_bath : builder_args := {|
  N := 5; L := 1; L_inner := 0;
  T_top := 50; T_bottom := 50; T_inner := 50; init_guess := 50;
  bath_height := Some nan; bath_fraction := 4 / 9
|}.

(** The variable cells of [scenario_A_point], and what the builder makes
    of [unbounded_guess]. *)
Definition scenario_A_point_var : grid bool :=
  Eval vm_compute in
    match variable_mask scenario_A_point_fixed with
    | Ok var => var
    | Err _ => []
    end.

Definition unbounded_guess_grid : grid float :=
  Eval vm_compute in
    match build_problem_half unbounded_guess with
    | Ok (T, _, _, _, _) => T
    | Err _ => []
    end.

(** A number that is not negative: positive, a zero, or not a number at
    all. *)
Definition nonneg_or_nan (x : float) : Prop :=
  is_nan x = true \/ (0 <=? x)%float = true.

(** *** Binary64 numbers as real numbers *)

(** The power [2^e] of the radix. *)
Definition B (e : Z) : R := powerRZ 2 e.

(** The value of the finite number of mantissa [m] and exponent [e]. *)
Definition F2R (m : positive) (e : Z) : R := (IZR (Zpos m) * B e)%R.

(** [inb m x l]: the real [x] lies in [m, m + 1) at the place the
    location [l] tells: on [m], below the middle, on it, or above. *)
Definition inb (m : Z) (x : R) (l : location) : Prop :=
  match l with
  | loc_Exact => x = IZR m
  | loc_Inexact Lt => (IZR m < x < IZR m + / 2)%R
  | loc_Inexact Eq => x = (IZR m + / 2)%R
  | loc_Inexact Gt => (IZR m + / 2 < x < IZR m + 1)%R
  end.

(** The same for a mantissa with its round and sticky bits. *)
Definition inb_rec (mrs : shr_record) (x : R) : Prop :=
  (0 <= shr_m mrs)%Z /\ inb (shr_m mrs) x (loc_of_shr_record mrs).

(** * Properties *)

(** ** Shapes and cells *)

Section ListFacts.
Context {A : Type}.
Implicit Types (l : list A) (d : A).

Lemma length_update_range lo len f l :
  length (Np.update_range lo len f l) = length l.
Proof.
  revert lo len; induction l as [|x t IH]; intros [|lo] [|len]; simpl;
    rewrite ?IH; reflexivity.
Qed.

Lemma nth_update_range lo len f l k d :
  k < length l ->
  nth k (Np.update_range lo len f l) d =
  if (lo <=? k) && (k <? lo + len) then f (nth k l d) else nth k l d.
Proof.
  revert lo len k; induction l as [|x t IH]; intros lo len k Hk;
    simpl in Hk; [lia|].
  destruct lo as [|lo]; simpl.
  - destruct len as [|len].
    + replace (k <? 0) with false by (symmetry; apply Nat.ltb_ge; lia).
      reflexivity.
    + destruct k as [|k]; simpl; [reflexivity|].
      rewrite IH by lia. reflexivity.
  - destruct k as [|k]; simpl; [reflexivity|].
    rewrite IH by lia. reflexivity.
Qed.

Lemma length_overlay {B : Type} (f : B -> A -> A) lo (src : list B) l :
  length (Np.overlay f lo src l) = length l.
Proof.
  revert lo src; induction l as [|x t IH]; intros [|lo] [|b src]; simpl;
    rewrite ?IH; reflexivity.
Qed.

Lemma nth_overlay {B : Type} (f : B -> A -> A) lo (src : list B) l k d db :
  k < length l ->
  nth k (Np.overlay f lo src l) d =
  if (lo <=? k) && (k <? lo + length src)
  then f (nth (k - lo) src db) (nth k l d) else nth k l d.
Proof.
  revert lo src k; induction l as [|x t IH]; intros lo src k Hk;
    simpl in Hk; [lia|].
  destruct lo as [|lo]; simpl.
  - destruct src as [|b src]; simpl.
    + replace (k <? 0) with false by (symmetry; apply Nat.ltb_ge; lia).
      reflexivity.
    + destruct k as [|k]; simpl; [reflexivity|].
      rewrite (IH 0 src k) by lia. simpl. rewrite Nat.sub_0_r. reflexivity.
  - destruct k as [|k]; simpl; [reflexivity|].
    rewrite IH by lia. reflexivity.
Qed.

Lemma slice_indices_le start stop n :
  snd (Py.slice_indices start stop n) <= n.
Proof.
  unfold Py.slice_indices, Py.slice_bound; cbn [snd].
  destruct stop as [k|]; [destruct (k <? 0)%Z|].
  all: lia.
Qed.

Lemma length_slice1 start stop l :
  length (Np.slice1 start stop l) =
  snd (Py.slice_indices start stop (length l))
  - fst (Py.slice_indices start stop (length l)).
Proof.
  unfold Np.slice1.
  pose proof (slice_indices_le start stop (length l)) as H.
  destruct (Py.slice_indices start stop (length l)) as [lo hi]; simpl in *.
  rewrite length_firstn, length_skipn. lia.
Qed.

Lemma nth_slice1 start stop l k d :
  k < length (Np.slice1 start stop l) ->
  nth k (Np.slice1 start stop l) d =
  nth (fst (Py.slice_indices start stop (length l)) + k) l d.
Proof.
  rewrite length_slice1. unfold Np.slice1.
  destruct (Py.slice_indices start stop (length l)) as [lo hi]; simpl.
  intros Hk. rewrite nth_firstn, nth_skipn.
  destruct (k <? hi - lo) eqn:E; [reflexivity|].
  apply Nat.ltb_ge in E. lia.
Qed.

Lemma slice1_all l : Np.slice1 None None l = l.
Proof.
  unfold Np.slice1, Py.slice_indices, Py.slice_bound.
  rewrite Nat2Z.id. simpl. rewrite Nat.sub_0_r. apply firstn_all.
Qed.

Lemma slice1_tail l : Np.slice1 (Some 1%Z) None l = tl l.
Proof.
  unfold Np.slice1, Py.slice_indices, Py.slice_bound.
  rewrite Nat2Z.id. destruct l as [|x t]; [reflexivity|].
  change (1 <? 0)%Z with false. cbv iota.
  replace (Z.to_nat (Z.min (Z.max 1 0) (Z.of_nat (length (x :: t)))))
    with 1 by (simpl length; lia).
  simpl. rewrite Nat.sub_0_r. apply firstn_all.
Qed.

End ListFacts.

Section ZipFacts.
Context {A B C : Type}.

Lemma length_zip_with (f : A -> B -> C) a b :
  length (Np.zip_with f a b) = Nat.min (length a) (length b).
Proof.
  revert b; induction a as [|x a IH]; intros [|y b]; simpl;
    rewrite ?IH; reflexivity.
Qed.

Lemma nth_zip_with (f : A -> B -> C) a b k da db dc :
  k < length a -> k < length b ->
  nth k (Np.zip_with f a b) dc = f (nth k a da) (nth k b db).
Proof.
  revert b k; induction a as [|x a IH]; intros [|y b] k Ha Hb;
    simpl in *; try lia.
  destruct k as [|k]; [reflexivity|]. apply IH; lia.
Qed.

Lemma zip_with_map_l {A' : Type} (f : A -> B -> C) (g : A' -> A) a b :
  Np.zip_with f (map g a) b = Np.zip_with (fun x y => f (g x) y) a b.
Proof.
  revert b; induction a as [|x a IH]; intros [|y b]; simpl;
    rewrite ?IH; reflexivity.
Qed.

End ZipFacts.

Lemma zip_with_diag {A C : Type} (f : A -> A -> C) (a : list A) :
  Np.zip_with f a a = map (fun x => f x x) a.
Proof. induction a as [|x a IH]; simpl; rewrite ?IH; reflexivity. Qed.

(** ** The mirror operator *)

Section Mirror.
Context {A : Type}.
Implicit Types (T : grid A) (row : list A).

Lemma mirror_rows T : mirror_full_from_half T = map (@mirror_row A) T.
Proof.
  unfold mirror_full_from_half, Np.hstack, Np.flip_columns, Np.slice2.
  simpl fst; simpl snd. rewrite slice1_all, map_map, zip_with_map_l.
  rewrite zip_with_diag. apply map_ext. intros row.
  rewrite slice1_tail. reflexivity.
Qed.

Lemma length_mirror_row row :
  1 <= length row -> length (mirror_row row) = 2 * length row - 1.
Proof.
  unfold mirror_row. destruct row as [|x t]; simpl; [lia|].
  intros _. rewrite length_app, length_rev. simpl. lia.
Qed.

Lemma mirror_row_palindrome row : rev (mirror_row row) = mirror_row row.
Proof.
  unfold mirror_row. destruct row as [|x t]; [reflexivity|].
  simpl. rewrite rev_app_distr. simpl. rewrite rev_involutive.
  rewrite <- app_assoc. reflexivity.
Qed.

Lemma rect_mirror Ny Nx T :
  rect Ny Nx T -> 1 <= Nx -> rect Ny (2 * Nx - 1) (mirror_full_from_half T).
Proof.
  intros [Hlen Hrows] HNx. rewrite mirror_rows. split.
  - rewrite length_map. exact Hlen.
  - apply Forall_map. revert Hrows. apply Forall_impl.
    intros row Hrow. rewrite length_mirror_row; lia.
Qed.

End Mirror.

Lemma rect_row {A : Type} Ny Nx (g : grid A) j :
  rect Ny Nx g -> j < Ny -> length (nth j g []) = Nx.
Proof.
  intros [Hlen Hrows] Hj. rewrite Forall_nth in Hrows.
  apply Hrows. lia.
Qed.

Lemma cell_mirror {A : Type} (d : A) Ny Nx (T : grid A) j i :
  rect Ny Nx T -> j < Ny -> i < 2 * Nx - 1 ->
  Np.cell d (mirror_full_from_half T) j i
  = Np.cell d (mirror_full_from_half T) j (2 * Nx - 1 - 1 - i).
Proof.
  intros HT Hj Hi. unfold Np.cell. rewrite mirror_rows.
  change (@nil A) with (mirror_row (@nil A)) at 1 2. rewrite map_nth.
  pose proof (rect_row _ _ _ _ HT Hj) as Hrow.
  set (row := nth j T []) in *.
  assert (Hlen : length (mirror_row row) = 2 * Nx - 1)
    by (rewrite length_mirror_row; lia).
  rewrite <- (mirror_row_palindrome row) at 1.
  rewrite rev_nth by lia. f_equal. lia.
Qed.

(** C3. For a half-domain grid of [Ny] rows and [Nx_half >= 1] columns the
    mirror has [Ny] rows and the odd width [W = 2 * Nx_half - 1], and it is
    symmetric about its central column:
    [full[j, i] = full[j, W - 1 - i]] for every row [j] and column [i]. *)
Theorem mirror_shape_and_symmetry :
  forall (Ny Nx_half : nat) (T_half : grid float),
    rect Ny Nx_half T_half -> 1 <= Nx_half ->
    let W := 2 * Nx_half - 1 in
    let full := mirror_full_from_half T_half in
    rect Ny W full /\ Nat.odd W = true /\
    forall j i, j < Ny -> i < W ->
      Np.cell 0%float full j i = Np.cell 0%float full j (W - 1 - i).
Proof.
  intros Ny Nx T HT HNx W full. repeat split.
  - apply (rect_mirror Ny Nx T HT HNx).
  - apply (rect_mirror Ny Nx T HT HNx).
  - subst W. replace (2 * Nx - 1) with (S (2 * (Nx - 1))) by lia.
    rewrite Nat.odd_succ. apply Nat.even_even.
  - intros j i Hj Hi. apply cell_mirror with (Ny := Ny); assumption.
Qed.

Lemma mirror_row_right_half {A : Type} (row : list A) :
  Np.slice1 (Some (Z.of_nat (length row) - 1)%Z)
            (Some (2 * Z.of_nat (length row) - 1 - 1 + 1)%Z)
            (mirror_row row) = row.
Proof.
  destruct row as [|x t]; [reflexivity|].
  unfold Np.slice1, Py.slice_indices, Py.slice_bound.
  rewrite length_mirror_row by (simpl; lia).
  set (n := length (x :: t)).
  assert (Hn : n = S (length t)) by reflexivity.
  replace ((Z.of_nat n - 1 <? 0)%Z) with false by (symmetry; lia).
  replace ((2 * Z.of_nat n - 1 - 1 + 1 <? 0)%Z) with false by (symmetry; lia).
  replace (Z.to_nat (Z.min (Z.max (Z.of_nat n - 1) 0)
                           (Z.of_nat (2 * n - 1)))) with (length (rev t))
    by (rewrite length_rev; lia).
  replace (Z.to_nat (Z.min (Z.max (2 * Z.of_nat n - 1 - 1 + 1) 0)
                           (Z.of_nat (2 * n - 1)))) with (2 * n - 1) by lia.
  unfold mirror_row. simpl tl.
  rewrite skipn_app, skipn_all, Nat.sub_diag. simpl skipn.
  rewrite length_rev. apply firstn_all2. subst n. simpl. lia.
Qed.

(** C9. Mirroring a half-domain grid of [Nx_half] columns and taking columns
    [Nx_half - 1] to [W - 1] of the result, [W = 2 * Nx_half - 1], gives
    the half-domain grid back. *)
Theorem mirror_right_half_roundtrip :
  forall (Ny Nx_half : nat) (T_half : grid float),
    rect Ny Nx_half T_half ->
    let W := (2 * Z.of_nat Nx_half - 1)%Z in
    columns (Z.of_nat Nx_half - 1) (W - 1) (mirror_full_from_half T_half)
    = T_half.
Proof.
  intros Ny Nx T [_ Hrows] W. subst W. unfold columns, Np.slice2.
  simpl fst; simpl snd. rewrite slice1_all, mirror_rows, map_map.
  induction Hrows as [|row T Hrow _ IH]; [reflexivity|].
  simpl. rewrite IH. f_equal. subst Nx. apply mirror_row_right_half.
Qed.

(** ** Cells of the arrays the operations build *)

Lemma nth_map_default {A B : Type} (f : A -> B) (l : list A) k da db :
  k < length l -> nth k (map f l) db = f (nth k l da).
Proof.
  intros Hk. rewrite (nth_indep _ db (f da)) by (rewrite length_map; lia).
  apply map_nth.
Qed.

Section GridFacts.
Context {A : Type}.
Implicit Types (g : grid A) (d : A).

Lemma rect_length Ny Nx g : rect Ny Nx g -> length g = Ny.
Proof. intros [H _]; exact H. Qed.

Lemma rect_cons Ny Nx row g :
  rect (S Ny) Nx (row :: g) <-> length row = Nx /\ rect Ny Nx g.
Proof.
  unfold rect; simpl; split.
  - intros [Hlen Hrows]. inversion Hrows; subst. repeat split; auto.
  - intros [Hrow [Hlen Hrows]]. split; [lia|]. constructor; assumption.
Qed.

Lemma rect_nil_inv Nx g : rect 0 Nx g -> g = [].
Proof. intros [Hlen _]. destruct g; [reflexivity|discriminate]. Qed.

Lemma Forall_slice1 (P : list A -> Prop) start stop g :
  Forall P g -> Forall P (Np.slice1 start stop g).
Proof.
  intros H. unfold Np.slice1.
  destruct (Py.slice_indices start stop (length g)) as [lo hi].
  apply Forall_forall. intros row Hin.
  rewrite Forall_forall in H. apply H.
  rewrite <- (firstn_skipn lo g). apply in_or_app. right.
  rewrite <- (firstn_skipn (hi - lo) (skipn lo g)). apply in_or_app.
  left. exact Hin.
Qed.

Lemma rect_slice2 Ny Nx g rs cs :
  rect Ny Nx g ->
  rect (snd (Py.slice_indices (fst rs) (snd rs) Ny)
        - fst (Py.slice_indices (fst rs) (snd rs) Ny))
       (snd (Py.slice_indices (fst cs) (snd cs) Nx)
        - fst (Py.slice_indices (fst cs) (snd cs) Nx))
       (Np.slice2 rs cs g).
Proof.
  intros [Hlen Hrows]. unfold Np.slice2. split.
  - rewrite length_map, length_slice1, Hlen. reflexivity.
  - apply Forall_map. apply Forall_slice1. revert Hrows.
    apply Forall_impl. intros row Hrow.
    rewrite length_slice1, Hrow. reflexivity.
Qed.

Lemma cell_slice2 d Ny Nx g rs cs j i :
  rect Ny Nx g ->
  j < snd (Py.slice_indices (fst rs) (snd rs) Ny)
      - fst (Py.slice_indices (fst rs) (snd rs) Ny) ->
  i < snd (Py.slice_indices (fst cs) (snd cs) Nx)
      - fst (Py.slice_indices (fst cs) (snd cs) Nx) ->
  Np.cell d (Np.slice2 rs cs g) j i
  = Np.cell d g (fst (Py.slice_indices (fst rs) (snd rs) Ny) + j)
                (fst (Py.slice_indices (fst cs) (snd cs) Nx) + i).
Proof.
  intros HT Hj Hi. pose proof (rect_length _ _ _ HT) as Hlen.
  pose proof (slice_indices_le (fst rs) (snd rs) Ny) as Hle.
  unfold Np.cell, Np.slice2.
  rewrite (nth_map_default _ _ _ [])
    by (rewrite length_slice1, Hlen; exact Hj).
  rewrite (nth_slice1 (fst rs) (snd rs) g j [])
    by (rewrite length_slice1, Hlen; exact Hj).
  rewrite Hlen.
  set (row := nth _ g []).
  assert (Hrow : length row = Nx) by (apply (rect_row Ny); [exact HT|lia]).
  rewrite nth_slice1 by (rewrite length_slice1, Hrow; exact Hi).
  rewrite Hrow. reflexivity.
Qed.

Lemma rect_map {B : Type} (f : A -> B) Ny Nx g :
  rect Ny Nx g -> rect Ny Nx (map (map f) g).
Proof.
  intros [Hlen Hrows]. split; [rewrite length_map; exact Hlen|].
  apply Forall_map. revert Hrows. apply Forall_impl.
  intros row Hrow. rewrite length_map. exact Hrow.
Qed.

Lemma cell_map {B : Type} (f : A -> B) d db Ny Nx g j i :
  rect Ny Nx g -> j < Ny -> i < Nx ->
  Np.cell db (map (map f) g) j i = f (Np.cell d g j i).
Proof.
  intros HT Hj Hi. unfold Np.cell.
  rewrite (nth_map_default _ _ _ []) by (rewrite (rect_length _ _ _ HT); lia).
  apply nth_map_default. rewrite (rect_row Ny Nx); assumption.
Qed.

End GridFacts.

Section Map2Facts.
Context {A B C : Type}.

Lemma rect_map2 (f : A -> B -> C) Ny Nx (a : grid A) (b : grid B) :
  rect Ny Nx a -> rect Ny Nx b -> rect Ny Nx (Np.map2 f a b).
Proof.
  revert Ny b; induction a as [|ra a IH]; intros Ny [|rb b] Ha Hb.
  - destruct Ha as [Ha _]. split; [exact Ha|constructor].
  - destruct Ha as [Ha _], Hb as [Hb _]; simpl in *; lia.
  - destruct Ha as [Ha _], Hb as [Hb _]; simpl in *; lia.
  - destruct Ny as [|Ny]; [destruct Ha; discriminate|].
    apply rect_cons in Ha, Hb. destruct Ha as [Hra Ha], Hb as [Hrb Hb].
    unfold Np.map2; simpl. apply rect_cons. split.
    + rewrite length_zip_with. lia.
    + apply IH; assumption.
Qed.

Lemma cell_map2 (f : A -> B -> C) da db dc Ny Nx (a : grid A) (b : grid B)
    j i :
  rect Ny Nx a -> rect Ny Nx b -> j < Ny -> i < Nx ->
  Np.cell dc (Np.map2 f a b) j i = f (Np.cell da a j i) (Np.cell db b j i).
Proof.
  intros Ha Hb Hj Hi. unfold Np.cell, Np.map2.
  rewrite (nth_zip_with _ _ _ _ [] [])
    by (rewrite (rect_length _ _ _ Ha) || rewrite (rect_length _ _ _ Hb); lia).
  apply nth_zip_with; rewrite (rect_row Ny Nx); assumption.
Qed.

End Map2Facts.

Section MaskFacts.
Context {A : Type}.
Implicit Types (g src : grid A) (mask : grid bool) (d : A).

Lemma same_shape_rect {B : Type} Ny Nx (m : grid B) g :
  rect Ny Nx m -> rect Ny Nx g -> Np.same_shape m g = true.
Proof.
  revert Ny g; induction m as [|mrow m IH]; intros Ny [|row g] Hm Hg.
  - reflexivity.
  - destruct Hm as [Hm _], Hg as [Hg _]; simpl in *; lia.
  - destruct Hm as [Hm _], Hg as [Hg _]; simpl in *; lia.
  - destruct Ny as [|Ny]; [destruct Hm; discriminate|].
    apply rect_cons in Hm, Hg. destruct Hm as [Hmrow Hm], Hg as [Hrow Hg].
    simpl. rewrite (IH Ny g Hm Hg), Hmrow, Hrow, Nat.eqb_refl. reflexivity.
Qed.

Lemma assign_row_select_row (l : list A) mrow srow rest :
  length mrow = length l -> length srow = length l ->
  Np.assign_row l mrow (Np.select_row mrow srow ++ rest)
  = (choose_row mrow srow l, rest).
Proof.
  revert mrow srow; induction l as [|x l IH]; intros [|m mrow] [|s srow];
    simpl; intros Hm Hs; try discriminate; [reflexivity|].
  destruct m; simpl; rewrite IH by lia; reflexivity.
Qed.

Lemma assign_rows_select_rows Ny Nx g mask src rest :
  rect Ny Nx g -> rect Ny Nx mask -> rect Ny Nx src ->
  Np.assign_rows g mask (Np.select_rows mask src ++ rest) = choose mask src g.
Proof.
  revert Ny mask src; induction g as [|row g IH];
    intros Ny [|mrow mask] [|srow src] Hg Hm Hs;
    try (destruct Hg as [Hg _], Hm as [Hm _], Hs as [Hs _]; simpl in *; lia);
    try reflexivity.
  destruct Ny as [|Ny]; [destruct Hg; discriminate|].
  apply rect_cons in Hg, Hm, Hs.
  destruct Hg as [Hrow Hg], Hm as [Hmrow Hm], Hs as [Hsrow Hs].
  simpl. rewrite <- app_assoc, assign_row_select_row by lia.
  rewrite (IH Ny mask src Hg Hm Hs). reflexivity.
Qed.

Lemma length_choose_row (mrow : list bool) (a b : list A) n :
  length mrow = n -> length a = n -> length b = n ->
  length (choose_row mrow a b) = n.
Proof.
  revert mrow a b; induction n as [|n IH]; intros [|m mrow] [|x a] [|y b];
    simpl; intros; try discriminate; [reflexivity|].
  rewrite IH; auto.
Qed.

Lemma nth_choose_row (mrow : list bool) (a b : list A) k d :
  k < length mrow -> length a = length mrow -> length b = length mrow ->
  nth k (choose_row mrow a b) d
  = if nth k mrow false then nth k a d else nth k b d.
Proof.
  revert a b k; induction mrow as [|m mrow IH]; intros [|x a] [|y b] k;
    simpl; intros Hk Ha Hb; try discriminate; try lia.
  destruct k as [|k]; [reflexivity|]. apply IH; lia.
Qed.

Lemma rect_choose Ny Nx mask (a b : grid A) :
  rect Ny Nx mask -> rect Ny Nx a -> rect Ny Nx b ->
  rect Ny Nx (choose mask a b).
Proof.
  revert Ny a b; induction mask as [|mrow mask IH];
    intros Ny [|ra a] [|rb b] Hm Ha Hb;
    try (destruct Hm as [Hm _], Ha as [Ha _], Hb as [Hb _];
         simpl in *; lia);
    try (destruct Hm as [Hm _]; split; [exact Hm|constructor]).
  destruct Ny as [|Ny]; [destruct Hm; discriminate|].
  apply rect_cons in Hm, Ha, Hb.
  destruct Hm as [Hmrow Hm], Ha as [Hra Ha], Hb as [Hrb Hb].
  simpl. apply rect_cons. split.
  - apply length_choose_row; assumption.
  - apply IH; assumption.
Qed.

Lemma cell_choose d Ny Nx mask (a b : grid A) j i :
  rect Ny Nx mask -> rect Ny Nx a -> rect Ny Nx b -> j < Ny -> i < Nx ->
  Np.cell d (choose mask a b) j i
  = if Np.cell false mask j i then Np.cell d a j i else Np.cell d b j i.
Proof.
  revert Ny a b j; induction mask as [|mrow mask IH];
    intros Ny [|ra a] [|rb b] j Hm Ha Hb Hj Hi;
    try (destruct Hm as [Hm _], Ha as [Ha _], Hb as [Hb _];
         simpl in *; lia).
  destruct Ny as [|Ny]; [lia|].
  apply rect_cons in Hm, Ha, Hb.
  destruct Hm as [Hmrow Hm], Ha as [Hra Ha], Hb as [Hrb Hb].
  destruct j as [|j].
  - unfold Np.cell. simpl. apply nth_choose_row; lia.
  - apply (IH Ny a b j); try assumption. lia.
Qed.

(** A masked copy: selecting from [src] with [mask] and assigning the
    values to [g] through the same mask is [np.where(mask, src, g)]. *)
Lemma masked_copy Ny Nx g mask src :
  rect Ny Nx g -> rect Ny Nx mask -> rect Ny Nx src ->
  (vals <- Np.select mask src ;; Np.assign g mask vals)
  = Ok (choose mask src g).
Proof.
  intros Hg Hm Hs. unfold Np.select, Np.assign.
  rewrite (same_shape_rect Ny Nx mask src Hm Hs). simpl.
  rewrite (same_shape_rect Ny Nx mask g Hm Hg).
  rewrite <- (app_nil_r (Np.select_rows mask src)).
  rewrite (assign_rows_select_rows Ny Nx); auto.
Qed.

Lemma rect_put_block Ny Nx r0 c0 (blk g : grid A) :
  rect Ny Nx g -> rect Ny Nx (Np.put_block r0 c0 blk g).
Proof.
  intros [Hlen Hrows]. unfold Np.put_block. split.
  - rewrite length_overlay. exact Hlen.
  - apply Forall_nth. intros j d Hj. rewrite length_overlay in Hj.
    rewrite (nth_overlay _ _ _ _ _ _ []) by exact Hj.
    rewrite Forall_nth in Hrows.
    destruct (_ && _); [rewrite length_overlay|]; apply Hrows; exact Hj.
Qed.

Lemma cell_put_block d Ny Nx By Bx r0 c0 (blk g : grid A) j i :
  rect Ny Nx g -> rect By Bx blk -> j < Ny -> i < Nx ->
  Np.cell d (Np.put_block r0 c0 blk g) j i
  = if (r0 <=? j) && (j <? r0 + By) && ((c0 <=? i) && (i <? c0 + Bx))
    then Np.cell d blk (j - r0) (i - c0) else Np.cell d g j i.
Proof.
  intros Hg Hb Hj Hi. unfold Np.cell, Np.put_block.
  rewrite (nth_overlay _ _ _ _ _ _ [])
    by (rewrite (rect_length _ _ _ Hg); exact Hj).
  rewrite (rect_length _ _ _ Hb).
  destruct ((r0 <=? j) && (j <? r0 + By)) eqn:Erow; [|reflexivity].
  apply andb_prop in Erow. destruct Erow as [E1 E2].
  apply Nat.leb_le in E1. apply Nat.ltb_lt in E2.
  rewrite (nth_overlay _ _ _ _ _ _ d)
    by (rewrite (rect_row Ny Nx); assumption).
  rewrite (rect_row By Bx blk) by (assumption || lia).
  reflexivity.
Qed.

End MaskFacts.

Section UpdateFacts.
Context {A : Type}.
Implicit Types (g : grid A) (d v : A).

Lemma ncols_rect Ny Nx g : rect Ny Nx g -> 1 <= Ny -> Np.ncols g = Nx.
Proof.
  intros [Hlen Hrows] HNy. unfold Np.ncols.
  destruct g as [|row g]; [simpl in Hlen; lia|].
  inversion Hrows; subst; reflexivity.
Qed.

Lemma index_ok k n :
  (0 <= k < Z.of_nat n)%Z -> Py.index k n = Ok (Z.to_nat k).
Proof.
  intros Hk. unfold Py.index.
  replace (k <? 0)%Z with false by (symmetry; lia).
  replace ((0 <=? k)%Z && (k <? Z.of_nat n)%Z) with true; [reflexivity|].
  symmetry. apply andb_true_intro. split; lia.
Qed.

Lemma index_last n : 1 <= n -> Py.index (-1) n = Ok (n - 1).
Proof.
  intros Hn. unfold Py.index. change (-1 <? 0)%Z with true. cbv iota.
  replace ((0 <=? -1 + Z.of_nat n)%Z && (-1 + Z.of_nat n <? Z.of_nat n)%Z)
    with true by (symmetry; apply andb_true_intro; split; lia).
  f_equal. lia.
Qed.

Lemma rect_update_rows Ny Nx lo len (f : list A -> list A) g :
  (forall row, length (f row) = length row) ->
  rect Ny Nx g -> rect Ny Nx (Np.update_range lo len f g).
Proof.
  intros Hf [Hlen Hrows]. split.
  - rewrite length_update_range. exact Hlen.
  - apply Forall_nth. intros j d Hj. rewrite length_update_range in Hj.
    rewrite nth_update_range by exact Hj.
    rewrite Forall_nth in Hrows.
    destruct (_ && _); [rewrite Hf|]; apply Hrows; exact Hj.
Qed.

Lemma rect_map_rows Ny Nx (f : list A -> list A) g :
  (forall row, length (f row) = length row) ->
  rect Ny Nx g -> rect Ny Nx (map f g).
Proof.
  intros Hf [Hlen Hrows]. split; [rewrite length_map; exact Hlen|].
  apply Forall_map. revert Hrows. apply Forall_impl.
  intros row Hrow. rewrite Hf. exact Hrow.
Qed.

Lemma rect_overlay_rows {B : Type} Ny Nx (f : B -> list A -> list A) lo
    (src : list B) g :
  (forall b row, length (f b row) = length row) ->
  rect Ny Nx g -> rect Ny Nx (Np.overlay f lo src g).
Proof.
  intros Hf [Hlen Hrows]. split.
  - rewrite length_overlay. exact Hlen.
  - apply Forall_nth. intros j d Hj. rewrite length_overlay in Hj.
    destruct src as [|b0 src0] eqn:Esrc.
    + replace (Np.overlay f lo [] g) with g; [|clear; revert lo;
        induction g as [|x t IH]; intros [|lo]; simpl; try reflexivity;
        rewrite <- IH; reflexivity].
      rewrite Forall_nth in Hrows. apply Hrows. exact Hj.
    + rewrite <- Esrc. rewrite (nth_overlay _ _ _ _ _ _ b0) by exact Hj.
      rewrite Forall_nth in Hrows.
      destruct (_ && _); [rewrite Hf|]; apply Hrows; exact Hj.
Qed.

(** [g[r, :] = v] *)
Lemma cell_set_row d Ny Nx r v g j i :
  rect Ny Nx g -> j < Ny -> i < Nx ->
  Np.cell d (Np.update_range r 1 (map (fun _ => v)) g) j i
  = if j =? r then v else Np.cell d g j i.
Proof.
  intros Hg Hj Hi. unfold Np.cell.
  rewrite nth_update_range by (rewrite (rect_length _ _ _ Hg); exact Hj).
  destruct (Nat.eqb_spec j r) as [->|Hne].
  - replace ((r <=? r) && (r <? r + 1)) with true
      by (symmetry; apply andb_true_intro; split;
          [apply Nat.leb_le|apply Nat.ltb_lt]; lia).
    rewrite (nth_map_default _ _ _ d) by (rewrite (rect_row Ny Nx); auto).
    reflexivity.
  - replace ((r <=? j) && (j <? r + 1)) with false; [reflexivity|].
    symmetry. apply andb_false_iff.
    destruct (Nat.leb_spec r j); [right; apply Nat.ltb_ge; lia|left; reflexivity].
Qed.

(** [g[:, c] = v] *)
Lemma cell_set_column d Ny Nx c v g j i :
  rect Ny Nx g -> j < Ny -> i < Nx ->
  Np.cell d (map (Np.update_range c 1 (fun _ => v)) g) j i
  = if i =? c then v else Np.cell d g j i.
Proof.
  intros Hg Hj Hi. unfold Np.cell.
  rewrite (nth_map_default _ _ _ [])
    by (rewrite (rect_length _ _ _ Hg); exact Hj).
  rewrite nth_update_range by (rewrite (rect_row Ny Nx); auto).
  destruct (Nat.eqb_spec i c) as [->|Hne].
  - replace ((c <=? c) && (c <? c + 1)) with true; [reflexivity|].
    symmetry; apply andb_true_intro; split;
      [apply Nat.leb_le|apply Nat.ltb_lt]; lia.
  - replace ((c <=? i) && (i <? c + 1)) with false; [reflexivity|].
    symmetry. apply andb_false_iff.
    destruct (Nat.leb_spec c i); [right; apply Nat.ltb_ge; lia|left; reflexivity].
Qed.

(** [g[:, c] = vals] *)
Lemma cell_set_column_from d Ny Nx c (vals : list A) g j i :
  rect Ny Nx g -> length vals = Ny -> j < Ny -> i < Nx ->
  Np.cell d
    (Np.overlay (fun v row => Np.update_range c 1 (fun _ => v) row) 0 vals g)
    j i
  = if i =? c then nth j vals d else Np.cell d g j i.
Proof.
  intros Hg Hvals Hj Hi. unfold Np.cell.
  rewrite (nth_overlay _ _ _ _ _ _ d)
    by (rewrite (rect_length _ _ _ Hg); exact Hj).
  rewrite Hvals. simpl Nat.leb. simpl Nat.add.
  replace (j <? Ny) with true by (symmetry; apply Nat.ltb_lt; exact Hj).
  simpl andb. cbv iota. rewrite Nat.sub_0_r.
  rewrite nth_update_range by (rewrite (rect_row Ny Nx); auto).
  destruct (Nat.eqb_spec i c) as [->|Hne].
  - replace ((c <=? c) && (c <? c + 1)) with true; [reflexivity|].
    symmetry; apply andb_true_intro; split;
      [apply Nat.leb_le|apply Nat.ltb_lt]; lia.
  - replace ((c <=? i) && (i <? c + 1)) with false; [reflexivity|].
    symmetry. apply andb_false_iff.
    destruct (Nat.leb_spec c i); [right; apply Nat.ltb_ge; lia|left; reflexivity].
Qed.

(** [g[r0:r1, c0:c1] = v], with the slices already resolved. *)
Lemma cell_fill d Ny Nx r0 rlen c0 clen v g j i :
  rect Ny Nx g -> j < Ny -> i < Nx ->
  Np.cell d
    (Np.update_range r0 rlen (Np.update_range c0 clen (fun _ => v)) g) j i
  = if (r0 <=? j) && (j <? r0 + rlen) && ((c0 <=? i) && (i <? c0 + clen))
    then v else Np.cell d g j i.
Proof.
  intros Hg Hj Hi. unfold Np.cell.
  rewrite nth_update_range by (rewrite (rect_length _ _ _ Hg); exact Hj).
  destruct ((r0 <=? j) && (j <? r0 + rlen)); [|reflexivity].
  rewrite nth_update_range by (rewrite (rect_row Ny Nx); auto).
  reflexivity.
Qed.

End UpdateFacts.

(** ** The variable mask *)

Lemma variable_mask_spec Ny Nx (fixed : grid bool) :
  rect Ny Nx fixed -> 1 <= Ny -> 1 <= Nx ->
  exists var,
    variable_mask fixed = Ok var /\ rect Ny Nx var /\
    forall j i, j < Ny -> i < Nx ->
      Np.cell false var j i
      = negb (Np.cell false fixed j i) && is_interior Ny Nx j i.
Proof.
  intros Hf HNy HNx. unfold variable_mask.
  set (v0 := Np.logical_not fixed).
  assert (H0 : rect Ny Nx v0) by (apply rect_map; exact Hf).
  unfold Np.set_column at 1. rewrite (ncols_rect Ny Nx v0 H0 HNy).
  rewrite index_ok by lia. simpl bind.
  set (v1 := map _ v0).
  assert (H1 : rect Ny Nx v1)
    by (apply rect_map_rows; [intros; apply length_update_range|exact H0]).
  unfold Np.set_row at 1. unfold Np.nrows. rewrite (rect_length _ _ _ H1).
  rewrite index_ok by lia. simpl bind.
  set (v2 := Np.update_range _ 1 _ v1).
  assert (H2 : rect Ny Nx v2)
    by (apply rect_update_rows; [intros; apply length_map|exact H1]).
  unfold Np.set_row at 1. unfold Np.nrows. rewrite (rect_length _ _ _ H2).
  rewrite index_last by lia. simpl bind.
  set (v3 := Np.update_range _ 1 _ v2).
  assert (H3 : rect Ny Nx v3)
    by (apply rect_update_rows; [intros; apply length_map|exact H2]).
  unfold Np.set_column. rewrite (ncols_rect Ny Nx v3 H3 HNy).
  rewrite index_last by lia. simpl bind.
  eexists. split; [reflexivity|]. split.
  - apply rect_map_rows; [intros; apply length_update_range|exact H3].
  - intros j i Hj Hi.
    rewrite (cell_set_column false Ny Nx) by assumption.
    subst v3. rewrite (cell_set_row false Ny Nx) by assumption.
    subst v2. rewrite (cell_set_row false Ny Nx) by assumption.
    subst v1. rewrite (cell_set_column false Ny Nx) by assumption.
    subst v0. unfold Np.logical_not.
    rewrite (cell_map negb false false Ny Nx) by assumption.
    unfold is_interior. change (Z.to_nat 0) with 0.
    destruct (Nat.eqb_spec i (Nx - 1)), (Nat.eqb_spec j (Ny - 1)),
      (Nat.eqb_spec j 0), (Nat.eqb_spec i 0),
      (Nat.leb_spec 1 j), (Nat.ltb_spec j (Ny - 1)),
      (Nat.leb_spec 1 i), (Nat.ltb_spec i (Nx - 1));
      try lia; destruct (Np.cell false fixed j i); reflexivity.
Qed.

(** ** One sweep *)

Lemma slice_drop_last2 n :
  Py.slice_indices None (Some (-2)%Z) n = (0, n - 2).
Proof.
  unfold Py.slice_indices, Py.slice_bound. change (-2 <? 0)%Z with true.
  cbv iota. f_equal; lia.
Qed.

Lemma slice_drop_first2 n :
  Py.slice_indices (Some 2%Z) None n = (Nat.min 2 n, n).
Proof.
  unfold Py.slice_indices, Py.slice_bound. change (2 <? 0)%Z with false.
  cbv iota. f_equal; lia.
Qed.

Lemma slice_inner n :
  Py.slice_indices (Some 1%Z) (Some (-1)%Z) n = (Nat.min 1 n, n - 1).
Proof.
  unfold Py.slice_indices, Py.slice_bound.
  change (1 <? 0)%Z with false. change (-1 <? 0)%Z with true.
  cbv iota. f_equal; lia.
Qed.

Lemma rect_resize {A : Type} Ny Nx Ny' Nx' (g : grid A) :
  rect Ny Nx g -> Ny = Ny' -> Nx = Nx' -> rect Ny' Nx' g.
Proof. intros H -> ->. exact H. Qed.

Ltac slice_sizes :=
  cbn [fst snd];
  rewrite ?slice_drop_last2, ?slice_drop_first2, ?slice_inner;
  cbn [fst snd]; lia.

Section Sweep.
Variables (Ny Nx : nat) (fixed var : grid bool) (T : grid float).
Hypothesis HT : rect Ny Nx T.
Hypothesis Hfixed : rect Ny Nx fixed.
Hypothesis Hvar : rect Ny Nx var.

Lemma rect_inner_slice {A : Type} (g : grid A) :
  rect Ny Nx g ->
  rect (Ny - 2) (Nx - 2) (Np.slice2 (fst interior) (snd interior) g).
Proof.
  intros Hg. eapply rect_resize; [apply rect_slice2; exact Hg| |];
    unfold interior; slice_sizes.
Qed.

Lemma cell_inner_slice {A : Type} (d : A) (g : grid A) j i :
  rect Ny Nx g -> j < Ny - 2 -> i < Nx - 2 ->
  Np.cell d (Np.slice2 (fst interior) (snd interior) g) j i
  = Np.cell d g (j + 1) (i + 1).
Proof.
  intros Hg Hj Hi.
  rewrite (cell_slice2 d Ny Nx) by (try exact Hg; unfold interior; slice_sizes).
  unfold interior; cbn [fst snd]. rewrite !slice_inner. cbn [fst].
  f_equal; lia.
Qed.

Lemma rect_neighbour_average :
  rect (Ny - 2) (Nx - 2) (neighbour_average T).
Proof.
  unfold neighbour_average, Np.scale, Np.add.
  apply rect_map. repeat apply rect_map2;
    (eapply rect_resize; [apply rect_slice2; exact HT| |]; slice_sizes).
Qed.

Lemma cell_neighbour_average j i :
  j < Ny - 2 -> i < Nx - 2 ->
  Np.cell 0%float (neighbour_average T) j i = average_at T (j + 1) (i + 1).
Proof.
  intros Hj Hi. unfold neighbour_average, Np.scale, Np.add, average_at.
  assert (R : forall rs cs,
             snd (Py.slice_indices (fst rs) (snd rs) Ny)
             - fst (Py.slice_indices (fst rs) (snd rs) Ny) = Ny - 2 ->
             snd (Py.slice_indices (fst cs) (snd cs) Nx)
             - fst (Py.slice_indices (fst cs) (snd cs) Nx) = Nx - 2 ->
             rect (Ny - 2) (Nx - 2) (Np.slice2 rs cs T)).
  { intros rs cs Hr Hc. eapply rect_resize; [apply rect_slice2; exact HT| |];
      assumption. }
  rewrite (cell_map _ 0%float 0%float (Ny - 2) (Nx - 2)); try assumption.
  2:{ repeat apply rect_map2; apply R; slice_sizes. }
  rewrite (cell_map2 _ 0%float 0%float 0%float (Ny - 2) (Nx - 2));
    try assumption.
  2:{ repeat apply rect_map2; apply R; slice_sizes. }
  2:{ apply R; slice_sizes. }
  rewrite (cell_map2 _ 0%float 0%float 0%float (Ny - 2) (Nx - 2));
    try assumption.
  2:{ repeat apply rect_map2; apply R; slice_sizes. }
  2:{ apply R; slice_sizes. }
  rewrite (cell_map2 _ 0%float 0%float 0%float (Ny - 2) (Nx - 2));
    try assumption.
  2,3: apply R; slice_sizes.
  rewrite !(cell_slice2 0%float Ny Nx) by (try exact HT; slice_sizes).
  cbn [fst snd].
  rewrite ?slice_drop_last2, ?slice_drop_first2, ?slice_inner. cbn [fst].
  replace (Nat.min 1 Nx) with 1 by lia. replace (Nat.min 2 Nx) with 2 by lia.
  replace (Nat.min 1 Ny) with 1 by lia. replace (Nat.min 2 Ny) with 2 by lia.
  replace (0 + j) with (j + 1 - 1) by lia.
  replace (1 + i) with (i + 1) by lia.
  replace (2 + j) with (j + 1 + 1) by lia.
  replace (1 + j) with (j + 1) by lia.
  replace (0 + i) with (i + 1 - 1) by lia.
  replace (2 + i) with (i + 1 + 1) by lia.
  reflexivity.
Qed.

End Sweep.

Lemma bind_masked_copy {A B : Type} Ny Nx (g : grid A) mask src
    (k : grid A -> result B) :
  rect Ny Nx g -> rect Ny Nx mask -> rect Ny Nx src ->
  (vals <- Np.select mask src ;; view <- Np.assign g mask vals ;; k view)
  = k (choose mask src g).
Proof.
  intros Hg Hm Hs. pose proof (masked_copy Ny Nx g mask src Hg Hm Hs) as H.
  destruct (Np.select mask src) as [vals|e]; simpl in *; [|discriminate].
  rewrite H. reflexivity.
Qed.

Lemma select_rows_nonempty {A : Type} Ny Nx (mask : grid bool) (g : grid A) :
  rect Ny Nx mask -> rect Ny Nx g -> Np.any mask = true ->
  Np.select_rows mask g <> [].
Proof.
  revert Ny g; induction mask as [|mrow mask IH]; intros Ny [|row g] Hm Hg;
    try (destruct Hm as [Hm _], Hg as [Hg _]; simpl in *; lia).
  destruct Ny as [|Ny]; [destruct Hm; discriminate|].
  apply rect_cons in Hm, Hg. destruct Hm as [Hmrow Hm], Hg as [Hrow Hg].
  unfold Np.any. simpl. intros Hany. apply orb_prop in Hany.
  destruct Hany as [Hany|Hany].
  - intros Hnil. apply app_eq_nil in Hnil. destruct Hnil as [Hnil _].
    clear - Hany Hnil Hmrow Hrow. revert Nx row Hmrow Hrow Hnil.
    induction mrow as [|m mrow IHm]; intros Nx [|x row] Hmrow Hrow Hnil;
      simpl in *; try discriminate; try lia.
    destruct m; [discriminate|]. simpl in Hany.
    apply (IHm Hany (length row) row); [lia|reflexivity|exact Hnil].
  - intros Hnil. apply app_eq_nil in Hnil. destruct Hnil as [_ Hnil].
    exact (IH Ny g Hm Hg Hany Hnil).
Qed.

Section SweepSpec.
Variables (Ny Nx : nat) (fixed var : grid bool) (T : grid float).
Hypothesis HT : rect Ny Nx T.
Hypothesis Hfixed : rect Ny Nx fixed.
Hypothesis Hvar : rect Ny Nx var.
Hypothesis HNy : 1 <= Ny.
Hypothesis HNx : 2 <= Nx.

Lemma rect_averaged : rect Ny Nx (averaged var T).
Proof. apply rect_put_block. exact HT. Qed.

Lemma cell_averaged j i :
  j < Ny -> i < Nx ->
  Np.cell 0%float (averaged var T) j i = relaxed Ny Nx var T j i.
Proof.
  intros Hj Hi. unfold averaged, relaxed.
  rewrite (cell_put_block 0%float Ny Nx (Ny - 2) (Nx - 2)); try assumption.
  2:{ apply rect_choose;
        [apply rect_inner_slice; exact Hvar
        |apply rect_neighbour_average; exact HT
        |apply rect_inner_slice; exact HT]. }
  unfold is_interior.
  destruct (Nat.leb_spec 1 j), (Nat.ltb_spec j (1 + (Ny - 2))),
    (Nat.ltb_spec j (Ny - 1)), (Nat.leb_spec 1 i),
    (Nat.ltb_spec i (1 + (Nx - 2))), (Nat.ltb_spec i (Nx - 1));
    try lia; cbn [andb]; try reflexivity.
  rewrite (cell_choose 0%float (Ny - 2) (Nx - 2)); try lia.
  2: apply rect_inner_slice; exact Hvar.
  2: apply rect_neighbour_average; exact HT.
  2: apply rect_inner_slice; exact HT.
  rewrite (cell_inner_slice Ny Nx false var) by (assumption || lia).
  rewrite (cell_inner_slice Ny Nx 0%float T) by (assumption || lia).
  rewrite (cell_neighbour_average Ny Nx T HT) by lia.
  replace (j - 1 + 1) with j by lia. replace (i - 1 + 1) with i by lia.
  reflexivity.
Qed.

(** The sweep of a well-shaped grid returns; its grid has the same
    shape, cell by cell [next_cell], and its metric is [max_change_of]. *)
Lemma sweep_spec :
  exists T_new,
    sweep fixed var T = Ok (T_new, max_change_of var T T_new) /\
    rect Ny Nx T_new /\
    forall j i, j < Ny -> i < Nx ->
      Np.cell 0%float T_new j i = next_cell Ny Nx fixed var T j i.
Proof.
  unfold sweep.
  rewrite (bind_masked_copy (Ny - 2) (Nx - 2)).
  2: apply rect_inner_slice; exact HT.
  2: apply rect_inner_slice; exact Hvar.
  2: apply rect_neighbour_average; exact HT.
  fold (averaged var T). pose proof rect_averaged as H1.
  set (T_avg := averaged var T) in *.
  unfold Np.column. rewrite (ncols_rect Ny Nx T_avg H1 HNy).
  rewrite index_ok by lia. simpl bind.
  unfold Np.set_column_from. rewrite (ncols_rect Ny Nx T_avg H1 HNy).
  rewrite index_ok by lia. simpl bind.
  unfold Np.nrows. rewrite length_map, Nat.eqb_refl.
  simpl bind. change (Z.to_nat 0) with 0. change (Z.to_nat 1) with 1.
  set (T_sym := Np.overlay _ 0 _ T_avg).
  assert (H2 : rect Ny Nx T_sym)
    by (apply rect_overlay_rows;
        [intros; apply length_update_range|exact H1]).
  rewrite (bind_masked_copy Ny Nx) by assumption.
  set (T_new := choose fixed T T_sym).
  assert (H3 : rect Ny Nx T_new) by (apply rect_choose; assumption).
  assert (Hmetric :
            (if Np.any var
             then changes <- Np.select var (Np.abs (Np.sub T_new T)) ;;
                  Np.max changes
             else Ok 0%float) = Ok (max_change_of var T T_new)).
  { unfold max_change_of. destruct (Np.any var) eqn:Hany; [|reflexivity].
    assert (Hd : rect Ny Nx (Np.abs (Np.sub T_new T)))
      by (apply rect_map; apply rect_map2; assumption).
    unfold Np.select. rewrite (same_shape_rect Ny Nx var _ Hvar Hd).
    simpl bind.
    pose proof (select_rows_nonempty Ny Nx var _ Hvar Hd Hany) as Hne.
    destruct (Np.select_rows var (Np.abs (Np.sub T_new T)));
      [contradiction|reflexivity]. }
  rewrite Hmetric. simpl bind.
  exists T_new. split; [reflexivity|]. split; [exact H3|].
  intros j i Hj Hi. subst T_new. unfold next_cell.
  rewrite (cell_choose 0%float Ny Nx) by assumption.
  destruct (Np.cell false fixed j i); [reflexivity|].
  subst T_sym.
  rewrite (cell_set_column_from 0%float Ny Nx)
    by (assumption || (rewrite length_map; apply (rect_length _ _ _ H1))).
  rewrite (nth_map_default _ _ _ [])
    by (rewrite (rect_length _ _ _ H1); exact Hj).
  destruct (i =? 0).
  - apply cell_averaged; lia.
  - apply cell_averaged; assumption.
Qed.

End SweepSpec.

(** C2. One sweep of the solver takes the current grid to a next grid in
    which (a) every cell of the variable mask is the unweighted average of
    its four orthogonal neighbours in the current grid, (b) every cell off
    column 0 that the variable mask leaves out keeps its value, and
    (c) every cell of column 0 that is not fixed equals the next value of
    its neighbour in column 1. *)
Theorem sweep_update_rule :
  forall (Ny Nx : nat) (T : grid float) (fixed var : grid bool),
    rect Ny Nx T -> rect Ny Nx fixed -> 1 <= Ny -> 2 <= Nx ->
    variable_mask fixed = Ok var ->
    exists T_new max_change,
      sweep fixed var T = Ok (T_new, max_change) /\
      forall j i, j < Ny -> i < Nx ->
        (Np.cell false var j i = true ->
         Np.cell 0%float T_new j i = average_at T j i) /\
        (i <> 0 -> Np.cell false var j i = false ->
         Np.cell 0%float T_new j i = Np.cell 0%float T j i) /\
        (i = 0 -> Np.cell false fixed j i = false ->
         Np.cell 0%float T_new j 0 = Np.cell 0%float T_new j 1).
Proof.
  intros Ny Nx T fixed var HT Hf HNy HNx Hvar.
  destruct (variable_mask_spec Ny Nx fixed Hf HNy ltac:(lia))
    as (var' & Hvar' & Hrect & Hcells).
  rewrite Hvar in Hvar'. injection Hvar' as <-.
  destruct (sweep_spec Ny Nx fixed var T HT Hf Hrect HNy HNx)
    as (T_new & Hsweep & _ & Hnext).
  exists T_new, (max_change_of var T T_new). split; [exact Hsweep|].
  intros j i Hj Hi. repeat split.
  - intros Hv. rewrite Hnext by assumption.
    pose proof (Hcells j i Hj Hi) as Hc. rewrite Hv in Hc.
    symmetry in Hc. apply andb_prop in Hc. destruct Hc as [Hnf Hint].
    unfold next_cell, relaxed. apply negb_true_iff in Hnf.
    rewrite Hnf, Hint, Hv.
    destruct (Nat.eqb_spec i 0) as [->|_]; [|reflexivity].
    unfold is_interior in Hint. rewrite andb_false_r in Hint.
    discriminate.
  - intros Hi0 Hv. rewrite Hnext by assumption.
    unfold next_cell, relaxed. rewrite Hv, andb_false_r.
    destruct (Np.cell false fixed j i); [reflexivity|].
    destruct (Nat.eqb_spec i 0); [contradiction|reflexivity].
  - intros -> Hnf. rewrite !Hnext by (assumption || lia).
    unfold next_cell. rewrite Hnf. simpl Nat.eqb. cbv iota.
    destruct (Np.cell false fixed j 1) eqn:Hf1; [|reflexivity].
    unfold relaxed. rewrite (Hcells j 1) by (assumption || lia).
    rewrite Hf1. simpl negb. rewrite andb_false_l, andb_false_r.
    reflexivity.
Qed.

(** ** The problem builder *)

Lemma bind_ok_inv {A B : Type} (r : result A) (k : A -> result B) b :
  bind r k = Ok b -> exists a, r = Ok a /\ k a = Ok b.
Proof. destruct r as [a|e]; simpl; [eauto|discriminate]. Qed.

Ltac bind_inv H :=
  let a := fresh "x" in
  let Ha := fresh "E" in
  apply bind_ok_inv in H; destruct H as (a & Ha & H).

Section BuilderFacts.
Context {A : Type}.
Implicit Types (g : grid A) (d v : A).

Lemma rect_full Ny Nx v : rect Ny Nx (Np.full Ny Nx v).
Proof.
  unfold Np.full. split; [apply repeat_length|].
  apply Forall_forall. intros row Hin. apply repeat_spec in Hin.
  subst row. apply repeat_length.
Qed.

Lemma index_ok_inv k n r : Py.index k n = Ok r -> r < n.
Proof.
  unfold Py.index. destruct (_ && _) eqn:E; [|discriminate].
  intros [= <-]. apply andb_prop in E. lia.
Qed.

Lemma rect_set_row Ny Nx k v g g' :
  Np.set_row k v g = Ok g' -> rect Ny Nx g -> rect Ny Nx g' /\ 1 <= Ny.
Proof.
  unfold Np.set_row. intros H Hg. bind_inv H. injection H as <-.
  split.
  - apply rect_update_rows; [intros; apply length_map|exact Hg].
  - apply index_ok_inv in E. unfold Np.nrows in E.
    rewrite (rect_length _ _ _ Hg) in E. lia.
Qed.

Lemma rect_set_column Ny Nx k v g g' :
  Np.set_column k v g = Ok g' -> rect Ny Nx g -> rect Ny Nx g'.
Proof.
  unfold Np.set_column. intros H Hg. bind_inv H. injection H as <-.
  apply rect_map_rows; [intros; apply length_update_range|exact Hg].
Qed.

Lemma rect_set_column_from Ny Nx k vals g g' :
  Np.set_column_from k vals g = Ok g' -> rect Ny Nx g -> rect Ny Nx g'.
Proof.
  unfold Np.set_column_from. intros H Hg. bind_inv H.
  destruct (Nat.eqb _ _); [|discriminate]. injection H as <-.
  apply rect_overlay_rows; [intros; apply length_update_range|exact Hg].
Qed.

Lemma rect_fill_block Ny Nx rs cs v g :
  rect Ny Nx g -> rect Ny Nx (Np.fill_block rs cs v g).
Proof.
  intros Hg. unfold Np.fill_block.
  destruct (Py.slice_indices (fst rs) (snd rs) (Np.nrows g)) as [r0 r1].
  destruct (Py.slice_indices (fst cs) (snd cs) (Np.ncols g)) as [c0 c1].
  apply rect_update_rows; [intros; apply length_update_range|exact Hg].
Qed.

Lemma cell_fill_block d Ny Nx rs cs v g j i :
  rect Ny Nx g -> j < Ny -> i < Nx ->
  Np.cell d (Np.fill_block rs cs v g) j i
  = if in_slice rs Ny j && in_slice cs Nx i then v else Np.cell d g j i.
Proof.
  intros Hg Hj Hi. unfold Np.fill_block, in_slice.
  unfold Np.nrows. rewrite (rect_length _ _ _ Hg).
  rewrite (ncols_rect Ny Nx g Hg) by lia.
  destruct (Py.slice_indices (fst rs) (snd rs) Ny) as [r0 r1].
  destruct (Py.slice_indices (fst cs) (snd cs) Nx) as [c0 c1].
  rewrite (cell_fill d Ny Nx) by assumption.
  replace ((r0 <=? j) && (j <? r0 + (r1 - r0)))
    with ((r0 <=? j) && (j <? r1)).
  2:{ destruct (Nat.leb_spec r0 j), (Nat.ltb_spec j r1),
        (Nat.ltb_spec j (r0 + (r1 - r0))); try lia; reflexivity. }
  replace ((c0 <=? i) && (i <? c0 + (c1 - c0)))
    with ((c0 <=? i) && (i <? c1)); [reflexivity|].
  destruct (Nat.leb_spec c0 i), (Nat.ltb_spec i c1),
    (Nat.ltb_spec i (c0 + (c1 - c0))); try lia; reflexivity.
Qed.

End BuilderFacts.

(** What a call of the builder that returns has built: a grid and a mask of
    shape [(N, N / 2 + 1)], with [N >= 2], and the inner square filled with
    [T_inner] and fixed. *)
Lemma build_problem_half_spec a T fixed h_y h_x l :
  build_problem_half a = Ok (T, fixed, h_y, h_x, l) ->
  let Ny := Z.to_nat (N a) in
  let Nx := Z.to_nat (N a / 2 + 1) in
  (2 <= N a)%Z /\ rect Ny Nx T /\ rect Ny Nx fixed /\
  Py.truediv_int (L a) (N a - 1) = Ok h_y /\
  exists j_low j_high i_right,
    inner_square a h_y h_x = Ok (j_low, j_high, i_right) /\
    forall j i, j < Ny -> i < Nx ->
      in_slice (Some j_low, Some (j_high + 1)%Z) Ny j
      && in_slice (Some 0%Z, Some (i_right + 1)%Z) Nx i = true ->
      Np.cell 0%float T j i = T_inner a /\ Np.cell false fixed j i = true.
Proof.
  intros H Ny Nx. unfold build_problem_half in H.
  bind_inv H. rename x into hy, E into Ehy.
  bind_inv H. rename x into hx, E into Ehx.
  bind_inv H. rename x into ny, E into Eny.
  bind_inv H. rename x into nx, E into Enx.
  bind_inv H. rename x into T1, E into ET1.
  bind_inv H. rename x into f1, E into Ef1.
  bind_inv H. rename x into T2, E into ET2.
  bind_inv H. rename x into f2, E into Ef2.
  bind_inv H. rename x into T3, E into ET3.
  bind_inv H. rename x into f3, E into Ef3.
  bind_inv H. destruct x as [[j_low j_high] i_right]. rename E into Esq.
  injection H as <- <- <- <- <-.
  unfold Np.dim in Eny, Enx.
  destruct (N a <? 0)%Z eqn:EN; [discriminate|]. injection Eny as <-.
  destruct (N a / 2 + 1 <? 0)%Z eqn:EN2; [discriminate|]. injection Enx as <-.
  fold Ny in ET1, Ef1. fold Nx in ET1, Ef1.
  destruct (rect_set_row Ny Nx _ _ _ _ ET1 (rect_full Ny Nx _)) as [R1 HNy].
  destruct (rect_set_row Ny Nx _ _ _ _ Ef1 (rect_full Ny Nx _)) as [Rf1 _].
  destruct (rect_set_row Ny Nx _ _ _ _ ET2 R1) as [R2 _].
  destruct (rect_set_row Ny Nx _ _ _ _ Ef2 Rf1) as [Rf2 _].
  pose proof (rect_set_column_from Ny Nx _ _ _ _ ET3 R2) as R3.
  pose proof (rect_set_column Ny Nx _ _ _ _ Ef3 Rf2) as Rf3.
  assert (HN : (2 <= N a)%Z).
  { unfold Py.truediv_int in Ehy.
    destruct (N a - 1 =? 0)%Z eqn:E1; [discriminate|]. lia. }
  split; [exact HN|].
  split; [apply rect_fill_block; exact R3|].
  split; [apply rect_fill_block; exact Rf3|].
  split; [exact Ehy|].
  exists j_low, j_high, i_right. split; [exact Esq|].
  intros j i Hj Hi Hin.
  rewrite (cell_fill_block 0%float Ny Nx) by assumption.
  rewrite (cell_fill_block false Ny Nx) by assumption.
  rewrite Hin. split; reflexivity.
Qed.

Lemma in_slice_from_zero (lo hi : Z) n k :
  (0 <= lo)%Z -> (lo <= Z.of_nat k <= hi)%Z -> k < n ->
  in_slice (Some lo, Some (hi + 1)%Z) n k = true.
Proof.
  intros Hlo Hk Hn. unfold in_slice, Py.slice_indices, Py.slice_bound.
  cbn [fst snd].
  replace (lo <? 0)%Z with false by (symmetry; lia).
  replace (hi + 1 <? 0)%Z with false by (symmetry; lia).
  apply andb_true_intro. split; [apply Nat.leb_le|apply Nat.ltb_lt]; lia.
Qed.

(** C7, as the code has it. In the output of a call of the builder that
    returns, the inner hot square is the block of rows
    [round((L/2 - L_inner/2) / h_y)] to [round((L/2 + L_inner/2) / h_y)]
    and columns [0] to [round((L_inner/2) / h_x)], each end rounded on its
    own to the nearest integer (ties to even) and the ranges read as Python
    slices; every cell of that block is assigned [T_inner] and marked
    fixed.  When the lower row is not negative these are the rows and
    columns between the ends, as far as the grid reaches. *)
Theorem inner_square_block :
  forall a T fixed h_y h_x l,
    build_problem_half a = Ok (T, fixed, h_y, h_x, l) ->
    let Ny := Z.to_nat (N a) in
    let Nx := Z.to_nat (N a / 2 + 1) in
    let half := (L a / 2)%float in
    let inner_half := (L_inner a / 2)%float in
    exists j_low j_high i_right,
      (q <- Py.truediv (half - inner_half) h_y ;; Py.round q) = Ok j_low /\
      (q <- Py.truediv (half + inner_half) h_y ;; Py.round q) = Ok j_high /\
      (q <- Py.truediv inner_half h_x ;; Py.round q) = Ok i_right /\
      (forall j i, j < Ny -> i < Nx ->
         in_slice (Some j_low, Some (j_high + 1)%Z) Ny j
         && in_slice (Some 0%Z, Some (i_right + 1)%Z) Nx i = true ->
         Np.cell 0%float T j i = T_inner a /\
         Np.cell false fixed j i = true) /\
      (forall j i, j < Ny -> i < Nx -> (0 <= j_low)%Z ->
         (j_low <= Z.of_nat j <= j_high)%Z -> (Z.of_nat i <= i_right)%Z ->
         Np.cell 0%float T j i = T_inner a /\
         Np.cell false fixed j i = true).
Proof.
  intros a T fixed h_y h_x l H Ny Nx half inner_half.
  destruct (build_problem_half_spec a T fixed h_y h_x l H)
    as (_ & _ & _ & _ & j_low & j_high & i_right & Hsq & Hblock).
  exists j_low, j_high, i_right.
  unfold inner_square in Hsq. fold half inner_half in Hsq.
  bind_inv Hsq. rename x into q_low, E into Eq_low.
  bind_inv Hsq. rename x into j_low', E into Ej_low.
  bind_inv Hsq. rename x into q_high, E into Eq_high.
  bind_inv Hsq. rename x into j_high', E into Ej_high.
  bind_inv Hsq. rename x into q_right, E into Eq_right.
  bind_inv Hsq. rename x into i_right', E into Ei_right.
  injection Hsq as -> -> ->.
  rewrite Eq_low, Eq_high, Eq_right. simpl bind.
  repeat split; try assumption.
  - apply Hblock; assumption.
  - apply Hblock; assumption.
  - apply Hblock; try assumption.
    apply andb_true_intro. split; apply in_slice_from_zero; lia.
  - apply Hblock; try assumption.
    apply andb_true_intro. split; apply in_slice_from_zero; lia.
Qed.

Lemma float_neq (x y : float) : PrimFloat.Leibniz.eqb x y = false -> x <> y.
Proof.
  intros H Heq. apply FloatAxioms.Leibniz.eqb_spec in Heq.
  rewrite Heq in H. discriminate.
Qed.

(** C7, as stated, fails. With seven rows one unit apart the mid-height row
    is row 3 and the half-extent [1.5] rounds to the offset 2, so the claimed
    block starts at row 1; the builder rounds [3 - 1.5] and [3 + 1.5] on
    their own, to rows 2 and 4, and leaves cell (1, 0) at the initial guess
    and not fixed. *)
Lemma inner_square_offset_counterexample :
  exists T fixed h_y h_x l,
    build_problem_half seven_rows = Ok (T, fixed, h_y, h_x, l) /\
    Py.round (L_inner seven_rows / 2 / h_y) = Ok 2%Z /\
    inner_square seven_rows h_y h_x = Ok (2, 4, 2)%Z /\
    Np.cell 0%float T (3 - 2) 0 <> T_inner seven_rows /\
    Np.cell false fixed (3 - 2) 0 = false.
Proof.
  do 5 eexists. split; [vm_compute; reflexivity|].
  split; [vm_compute; reflexivity|].
  split; [vm_compute; reflexivity|].
  split; [|vm_compute; reflexivity].
  apply float_neq. vm_compute. reflexivity.
Qed.

(** C8, where the code falls short of it. At resolution 1, the only one
    from 1 on with a half-domain of a single column, the vertical spacing
    [L / (Ny - 1)] divides by zero before the guard of the horizontal
    spacing is reached; and the spacing 0 that guard provides is itself
    a zero divisor when the inner square is rounded. *)
Theorem single_row_divides_by_zero :
  forall a : builder_args,
    (N (with_resolution 1 a) / 2 + 1 = 1)%Z /\
    build_problem_half (with_resolution 1 a) = Err ZeroDivisionError /\
    forall h_y : float, exists e, inner_square a h_y 0 = Err e.
Proof.
  intros a. split; [reflexivity|]. split; [reflexivity|].
  intros h_y. unfold inner_square.
  destruct (Py.truediv (L a / 2 - L_inner a / 2) h_y) as [q1|e1];
    [|eexists; reflexivity]; simpl bind.
  destruct (Py.round q1) as [j1|e1]; [|eexists; reflexivity]; simpl bind.
  destruct (Py.truediv (L a / 2 + L_inner a / 2) h_y) as [q2|e2];
    [|eexists; reflexivity]; simpl bind.
  destruct (Py.round q2) as [j2|e2]; [|eexists; reflexivity]; simpl bind.
  eexists. reflexivity.
Qed.

(** ** The convergence metric *)

Lemma abs_nonneg_or_nan (x : float) : nonneg_or_nan (PrimFloat.abs x).
Proof.
  unfold nonneg_or_nan, is_nan.
  rewrite eqb_spec, leb_spec, abs_spec.
  change (Prim2SF 0) with (S754_zero false).
  destruct (Prim2SF x) as [s|s| |s m e]; simpl; auto.
Qed.

Lemma zero_nonneg_or_nan : nonneg_or_nan 0%float.
Proof. right. reflexivity. Qed.

Lemma maximum_cases (a b : float) :
  Np.maximum a b = a \/ Np.maximum a b = b.
Proof. unfold Np.maximum. destruct (_ || _); auto. Qed.

Lemma fold_maximum_in (l : list float) (x : float) :
  In (fold_left Np.maximum l x) (x :: l).
Proof.
  revert x; induction l as [|y l IH]; intros x; simpl; [auto|].
  destruct (IH (Np.maximum x y)) as [H|H]; [|right; right; exact H].
  rewrite <- H.
  destruct (maximum_cases x y) as [E|E]; rewrite E;
    [left|right; left]; reflexivity.
Qed.

Lemma select_row_in {A : Type} (mrow : list bool) (row : list A) x :
  In x (Np.select_row mrow row) -> In x row.
Proof.
  revert row; induction mrow as [|m mrow IH]; intros [|y row]; simpl;
    try contradiction.
  destruct m; simpl; intros H; [destruct H|]; auto.
Qed.

Lemma select_rows_in {A : Type} (mask : grid bool) (g : grid A) x :
  In x (Np.select_rows mask g) -> exists row, In row g /\ In x row.
Proof.
  revert g; induction mask as [|mrow mask IH]; intros [|row g]; simpl;
    try contradiction.
  intros H. apply in_app_or in H. destruct H as [H|H].
  - exists row. split; [auto|]. apply (select_row_in mrow). exact H.
  - destruct (IH g H) as (row' & Hrow & Hx). exists row'. auto.
Qed.

Lemma max_change_of_nonneg var T T_new :
  nonneg_or_nan (max_change_of var T T_new).
Proof.
  unfold max_change_of. destruct (Np.any var); [|apply zero_nonneg_or_nan].
  set (changes := Np.select_rows var (Np.abs (Np.sub T_new T))).
  assert (Hall : forall x, In x changes -> nonneg_or_nan x).
  { intros x Hx. apply select_rows_in in Hx.
    destruct Hx as (row & Hrow & Hx). unfold Np.abs in Hrow.
    apply in_map_iff in Hrow. destruct Hrow as (row' & <- & _).
    apply in_map_iff in Hx. destruct Hx as (y & <- & _).
    apply abs_nonneg_or_nan. }
  destruct changes as [|c changes]; [apply zero_nonneg_or_nan|].
  simpl hd; simpl tl. apply Hall. apply fold_maximum_in.
Qed.

Lemma max_change_of_no_variable var T T_new :
  Np.any var = false -> max_change_of var T T_new = 0%float.
Proof. intros H. unfold max_change_of. rewrite H. reflexivity. Qed.

(** ** The passes of the loop *)

Lemma cell_in_range {A : Type} (d : A) Ny Nx (g : grid A) j i :
  rect Ny Nx g -> Np.cell d g j i <> d -> j < Ny /\ i < Nx.
Proof.
  intros Hg Hne. unfold Np.cell in Hne.
  destruct (Nat.lt_ge_cases j Ny) as [Hj|Hj].
  - split; [exact Hj|].
    destruct (Nat.lt_ge_cases i Nx) as [Hi|Hi]; [exact Hi|].
    exfalso. apply Hne. apply nth_overflow.
    rewrite (rect_row Ny Nx); assumption.
  - exfalso. apply Hne.
    rewrite (nth_overflow g) by (rewrite (rect_length _ _ _ Hg); exact Hj).
    destruct i; reflexivity.
Qed.

Section Passes.
Variables (Ny Nx : nat) (fixed var : grid bool).
Hypothesis Hfixed : rect Ny Nx fixed.
Hypothesis Hvar : rect Ny Nx var.
Hypothesis HNy : 1 <= Ny.
Hypothesis HNx : 2 <= Nx.

Lemma sweep_keeps_fixed T T_new mc :
  rect Ny Nx T -> sweep fixed var T = Ok (T_new, mc) ->
  rect Ny Nx T_new /\
  mc = max_change_of var T T_new /\
  (forall j i, j < Ny -> i < Nx ->
     Np.cell 0%float T_new j i = next_cell Ny Nx fixed var T j i) /\
  forall j i, Np.cell false fixed j i = true ->
    Np.cell 0%float T_new j i = Np.cell 0%float T j i.
Proof.
  intros HT Hsweep.
  destruct (sweep_spec Ny Nx fixed var T HT Hfixed Hvar HNy HNx)
    as (T' & Hsweep' & Hrect & Hnext).
  rewrite Hsweep in Hsweep'. injection Hsweep' as <- ->.
  repeat split; try assumption.
  - apply Hrect.
  - apply Hrect.
  - intros j i Hf.
    destruct (cell_in_range false Ny Nx fixed j i Hfixed) as [Hj Hi];
      [rewrite Hf; discriminate|].
    rewrite Hnext by assumption. unfold next_cell. rewrite Hf. reflexivity.
Qed.

(** Every pass of the loop over a well-shaped grid is reached and leaves
    a grid of the same shape that agrees with the first one on the fixed
    cells; its metric is zero when no cell is variable and is never
    negative. *)
Lemma after_pass_spec k :
  forall T, rect Ny Nx T ->
    exists T_k mc,
      after_pass k fixed var T = Ok (T_k, mc) /\
      rect Ny Nx T_k /\
      (forall j i, Np.cell false fixed j i = true ->
         Np.cell 0%float T_k j i = Np.cell 0%float T j i) /\
      (Np.any var = false -> mc = 0%float) /\
      nonneg_or_nan mc.
Proof.
  induction k as [|k IH]; intros T HT; simpl.
  - destruct (sweep_spec Ny Nx fixed var T HT Hfixed Hvar HNy HNx)
      as (T' & Hsweep & _).
    destruct (sweep_keeps_fixed T _ _ HT Hsweep) as (Hrect & _ & _ & Hkeep).
    exists T', (max_change_of var T T'). repeat split; try assumption.
    + apply Hrect.
    + apply Hrect.
    + apply max_change_of_no_variable.
    + apply max_change_of_nonneg.
  - destruct (sweep_spec Ny Nx fixed var T HT Hfixed Hvar HNy HNx)
      as (T' & Hsweep & _).
    destruct (sweep_keeps_fixed T _ _ HT Hsweep) as (Hrect & _ & _ & Hkeep).
    rewrite Hsweep. simpl bind.
    destruct (IH T' Hrect) as (T_k & mc & Hpass & Hrect' & Hkeep' & Hmc).
    exists T_k, mc. repeat split; try assumption; try apply Hrect'; try apply Hmc.
    intros j i Hf. rewrite Hkeep' by exact Hf. apply Hkeep. exact Hf.
Qed.

End Passes.

(** ** The loop *)

Lemma mod_ok a b : b <> 0%Z -> Py.mod_ a b = Ok (a mod b)%Z.
Proof.
  intros Hb. unfold Py.mod_.
  destruct (Z.eqb_spec b 0); [contradiction|reflexivity].
Qed.

Lemma export_returns Ny W (g : grid float) (L : float) :
  rect Ny W g -> 2 <= Ny -> 2 <= W ->
  exists table, export_structured_csv_full g L = Ok table.
Proof.
  intros Hg HNy HW. unfold export_structured_csv_full, Py.truediv_int.
  rewrite (ncols_rect Ny W g Hg) by lia.
  unfold Np.nrows. rewrite (rect_length _ _ _ Hg).
  destruct (Z.eqb_spec (Z.of_nat W - 1) 0); [lia|].
  destruct (Z.eqb_spec (Z.of_nat Ny - 1) 0); [lia|].
  simpl bind. eexists. reflexivity.
Qed.

Section Loop.
Variables (Ny Nx : nat) (fixed var : grid bool).
Variables (cfg : solver_config) (L : float).
Hypothesis Hfixed : rect Ny Nx fixed.
Hypothesis Hvar : rect Ny Nx var.
Hypothesis HNy : 2 <= Ny.
Hypothesis HNx : 2 <= Nx.
Hypothesis Hreport : report_every cfg <> 0%Z.
Hypothesis Hsnap : snap_every cfg <> 0%Z.

(** One pass through the body of the loop over a well-shaped grid
    returns: it sweeps, counts the epoch, and stops exactly when the metric
    is below [delta] or the epoch count has reached [max_iters], after the
    final export. *)
Lemma iteration_spec T epochs :
  rect Ny Nx T ->
  exists T_new mc events table,
    sweep fixed var T = Ok (T_new, mc) /\
    rect Ny Nx T_new /\
    export_structured_csv_full (mirror_full_from_half T_new) L = Ok table /\
    let stop := (mc <? delta cfg)%float
                || (max_iters cfg <=? epochs + 1)%Z in
    iteration cfg L fixed var T epochs
    = Ok (T_new, (epochs + 1)%Z, mc,
          if stop then events ++ [FinalSnapshot table] else events, stop).
Proof.
  intros HT.
  destruct (sweep_spec Ny Nx fixed var T HT Hfixed Hvar ltac:(lia) HNx)
    as (T_new & Hsweep & Hrect & _).
  assert (Hmirror : rect Ny (2 * Nx - 1) (mirror_full_from_half T_new))
    by (apply rect_mirror; [exact Hrect|lia]).
  destruct (export_returns Ny (2 * Nx - 1) _ L Hmirror HNy ltac:(lia))
    as [table Htable].
  exists T_new, (max_change_of var T T_new).
  exists ((if (((epochs + 1) mod report_every cfg) =? 0)%Z
           then [Report (epochs + 1) (max_change_of var T T_new)] else [])
          ++ (if (((epochs + 1) mod snap_every cfg) =? 0)%Z
              then [Snapshot (epochs + 1) table] else [])).
  exists table. repeat split; try assumption; try apply Hrect.
  unfold iteration. rewrite Hsweep. cbn [bind].
  rewrite !mod_ok by assumption. cbn [bind].
  rewrite Htable.
  destruct (((epochs + 1) mod snap_every cfg) =? 0)%Z; cbn [bind];
    destruct (_ || _); rewrite <- ?app_assoc; reflexivity.
Qed.

(** From any well-shaped grid and epoch count below [max_iters], the loop
    returns within the passes that remain: after pass [k + 1], the first
    whose metric is below [delta] or that reaches [max_iters]. *)
Lemma solver_loop_spec (n : nat) :
  forall T epochs trace,
    rect Ny Nx T ->
    (epochs < max_iters cfg)%Z ->
    (max_iters cfg - epochs <= Z.of_nat n)%Z ->
    exists k T_f mc trace' table,
      (forall fuel, n <= fuel ->
         solver_loop fuel cfg L fixed var T epochs trace
         = Some (Ok (T_f, (epochs + Z.of_nat k + 1)%Z, mc, trace'))) /\
      after_pass k fixed var T = Ok (T_f, mc) /\
      (epochs + Z.of_nat k + 1 <= max_iters cfg)%Z /\
      ((epochs + Z.of_nat k + 1 < max_iters cfg)%Z ->
       (mc <? delta cfg)%float = true) /\
      (forall k', k' < k ->
         exists T' mc', after_pass k' fixed var T = Ok (T', mc') /\
                        (mc' <? delta cfg)%float = false) /\
      export_structured_csv_full (mirror_full_from_half T_f) L = Ok table /\
      exists before, trace' = before ++ [FinalSnapshot table].
Proof.
  induction n as [|n IH]; intros T epochs trace HT Hlt Hn; [lia|].
  destruct (iteration_spec T epochs HT)
    as (T1 & mc1 & events & table & Hsweep & Hrect & Htable & Hiter).
  cbv zeta in Hiter.
  destruct ((mc1 <? delta cfg)%float || (max_iters cfg <=? epochs + 1)%Z)
    eqn:Hstop.
  - exists 0, T1, mc1, (trace ++ events ++ [FinalSnapshot table]), table.
    repeat split.
    + intros fuel Hfuel. destruct fuel as [|fuel]; [lia|].
      cbn [solver_loop]. rewrite Hiter.
      replace (epochs + Z.of_nat 0 + 1)%Z with (epochs + 1)%Z by lia.
      reflexivity.
    + exact Hsweep.
    + lia.
    + intros Hbelow. apply orb_prop in Hstop.
      destruct Hstop as [Hmc|Hcap]; [exact Hmc|lia].
    + intros k' Hk'. lia.
    + exact Htable.
    + exists (trace ++ events). rewrite app_assoc. reflexivity.
  - apply orb_false_elim in Hstop. destruct Hstop as [Hmc Hcap].
    destruct (IH T1 (epochs + 1)%Z (trace ++ events) Hrect
                ltac:(lia) ltac:(lia))
      as (k & T_f & mc & trace' & table' & Hloop & Hpass & Hle & Hbelow
          & Hearlier & Htable' & Hfinal).
    exists (S k), T_f, mc, trace', table'. repeat split.
    + intros fuel Hfuel. destruct fuel as [|fuel]; [lia|].
      cbn [solver_loop]. rewrite Hiter.
      rewrite (Hloop fuel) by lia.
      replace (epochs + 1 + Z.of_nat k + 1)%Z
        with (epochs + Z.of_nat (S k) + 1)%Z by lia.
      reflexivity.
    + cbn [after_pass]. rewrite Hsweep. exact Hpass.
    + lia.
    + intros H. apply Hbelow. lia.
    + intros k' Hk'. destruct k' as [|k'].
      * exists T1, mc1. split; [exact Hsweep|exact Hmc].
      * destruct (Hearlier k' ltac:(lia)) as (T' & mc' & Hpass' & Hmc').
        exists T', mc'. split; [|exact Hmc'].
        cbn [after_pass]. rewrite Hsweep. exact Hpass'.
    + exact Htable'.
    + exact Hfinal.
Qed.

End Loop.

Lemma iteration_inv cfg L fixed var T epochs T' epochs' mc events stop :
  iteration cfg L fixed var T epochs = Ok (T', epochs', mc, events, stop) ->
  sweep fixed var T = Ok (T', mc) /\ epochs' = (epochs + 1)%Z.
Proof.
  unfold iteration. intros H.
  bind_inv H. destruct x as [T1 mc1].
  bind_inv H. bind_inv H. bind_inv H.
  destruct (_ || _).
  - bind_inv H. injection H as <- <- <- _ _. split; [assumption|reflexivity].
  - injection H as <- <- <- _ _. split; [assumption|reflexivity].
Qed.

(** Whatever the loop returns is the outcome of one of its passes. *)
Lemma solver_loop_returns_a_pass cfg L fixed var T_f epochs_f mc trace' :
  forall fuel T epochs trace,
    solver_loop fuel cfg L fixed var T epochs trace
    = Some (Ok (T_f, epochs_f, mc, trace')) ->
    exists k, after_pass k fixed var T = Ok (T_f, mc) /\
              epochs_f = (epochs + Z.of_nat k + 1)%Z.
Proof.
  induction fuel as [|fuel IH]; intros T epochs trace H; [discriminate|].
  cbn [solver_loop] in H.
  destruct (iteration cfg L fixed var T epochs)
    as [[[[[T1 e1] mc1] events] stop]|e] eqn:Hiter; [|discriminate].
  apply iteration_inv in Hiter. destruct Hiter as [Hsweep ->].
  destruct stop.
  - injection H as <- <- <- _. exists 0. split; [exact Hsweep|lia].
  - destruct (IH _ _ _ H) as (k & Hpass & ->).
    exists (S k). split; [|lia].
    cbn [after_pass]. rewrite Hsweep. exact Hpass.
Qed.

(** C4. For every [max_iters >= 1] the solver, run on a well-shaped grid
    and mask with non-zero reporting and snapshot periods, returns after
    at most [max_iters] passes of its loop; it returns before the cap
    exactly when the metric of some pass before the cap is below [delta]
    (and then at the first such pass); on either way out it returns the
    grid, the epoch count and the metric of its last pass, after the final
    export.  Reaching the cap is no error. *)
Theorem solver_returns_within_max_iters :
  forall (Ny Nx : nat) (T : grid float) (fixed : grid bool)
         (h_y h_x L : float) (cfg : solver_config),
    rect Ny Nx T -> rect Ny Nx fixed -> 2 <= Ny -> 2 <= Nx ->
    report_every cfg <> 0%Z -> snap_every cfg <> 0%Z ->
    (1 <= max_iters cfg)%Z ->
    exists var k T_f mc trace table,
      variable_mask fixed = Ok var /\
      (forall fuel, Z.to_nat (max_iters cfg) <= fuel ->
         jacobi_laplace_half_with_snapshots fuel T fixed h_y h_x L cfg
         = Some (Ok (T_f, (Z.of_nat k + 1)%Z, mc, trace))) /\
      after_pass k fixed var T = Ok (T_f, mc) /\
      (Z.of_nat k + 1 <= max_iters cfg)%Z /\
      ((Z.of_nat k + 1 < max_iters cfg)%Z <->
       exists k' T' mc',
         (Z.of_nat k' + 1 < max_iters cfg)%Z /\
         after_pass k' fixed var T = Ok (T', mc') /\
         (mc' <? delta cfg)%float = true) /\
      (forall k', k' < k ->
         exists T' mc', after_pass k' fixed var T = Ok (T', mc') /\
                        (mc' <? delta cfg)%float = false) /\
      export_structured_csv_full (mirror_full_from_half T_f) L = Ok table /\
      exists before, trace = before ++ [FinalSnapshot table].
Proof.
  intros Ny Nx T fixed h_y h_x L cfg HT Hf HNy HNx Hreport Hsnap Hmax.
  destruct (variable_mask_spec Ny Nx fixed Hf ltac:(lia) ltac:(lia))
    as (var & Hvar & Hrect & _).
  destruct (solver_loop_spec Ny Nx fixed var cfg L Hf Hrect HNy HNx
              Hreport Hsnap (Z.to_nat (max_iters cfg)) T 0%Z [] HT
              ltac:(lia) ltac:(lia))
    as (k & T_f & mc & trace & table & Hloop & Hpass & Hle & Hbelow
        & Hearlier & Htable & Hfinal).
  exists var, k, T_f, mc, trace, table.
  split; [exact Hvar|]. split.
  { intros fuel Hfuel. unfold jacobi_laplace_half_with_snapshots.
    rewrite Hvar. apply Hloop. exact Hfuel. }
  split; [exact Hpass|]. split; [lia|]. split.
  { split.
    - intros Hlt. exists k, T_f, mc. repeat split; try assumption.
      apply Hbelow. lia.
    - intros (k' & T' & mc' & Hk' & Hpass' & Hmc').
      destruct (Nat.lt_ge_cases k' k) as [Hlt|Hge]; [|lia].
      destruct (Hearlier k' Hlt) as (T'' & mc'' & Hpass'' & Hmc'').
      rewrite Hpass' in Hpass''. injection Hpass'' as <- <-.
      rewrite Hmc' in Hmc''. discriminate. }
  split; [exact Hearlier|]. split; [exact Htable|exact Hfinal].
Qed.

(** C1. For every solve of a problem the builder made, under any [delta]
    and [max_iters], every cell that the fixed mask marks holds the value
    the builder gave it after every pass of the solver's loop (each of
    which is reached), and in the grid the solver returns. *)
Theorem fixed_cells_keep_builder_values :
  forall (a : builder_args) (T0 : grid float) (fixed : grid bool)
         (h_y h_x l : float),
    build_problem_half a = Ok (T0, fixed, h_y, h_x, l) ->
    exists var,
      variable_mask fixed = Ok var /\
      (forall k, exists T_k mc,
         after_pass k fixed var T0 = Ok (T_k, mc) /\
         forall j i, Np.cell false fixed j i = true ->
           Np.cell 0%float T_k j i = Np.cell 0%float T0 j i) /\
      (forall cfg fuel T_f epochs mc trace,
         jacobi_laplace_half_with_snapshots fuel T0 fixed h_y h_x l cfg
         = Some (Ok (T_f, epochs, mc, trace)) ->
         forall j i, Np.cell false fixed j i = true ->
           Np.cell 0%float T_f j i = Np.cell 0%float T0 j i).
Proof.
  intros a T0 fixed h_y h_x l Hbuild.
  destruct (build_problem_half_spec a T0 fixed h_y h_x l Hbuild)
    as (HN & HT & Hf & _).
  set (Ny := Z.to_nat (N a)) in *. set (Nx := Z.to_nat (N a / 2 + 1)) in *.
  assert (HNy : 2 <= Ny) by (subst Ny; lia).
  assert (HNx : 2 <= Nx).
  { subst Nx. pose proof (Z.div_le_mono 2 (N a) 2 ltac:(lia) HN) as Hd.
    change (2 / 2)%Z with 1%Z in Hd. lia. }
  destruct (variable_mask_spec Ny Nx fixed Hf ltac:(lia) ltac:(lia))
    as (var & Hvar & Hrect & _).
  exists var. split; [exact Hvar|]. split.
  - intros k.
    destruct (after_pass_spec Ny Nx fixed var Hf Hrect ltac:(lia) HNx k T0 HT)
      as (T_k & mc & Hpass & _ & Hkeep & _).
    exists T_k, mc. split; assumption.
  - intros cfg fuel T_f epochs mc trace Hrun j i Hfix.
    unfold jacobi_laplace_half_with_snapshots in Hrun. rewrite Hvar in Hrun.
    apply solver_loop_returns_a_pass in Hrun.
    destruct Hrun as (k & Hpass & _).
    destruct (after_pass_spec Ny Nx fixed var Hf Hrect ltac:(lia) HNx k T0 HT)
      as (T_k & mc' & Hpass' & _ & Hkeep & _).
    rewrite Hpass in Hpass'. injection Hpass' as <- <-.
    apply Hkeep. exact Hfix.
Qed.

(** ** Binary64 division

    The quotient of two finite binary64 numbers, as [SpecFloat] computes
    it, is the exact quotient rounded to nearest: within half a unit in the
    last place.  This is what bounds the mid-height row of the builder. *)

Section Binary64.
Local Open Scope R_scope.


Lemma B_pos e : 0 < B e.
Proof. apply powerRZ_lt. lra. Qed.

Lemma B_add a b : B (a + b) = B a * B b.
Proof. apply powerRZ_add. lra. Qed.

Lemma B_0 : B 0 = 1.
Proof. reflexivity. Qed.

Lemma B_1 : B 1 = 2.
Proof. unfold B. simpl. lra. Qed.

Lemma B_opp e : B (- e) = / B e.
Proof. apply powerRZ_neg'. Qed.

Lemma B_succ e : B (e + 1) = 2 * B e.
Proof. rewrite B_add, B_1. lra. Qed.

Lemma B_ge_1 e : (0 <= e)%Z -> 1 <= B e.
Proof.
  intros He. pattern e. apply natlike_ind; [rewrite B_0; lra| |exact He].
  intros k Hk IH. unfold Z.succ. rewrite B_succ. lra.
Qed.

Lemma B_le a b : (a <= b)%Z -> B a <= B b.
Proof.
  intros H. replace b with (a + (b - a))%Z by lia. rewrite B_add.
  pose proof (B_ge_1 (b - a) ltac:(lia)). pose proof (B_pos a). nra.
Qed.

Lemma B_lt a b : (a < b)%Z -> B a < B b.
Proof.
  intros H. replace b with (a + 1 + (b - a - 1))%Z by lia.
  rewrite B_add, B_succ.
  pose proof (B_ge_1 (b - a - 1) ltac:(lia)). pose proof (B_pos a). nra.
Qed.

Lemma B_IZR e : (0 <= e)%Z -> B e = IZR (2 ^ e).
Proof.
  intros He. pattern e. apply natlike_ind; [reflexivity| |exact He].
  intros k Hk IH. unfold Z.succ. rewrite B_succ, IH, Z.pow_add_r by lia.
  rewrite mult_IZR. change (2 ^ 1)%Z with 2%Z. lra.
Qed.

(** A mantissa of [d] binary digits lies in [2^(d-1), 2^d). *)
Lemma digits2_pos_bounds p :
  (2 ^ (Zpos (digits2_pos p) - 1) <= Zpos p < 2 ^ Zpos (digits2_pos p))%Z.
Proof.
  induction p as [p IH|p IH|]; simpl digits2_pos.
  - rewrite Pos2Z.inj_succ. unfold Z.succ.
    replace (Z.pos (digits2_pos p) + 1 - 1)%Z
      with (Z.pos (digits2_pos p) - 1 + 1)%Z by lia.
    rewrite !Z.pow_add_r by lia. change (2 ^ 1)%Z with 2%Z. lia.
  - rewrite Pos2Z.inj_succ. unfold Z.succ.
    replace (Z.pos (digits2_pos p) + 1 - 1)%Z
      with (Z.pos (digits2_pos p) - 1 + 1)%Z by lia.
    rewrite !Z.pow_add_r by lia. change (2 ^ 1)%Z with 2%Z. lia.
  - simpl. lia.
Qed.

Lemma digits_bounds p :
  B (Zpos (digits2_pos p) - 1) <= IZR (Zpos p) < B (Zpos (digits2_pos p)).
Proof.
  destruct (digits2_pos_bounds p) as [H1 H2].
  rewrite !B_IZR by lia. split; [apply IZR_le|apply IZR_lt]; assumption.
Qed.

Lemma Zdigits2_nonneg m : (0 <= m)%Z -> (0 <= Zdigits2 m)%Z.
Proof. destruct m; simpl; lia. Qed.

Lemma Zdigits2_upper m : (0 <= m)%Z -> IZR m < B (Zdigits2 m).
Proof.
  destruct m as [|p|p]; intros H; [simpl Zdigits2; rewrite B_0; lra| |lia]; simpl.
  apply digits_bounds.
Qed.

Lemma Zdigits2_lower m : (0 < m)%Z -> B (Zdigits2 m - 1) <= IZR m.
Proof.
  destruct m as [|p|p]; intros H; simpl; [lia| |lia].
  apply digits_bounds.
Qed.

Lemma Zdigits2_le m k : (0 <= m)%Z -> (0 <= k)%Z -> IZR m < B k -> (Zdigits2 m <= k)%Z.
Proof.
  intros Hm Hk Hlt. destruct (Z.eq_dec m 0) as [->|Hne]; [simpl; lia|].
  destruct (Z_le_gt_dec (Zdigits2 m) k) as [H|H]; [exact H|].
  pose proof (Zdigits2_lower m ltac:(lia)) as Hl.
  pose proof (B_le k (Zdigits2 m - 1) ltac:(lia)). lra.
Qed.

Lemma IZR_xO p : IZR (Zpos p~0) = 2 * IZR (Zpos p).
Proof. rewrite Pos2Z.inj_xO, mult_IZR. reflexivity. Qed.

Lemma IZR_xI p : IZR (Zpos p~1) = 2 * IZR (Zpos p) + 1.
Proof. rewrite Pos2Z.inj_xI, plus_IZR, mult_IZR. reflexivity. Qed.

(** One shift to the right halves the number and keeps track of where it
    lies between the truncated mantissa and the next one. *)
Lemma shr_1_spec mrs x : inb_rec mrs x -> inb_rec (shr_1 mrs) (x / 2).
Proof.
  destruct mrs as [m r s]. unfold inb_rec. cbn [shr_m].
  intros [Hm H].
  destruct m as [|[p|p|]|p]; [| | | |lia].
  - destruct r, s; cbn [shr_1 shr_m loc_of_shr_record orb inb] in *;
      (split; [lia|]); lra.
  - destruct r, s; cbn [shr_1 shr_m loc_of_shr_record orb inb] in *;
      rewrite IZR_xI in H; (split; [lia|]); lra.
  - destruct r, s; cbn [shr_1 shr_m loc_of_shr_record orb inb] in *;
      rewrite IZR_xO in H; (split; [lia|]); lra.
  - destruct r, s; cbn [shr_1 shr_m loc_of_shr_record orb inb] in *;
      (split; [lia|]); lra.
Qed.

Lemma B_m1 : B (-1) = / 2.
Proof. change (-1)%Z with (- (1))%Z. rewrite B_opp, B_1. reflexivity. Qed.

Lemma iter_shr_1_spec p : forall mrs x,
  inb_rec mrs x -> inb_rec (SpecFloat.iter_pos shr_1 p mrs) (x * B (Z.neg p)).
Proof.
  induction p as [p IH|p IH|]; intros mrs x H; cbn [SpecFloat.iter_pos].
  - apply shr_1_spec in H. apply IH in H. apply IH in H.
    replace (x * B (Z.neg p~1)) with (x / 2 * B (Z.neg p) * B (Z.neg p));
      [exact H|].
    replace (Z.neg p~1)%Z with (-1 + (Z.neg p + Z.neg p))%Z by lia.
    rewrite !B_add, B_m1. lra.
  - apply IH in H. apply IH in H.
    replace (x * B (Z.neg p~0)) with (x * B (Z.neg p) * B (Z.neg p));
      [exact H|].
    replace (Z.neg p~0)%Z with (Z.neg p + Z.neg p)%Z by lia.
    rewrite !B_add. lra.
  - apply shr_1_spec in H. change (Z.neg 1) with (-1)%Z. rewrite B_m1. exact H.
Qed.

Lemma inb_bounds m x l : inb m x l -> IZR m <= x < IZR m + 1.
Proof. destruct l as [|[| |]]; simpl; lra. Qed.

Lemma loc_of_shr_record_of_loc m l :
  loc_of_shr_record (shr_record_of_loc m l) = l.
Proof. destruct l as [|[| |]]; reflexivity. Qed.

Lemma shr_m_shr_record_of_loc m l : shr_m (shr_record_of_loc m l) = m.
Proof. destruct l as [|[| |]]; reflexivity. Qed.

(** Rounding to nearest, ties to even, moves by at most one half. *)
Lemma round_nearest_even_spec m x l :
  inb m x l ->
  (m <= round_nearest_even m l <= m + 1)%Z /\
  - / 2 <= IZR (round_nearest_even m l) - x <= / 2.
Proof.
  destruct l as [|[| |]]; simpl; intros H.
  - split; [lia|lra].
  - destruct (Z.even m); [split; [lia|lra]|].
    split; [lia|]. rewrite plus_IZR. lra.
  - split; [lia|lra].
  - split; [lia|]. rewrite plus_IZR. lra.
Qed.

(** The shift of [shr]. *)
Lemma shr_spec mrs e n x :
  inb_rec mrs x ->
  inb_rec (fst (shr mrs e n)) (x * B (- Z.max n 0)) /\
  snd (shr mrs e n) = (e + Z.max n 0)%Z.
Proof.
  intros H. unfold shr. destruct n as [|p|p]; cbn [fst snd].
  - change (Z.max 0 0) with 0%Z. change (- 0)%Z with 0%Z.
    rewrite B_0, Rmult_1_r, Z.add_0_r. auto.
  - replace (Z.max (Z.pos p) 0) with (Z.pos p) by lia.
    change (- Z.pos p)%Z with (Z.neg p).
    split; [apply iter_shr_1_spec; exact H|reflexivity].
  - replace (Z.max (Z.neg p) 0) with 0%Z by lia. change (- 0)%Z with 0%Z.
    rewrite B_0, Rmult_1_r, Z.add_0_r. auto.
Qed.

Lemma fexp_unfold e : fexp prec emax e = Z.max (e - 53) (-1074).
Proof. reflexivity. Qed.

(** [binary_round_aux] on a mantissa [mz], an exponent [ez] and the place
    of the exact value [x * 2^ez] beyond them: the rounded mantissa [m2] at
    the final exponent [e1] is within one half of the exact value scaled to
    it, and the result is that number, a zero when [m2] is, or an
    infinity. *)
Lemma bra_spec s mz ez lz x :
  (0 <= mz)%Z -> inb mz x lz ->
  exists m2 e1,
    (0 <= m2)%Z /\ e1 = Z.max ez (fexp prec emax (Zdigits2 mz + ez)) /\
    - / 2 <= IZR m2 - x * B (ez - e1) <= / 2 /\
    (binary_round_aux prec emax s mz ez lz = S754_zero s /\ m2 = 0%Z
     \/ binary_round_aux prec emax s mz ez lz = S754_infinity s
     \/ exists m e,
          binary_round_aux prec emax s mz ez lz = S754_finite s m e /\
          IZR (Zpos m) * B e = IZR m2 * B e1).
Proof.
  intros Hmz Hin.
  remember (binary_round_aux prec emax s mz ez lz) as r eqn:Er.
  unfold binary_round_aux in Er. unfold shr_fexp at 1 in Er.
  set (n1 := (fexp prec emax (Zdigits2 mz + ez) - ez)%Z) in *.
  assert (Hrec : inb_rec (shr_record_of_loc mz lz) x).
  { split; [rewrite shr_m_shr_record_of_loc; exact Hmz|].
    rewrite shr_m_shr_record_of_loc, loc_of_shr_record_of_loc. exact Hin. }
  destruct (shr_spec _ ez n1 x Hrec) as [[Hm1 Hin1] He1].
  destruct (shr (shr_record_of_loc mz lz) ez n1) as [mrs' e'].
  cbn [fst snd] in Hm1, Hin1, He1. subst e'.
  unfold shr_fexp in Er.
  change (shr_record_of_loc
            (round_nearest_even (shr_m mrs') (loc_of_shr_record mrs'))
            loc_Exact)
    with (Build_shr_record
            (round_nearest_even (shr_m mrs') (loc_of_shr_record mrs'))
            false false) in Er.
  set (m1 := shr_m mrs') in *. set (l1 := loc_of_shr_record mrs') in *.
  set (e1 := (ez + Z.max n1 0)%Z) in *.
  assert (He1 : e1 = Z.max ez (fexp prec emax (Zdigits2 mz + ez)))
    by (subst e1 n1; lia).
  assert (He1min : (-1074 <= e1)%Z)
    by (rewrite He1, fexp_unfold; lia).
  assert (He1dig : (Zdigits2 mz + ez - 53 <= e1)%Z)
    by (rewrite He1, fexp_unfold; lia).
  replace (- Z.max n1 0)%Z with (ez - e1)%Z in Hin1 by (subst e1; lia).
  destruct (round_nearest_even_spec m1 _ l1 Hin1) as [Hm2 Herr].
  set (m2 := round_nearest_even m1 l1) in *.
  (* the mantissa fits in 53 bits before rounding *)
  assert (Hm1lt : (m1 < 2 ^ 53)%Z).
  { apply lt_IZR. rewrite <- B_IZR by lia.
    pose proof (inb_bounds _ _ _ Hin1) as [Hlo _].
    pose proof (inb_bounds _ _ _ Hin) as [_ Hhi].
    pose proof (Zdigits2_upper mz Hmz) as Hd.
    pose proof (Zdigits2_nonneg mz Hmz) as Hdn.
    assert (Hx : x < B (Zdigits2 mz)).
    { rewrite B_IZR by lia. rewrite B_IZR in Hd by lia.
      apply lt_IZR in Hd.
      apply Rlt_le_trans with (IZR (mz + 1)); [rewrite plus_IZR; lra|].
      apply IZR_le. lia. }
    pose proof (B_pos (ez - e1)) as Hp.
    apply Rle_lt_trans with (x * B (ez - e1)); [exact Hlo|].
    apply Rlt_le_trans with (B (Zdigits2 mz) * B (ez - e1)); [nra|].
    rewrite <- B_add. apply B_le. lia. }
  exists m2, e1. split; [lia|]. split; [exact He1|]. split; [exact Herr|].
  destruct (Z.eq_dec m2 (2 ^ 53)) as [Heq|Hne].
  - (* the rounding carried into a 54th bit *)
    rewrite Heq in *. change (Zdigits2 (2 ^ 53)) with 54%Z in Er.
    replace (fexp prec emax (54 + e1) - e1)%Z with 1%Z in Er
      by (rewrite fexp_unfold; lia).
    change (2 ^ 53)%Z with 9007199254740992%Z in *.
    cbn [shr SpecFloat.iter_pos shr_1 shr_m] in Er.
    destruct (e1 + 1 <=? emax - prec)%Z; [|right; left; exact Er].
    right; right. eexists _, _. split; [exact Er|].
    rewrite B_succ. lra.
  - assert (Hm2lt : (m2 < 2 ^ 53)%Z) by lia.
    assert (Hdig : (Zdigits2 m2 <= 53)%Z).
    { apply Zdigits2_le; [lia|lia|]. rewrite B_IZR by lia.
      apply IZR_lt. exact Hm2lt. }
    assert (Hn3 : (fexp prec emax (Zdigits2 m2 + e1) - e1 <= 0)%Z)
      by (rewrite fexp_unfold; lia).
    destruct (fexp prec emax (Zdigits2 m2 + e1) - e1)%Z as [|p|p] eqn:En3;
      [| lia |]; cbn [shr shr_m] in Er.
    + destruct m2 as [|p2|p2]; [left; auto| |lia].
      destruct (e1 <=? emax - prec)%Z; [|right; left; exact Er].
      right; right. eexists _, _. split; [exact Er|reflexivity].
    + destruct m2 as [|p2|p2]; [left; auto| |lia].
      destruct (e1 <=? emax - prec)%Z; [|right; left; exact Er].
      right; right. eexists _, _. split; [exact Er|reflexivity].
Qed.

Lemma inb_shift m y l : inb 0 y l -> inb m (IZR m + y) l.
Proof. destruct l as [|[| |]]; simpl; lra. Qed.

(** The location that a division attaches to its remainder. *)
Lemma new_location_spec (nb k : Z) :
  (0 <= k < nb)%Z -> inb 0 (IZR k / IZR nb) (new_location nb k).
Proof.
  intros Hk.
  assert (Hnb : 0 < IZR nb) by (apply IZR_lt; lia).
  set (y := IZR k / IZR nb).
  assert (Hy : y * IZR nb = IZR k) by (unfold y; field; lra).
  unfold new_location.
  destruct (Z.even nb) eqn:Heven.
  - unfold new_location_even.
    destruct (Z.eqb_spec k 0) as [->|Hk0].
    + simpl. unfold y. field. lra.
    + destruct (Z.compare_spec (2 * k) nb) as [H|H|H]; simpl.
      * apply (f_equal IZR) in H. rewrite mult_IZR in H. nra.
      * apply IZR_lt in H. rewrite mult_IZR in H.
        assert (0 < IZR k) by (apply IZR_lt; lia). nra.
      * apply IZR_lt in H. rewrite mult_IZR in H.
        assert (IZR k < IZR nb) by (apply IZR_lt; lia). nra.
  - unfold new_location_odd.
    assert (Hodd : (2 * k <> nb)%Z).
    { intros <-. rewrite Z.even_mul in Heven. discriminate. }
    destruct (Z.eqb_spec k 0) as [->|Hk0].
    + simpl. unfold y. field. lra.
    + assert (0 < IZR k) by (apply IZR_lt; lia).
      assert (IZR k < IZR nb) by (apply IZR_lt; lia).
      destruct (Z.compare_spec (2 * k + 1) nb) as [H'|H'|H']; simpl.
      * assert (H2 : (2 * k < nb)%Z) by lia.
        apply IZR_lt in H2. rewrite mult_IZR in H2. nra.
      * assert (H2 : (2 * k < nb)%Z) by lia.
        apply IZR_lt in H2. rewrite mult_IZR in H2. nra.
      * assert (H2 : (nb < 2 * k)%Z) by lia.
        apply IZR_lt in H2. rewrite mult_IZR in H2. nra.
Qed.


Lemma F2R_pos m e : 0 < F2R m e.
Proof.
  unfold F2R. apply Rmult_lt_0_compat; [apply IZR_lt; lia|apply B_pos].
Qed.

(** The integer division at the heart of [SFdiv]: quotient mantissa,
    exponent and the place of the exact quotient. *)
Lemma div_core_spec mx ex my ey :
  let '(mz, ez, lz) := SFdiv_core_binary prec emax (Zpos mx) ex (Zpos my) ey in
  (0 <= mz)%Z /\
  inb mz (F2R mx ex / F2R my ey * B (- ez)) lz /\
  (ez <= fexp prec emax (Zdigits2 (Zpos mx) + ex - (Zdigits2 (Zpos my) + ey)))%Z.
Proof.
  unfold SFdiv_core_binary.
  set (ez := Z.min (fexp prec emax (Zdigits2 (Zpos mx) + ex
                                    - (Zdigits2 (Zpos my) + ey)))
                   (ex - ey)).
  set (s := (ex - ey - ez)%Z).
  assert (Hs : (0 <= s)%Z) by (subst s ez; lia).
  set (m' := match s with
             | Zpos _ => Z.shiftl (Zpos mx) s
             | Z0 => Zpos mx
             | Zneg _ => Z0
             end).
  assert (Hm' : m' = (Zpos mx * 2 ^ s)%Z).
  { subst m'. destruct s as [|p|p]; [simpl; lia| |lia].
    rewrite Z.shiftl_mul_pow2 by lia. reflexivity. }
  pose proof (Z_div_mod m' (Zpos my) ltac:(lia)) as Hdiv.
  destruct (Z.div_eucl m' (Zpos my)) as [q r].
  destruct Hdiv as [Hq Hr].
  assert (Hm'pos : (0 < m')%Z) by (rewrite Hm'; apply Z.mul_pos_pos; lia).
  assert (Hq0 : (0 <= q)%Z) by nia.
  split; [exact Hq0|]. split; [|subst ez; lia].
  replace (F2R mx ex / F2R my ey * B (- ez)) with (IZR q + IZR r / IZR (Zpos my)).
  { apply inb_shift. apply new_location_spec. lia. }
  unfold F2R.
  assert (Hmy : 0 < IZR (Zpos my)) by (apply IZR_lt; lia).
  pose proof (B_pos ey). pose proof (B_pos ez).
  replace ex with (ey + ez + s)%Z by (subst s; lia).
  rewrite !B_add, B_opp, (B_IZR s) by lia.
  apply (f_equal IZR) in Hq, Hm'.
  rewrite plus_IZR, mult_IZR in Hq. rewrite mult_IZR in Hm'.
  field_simplify; [|lra|lra]. rewrite <- Hm', Hq. field. lra.
Qed.

Lemma B_sub_mul a b : B (a - b) = B a / B b.
Proof.
  unfold Z.sub. rewrite B_add, B_opp. reflexivity.
Qed.

(** A quotient of finite numbers, correctly rounded: the result is within
    half a unit in the last place, and that unit is at most 2^-52 of the
    exact quotient unless it is the smallest one. *)
Lemma SFdiv_finite_spec sx mx ex sy my ey :
  let V := F2R mx ex / F2R my ey in
  let r := SFdiv prec emax (S754_finite sx mx ex) (S754_finite sy my ey) in
  r = S754_zero (xorb sx sy) \/ r = S754_infinity (xorb sx sy) \/
  exists m e,
    r = S754_finite (xorb sx sy) m e /\
    exists e1,
      - (B e1 / 2) <= F2R m e - V <= B e1 / 2 /\
      (B e1 <= V * B (-52) \/ B e1 <= B (-1074)).
Proof.
  intros V r. subst r. unfold SFdiv.
  pose proof (div_core_spec mx ex my ey) as Hcore.
  destruct (SFdiv_core_binary prec emax (Zpos mx) ex (Zpos my) ey)
    as [[mz ez] lz].
  destruct Hcore as (Hmz & Hin & Hez). fold V in Hin.
  destruct (bra_spec (xorb sx sy) mz ez lz _ Hmz Hin)
    as (m2 & e1 & Hm2 & He1 & Herr & Hres).
  destruct Hres as [[Hres _]|[Hres|(m & e & Hres & Hval)]];
    [left; exact Hres|right; left; exact Hres|].
  right; right. exists m, e. split; [exact Hres|]. exists e1.
  pose proof (B_pos e1) as Hpe1. pose proof (B_pos ez) as Hpez.
  pose proof (F2R_pos mx ex) as HX. pose proof (F2R_pos my ey) as HY.
  assert (HV : 0 < V) by (unfold V; apply Rdiv_lt_0_compat; assumption).
  split.
  - unfold F2R. rewrite Hval.
    replace (V * B (- ez) * B (ez - e1)) with (V / B e1) in Herr.
    2:{ rewrite B_sub_mul, B_opp. field. lra. }
    assert (Hmul : IZR m2 * B e1 - V = (IZR m2 - V / B e1) * B e1)
      by (field; lra).
    rewrite !Hmul. set (z := IZR m2 - V / B e1) in *. clearbody z.
    split; nra.
  - (* the unit in the last place *)
    set (D := (Zdigits2 (Zpos mx) + ex - (Zdigits2 (Zpos my) + ey))%Z) in *.
    assert (HVD : B (D - 1) <= V).
    { pose proof (digits_bounds mx) as [Hx1 _].
      pose proof (digits_bounds my) as [_ Hy2].
      pose proof (B_pos ex). pose proof (B_pos ey).
      pose proof (B_pos (Zpos (digits2_pos my))).
      pose proof (B_pos (Zpos (digits2_pos mx) - 1)).
      assert (0 < IZR (Zpos my)) by (apply IZR_lt; lia).
      assert (0 < IZR (Zpos mx)) by (apply IZR_lt; lia).
      unfold D. cbn [Zdigits2].
      replace (Z.pos (digits2_pos mx) + ex - (Z.pos (digits2_pos my) + ey) - 1)%Z
        with ((Z.pos (digits2_pos mx) - 1 + ex)
              - (Z.pos (digits2_pos my) + ey))%Z by lia.
      rewrite B_sub_mul, !B_add. unfold V, F2R.
      set (a := B (Z.pos (digits2_pos mx) - 1) * B ex).
      set (b := B (Z.pos (digits2_pos my)) * B ey).
      set (X := IZR (Zpos mx) * B ex). set (Y := IZR (Zpos my) * B ey).
      assert (0 < a) by (unfold a; nra).
      assert (0 < b) by (unfold b; nra).
      assert (0 < Y) by (unfold Y; nra).
      assert (a <= X) by (unfold a, X; nra).
      assert (Y <= b) by (unfold Y, b; nra).
      apply Rmult_le_reg_r with (b * Y); [nra|].
      replace (a / b * (b * Y)) with (a * Y) by (field; lra).
      replace (X / Y * (b * Y)) with (X * b) by (field; lra).
      nra. }
    assert (Hb1 : B ez <= V * B (-52) \/ B ez <= B (-1074)).
    { rewrite fexp_unfold in Hez.
      destruct (Z_le_gt_dec ez (D - 53)) as [H|H].
      - left. apply Rle_trans with (B (D - 1 + -52)); [apply B_le; lia|].
        rewrite B_add. pose proof (B_pos (-52)). nra.
      - right. apply B_le. lia. }
    rewrite He1, fexp_unfold.
    destruct (Z.max_spec ez (Z.max (Zdigits2 mz + ez - 53) (-1074)))
      as [[_ ->]|[_ ->]]; [|exact Hb1].
    destruct (Z.max_spec (Zdigits2 mz + ez - 53) (-1074))
      as [[_ ->]|[_ ->]]; [right; lra|].
    destruct (Z.eq_dec mz 0) as [->|Hne].
    + cbn [Zdigits2]. destruct Hb1 as [Hb1|Hb1]; [left|right];
        (eapply Rle_trans; [apply B_le|exact Hb1]); lia.
    + left. pose proof (Zdigits2_lower mz ltac:(lia)) as Hlow.
      pose proof (inb_bounds _ _ _ Hin) as [Hlo _].
      replace (Zdigits2 mz + ez - 53)%Z
        with ((Zdigits2 mz - 1) + (ez + -52))%Z by lia.
      rewrite !B_add. rewrite B_opp in Hlo.
      pose proof (B_pos (-52)). pose proof (B_pos (Zdigits2 mz - 1)).
      assert (Hx : B (Zdigits2 mz - 1) * B ez <= V).
      { apply Rle_trans with (V * / B ez * B ez); [nra|].
        rewrite Rmult_assoc, Rinv_l by lra. lra. }
      nra.
Qed.

Lemma round_half_even_nonneg m e : (0 <= Py.round_half_even m e)%Z.
Proof.
  unfold Py.round_half_even. destruct e as [|k|k].
  - simpl. lia.
  - apply Z.mul_nonneg_nonneg; [lia|]. apply Z.pow_nonneg. lia.
  - assert (Hd : (0 < Z.pow_pos 2 k)%Z)
      by (rewrite Z.pow_pos_fold; apply Z.pow_pos_nonneg; lia).
    pose proof (Z.div_pos (Z.pos m) (Z.pow_pos 2 k) ltac:(lia) Hd).
    destruct (_ ?= _)%Z; [destruct (Z.even _)| |]; lia.
Qed.

(** Python's rounding of a number that does not exceed the integer [n]
    does not exceed it either. *)
Lemma round_half_even_le m e n :
  F2R m e <= IZR n -> (Py.round_half_even m e <= n)%Z.
Proof.
  unfold F2R, Py.round_half_even. intros H. destruct e as [|k|k].
  - rewrite B_0, Rmult_1_r in H. apply le_IZR in H. simpl. lia.
  - rewrite B_IZR, <- mult_IZR in H by lia. apply le_IZR. exact H.
  - set (d := Z.pow_pos 2 k).
    assert (Hd : (0 < d)%Z)
      by (subst d; rewrite Z.pow_pos_fold; apply Z.pow_pos_nonneg; lia).
    assert (Hmn : (Z.pos m <= n * d)%Z).
    { apply le_IZR. rewrite mult_IZR.
      change (Z.neg k) with (- Z.pos k)%Z in H. rewrite B_opp in H.
      rewrite B_IZR in H by lia. fold (Z.pow_pos 2 k) in H.
      rewrite <- Z.pow_pos_fold in H. fold d in H.
      assert (0 < IZR d) by (apply IZR_lt; exact Hd).
      apply Rmult_le_reg_r with (/ IZR d);
        [apply Rinv_0_lt_compat; assumption|].
      rewrite Rmult_assoc, Rinv_r by lra. lra. }
    pose proof (Z_div_mod_eq_full (Z.pos m) d) as Hdm.
    pose proof (Z.mod_pos_bound (Z.pos m) d Hd) as Hr.
    set (q := (Z.pos m / d)%Z) in *. set (r := (Z.pos m mod d)%Z) in *.
    assert (Hq : (q <= n)%Z) by nia.
    destruct (Z.compare_spec (2 * r) d) as [Hc|Hc|Hc].
    + destruct (Z.even q); [exact Hq|]. nia.
    + exact Hq.
    + nia.
Qed.

Lemma B_m53 : B (-53) = B (-52) / 2.
Proof.
  replace (-53)%Z with (-52 + -1)%Z by lia. rewrite B_add, B_m1. lra.
Qed.

Lemma B_small_le_1 e : (e <= 0)%Z -> B e <= 1.
Proof. intros H. rewrite <- B_0. apply B_le. exact H. Qed.

(** [float(w)] for [0 < w < 2^63]: an infinity is ruled out by its size
    only later; otherwise a positive number within [2^-53] of [w]. *)
Lemma float_of_int_spec (w : Z) :
  (1 <= w < 2 ^ 63)%Z ->
  Prim2SF (Py.float_of_int w) = S754_infinity false \/
  exists m e,
    Prim2SF (Py.float_of_int w) = S754_finite false m e /\
    IZR w * (1 - B (-53)) <= F2R m e <= IZR w * (1 + B (-53)).
Proof.
  intros Hw. unfold Py.float_of_int.
  replace (w <? 0)%Z with false by (symmetry; lia).
  rewrite FloatAxioms.of_uint63_spec, Uint63.of_Z_spec.
  change Uint63.wB with (2 ^ 63)%Z. rewrite Z.mod_small by lia.
  destruct w as [|p|p]; [lia| |lia].
  unfold binary_normalize, binary_round.
  set (dp := Zpos (digits2_pos p)).
  assert (Hal : exists mz ez,
            shl_align p 0 (fexp prec emax (dp + 0)) = (mz, ez) /\
            F2R mz ez = IZR (Zpos p) /\
            (ez <= fexp prec emax dp)%Z).
  { unfold shl_align. rewrite Z.add_0_r, Z.sub_0_r.
    destruct (fexp prec emax dp) as [|d|d] eqn:Ef.
    - exists p, 0%Z. repeat split; [unfold F2R; rewrite B_0; lra|lia].
    - exists p, 0%Z. repeat split; [unfold F2R; rewrite B_0; lra|lia].
    - exists (shift_pos d p), (Z.neg d). repeat split; [|lia].
      unfold F2R. rewrite shift_pos_correct, mult_IZR, Z.pow_pos_fold.
      change (Z.neg d) with (- Z.pos d)%Z.
      rewrite B_opp, <- B_IZR by lia.
      pose proof (B_pos (Z.pos d)). field. lra. }
  destruct Hal as (mz & ez & -> & Hval & Hez).
  assert (Hin : inb (Zpos mz) (IZR (Zpos mz)) loc_Exact) by reflexivity.
  destruct (bra_spec false (Zpos mz) ez loc_Exact _ ltac:(lia) Hin)
    as (m2 & e1 & Hm2 & He1 & Herr & Hres).
  pose proof (B_pos e1) as Hpe1. pose proof (B_pos ez) as Hpez.
  pose proof (B_pos (-52)) as Hp52.
  assert (Hw1 : 1 <= IZR (Zpos p)) by (apply IZR_le; lia).
  assert (Hulp : B e1 <= IZR (Zpos p) * B (-52)).
  { assert (Hmin : B (-1074) <= IZR (Zpos p) * B (-52)).
    { apply Rle_trans with (B (-52)); [apply B_le; lia|nra]. }
    assert (Hbez : B ez <= IZR (Zpos p) * B (-52)).
    { rewrite fexp_unfold in Hez.
      destruct (Z_le_gt_dec ez (dp - 53)) as [H|H].
      - apply Rle_trans with (B (dp - 1 + -52)); [apply B_le; lia|].
        rewrite B_add. pose proof (proj1 (digits_bounds p)). fold dp in H0.
        nra.
      - apply Rle_trans with (B (-1074)); [apply B_le; lia|exact Hmin]. }
    rewrite He1, fexp_unfold.
    destruct (Z.max_spec ez (Z.max (Zdigits2 (Zpos mz) + ez - 53) (-1074)))
      as [[_ ->]|[_ ->]]; [|exact Hbez].
    destruct (Z.max_spec (Zdigits2 (Zpos mz) + ez - 53) (-1074))
      as [[_ ->]|[_ ->]]; [exact Hmin|].
    cbn [Zdigits2].
    replace (Z.pos (digits2_pos mz) + ez - 53)%Z
      with ((Z.pos (digits2_pos mz) - 1) + (ez + -52))%Z by lia.
    rewrite !B_add. pose proof (proj1 (digits_bounds mz)).
    pose proof (B_pos (Z.pos (digits2_pos mz) - 1)).
    unfold F2R in Hval.
    assert (B (Z.pos (digits2_pos mz) - 1) * B ez <= IZR (Zpos p)) by nra.
    nra. }
  assert (Hscaled : IZR (Zpos mz) * B (ez - e1) = IZR (Zpos p) / B e1).
  { rewrite B_sub_mul. unfold F2R in Hval. rewrite <- Hval. field. lra. }
  rewrite Hscaled in Herr.
  assert (Hclose : - (B e1 / 2) <= IZR m2 * B e1 - IZR (Zpos p) <= B e1 / 2).
  { assert (Hmul : IZR m2 * B e1 - IZR (Zpos p)
                   = (IZR m2 - IZR (Zpos p) / B e1) * B e1) by (field; lra).
    rewrite !Hmul. set (z := IZR m2 - IZR (Zpos p) / B e1) in *.
    clearbody z. split; nra. }
  destruct Hres as [[_ Hzero]|[Hres|(m & e & Hres & Hm)]].
  - exfalso. subst m2. rewrite Rmult_0_l in Hclose.
    assert (B (-52) <= 1) by (apply B_small_le_1; lia). nra.
  - left. exact Hres.
  - right. exists m, e. split; [exact Hres|].
    unfold F2R. rewrite Hm, B_m53. split; nra.
Qed.

(** A finite number divided by itself is one. *)
Lemma SFdiv_self s m e :
  SFdiv prec emax (S754_finite s m e) (S754_finite s m e)
  = S754_finite false 4503599627370496 (-52).
Proof.
  unfold SFdiv, SFdiv_core_binary.
  replace (Zdigits2 (Z.pos m) + e - (Zdigits2 (Z.pos m) + e))%Z with 0%Z
    by lia.
  replace (e - e)%Z with 0%Z by lia.
  change (Z.min (fexp prec emax 0) 0) with (-53)%Z.
  change (0 - -53)%Z with 53%Z. cbv iota.
  rewrite Z.shiftl_mul_pow2 by lia.
  pose proof (Z_div_mod (Z.pos m * 2 ^ 53) (Z.pos m) ltac:(lia)) as Hdiv.
  destruct (Z.div_eucl (Z.pos m * 2 ^ 53) (Z.pos m)) as [q r].
  destruct Hdiv as [Hq Hr].
  assert (Heq : q = (2 ^ 53)%Z /\ r = 0%Z).
  { apply (Z.div_mod_unique (Z.pos m)); [lia|lia|]. lia. }
  destruct Heq as [-> ->].
  replace (new_location (Z.pos m) 0) with loc_Exact
    by (unfold new_location, new_location_even, new_location_odd;
        destruct (Z.even (Z.pos m)); reflexivity).
  destruct s; reflexivity.
Qed.

(** The arithmetic behind the mid-height row: with every quotient within
    half a unit in the last place, the quotient of the half length by the
    spacing stays below the number [w >= 3] of row intervals. *)
Lemma mid_row_arith (t f w a b q d u E1 E2 E3 : R) :
  0 < t -> 3 <= w -> 0 < u <= / 1000 -> 0 < d <= / 8 ->
  w * (1 - u) <= f <= w * (1 + u) ->
  0 < a -> a - t / 2 <= E1 / 2 -> (E1 <= t / 2 * (2 * u) \/ E1 <= d) ->
  d <= b -> - (E2 / 2) <= b - t / f -> (E2 <= t / f * (2 * u) \/ E2 <= d) ->
  q - a / b <= E3 / 2 -> (E3 <= a / b * (2 * u) \/ E3 <= d) ->
  q <= w.
Proof.
  intros Ht Hw Hu Hd Hf Ha Hhalf HE1 Hdb Hhy HE2 Hq HE3.
  assert (Hfpos : 0 < f) by nra.
  assert (Hbpos : 0 < b) by lra.
  set (c := t / f) in *.
  assert (Hc : t = c * f) by (unfold c; field; lra).
  assert (Hcpos : 0 < c) by (unfold c; apply Rdiv_lt_0_compat; assumption).
  set (v := a / b) in *.
  assert (Hv : a = v * b) by (unfold v; field; lra).
  assert (Hvpos : 0 < v) by (unfold v; apply Rdiv_lt_0_compat; assumption).
  clearbody c v.
  assert (Hcb : c <= 3 / 2 * b) by (destruct HE2; nra).
  assert (Ht' : t <= 3 / 2 * b * (w * (1 + u))).
  { rewrite Hc. apply Rle_trans with (c * (w * (1 + u))); [nra|].
    apply Rmult_le_compat_r; [nra|exact Hcb]. }
  assert (Ha' : a <= t / 2 * (1 + u) + d / 2) by (destruct HE1; nra).
  assert (Hwb : 0 < w * b) by nra.
  assert (Hab : a <= 92 / 100 * (w * b)).
  { apply Rle_trans with (t / 2 * (1 + u) + b / 2); [lra|].
    apply Rle_trans
      with (3 / 2 * b * (w * (1 + u)) / 2 * (1 + u) + b / 2); [nra|].
    assert (Hu2 : (1 + u) * (1 + u) <= 1003 / 1000) by nra.
    assert (H1 : 3 / 2 * b * (w * (1 + u)) / 2 * (1 + u)
                 = 3 / 4 * (w * b) * ((1 + u) * (1 + u))) by (field; lra).
    rewrite H1. nra. }
  assert (Hvw : v <= 92 / 100 * w).
  { apply Rmult_le_reg_r with b; [exact Hbpos|]. rewrite <- Hv. lra. }
  destruct HE3; nra.
Qed.

Lemma F2R_two : F2R 4503599627370496 (-51) = 2.
Proof.
  unfold F2R. change (-51)%Z with (- (51))%Z.
  rewrite B_opp, (B_IZR 51) by lia.
  change (2 ^ 51)%Z with 2251799813685248%Z. lra.
Qed.

Lemma B_m52 : B (-52) = 2 * B (-53).
Proof. rewrite B_m53. lra. Qed.

Lemma B_m53_small : 0 < B (-53) <= / 1000.
Proof.
  split; [apply B_pos|].
  apply Rle_trans with (B (-10)); [apply B_le; lia|].
  change (-10)%Z with (- (10))%Z. rewrite B_opp, (B_IZR 10) by lia.
  change (2 ^ 10)%Z with 1024%Z. lra.
Qed.

Lemma B_min_small : 0 < B (-1074) <= / 8.
Proof.
  split; [apply B_pos|].
  apply Rle_trans with (B (-3)); [apply B_le; lia|].
  change (-3)%Z with (- (3))%Z. rewrite B_opp, (B_IZR 3) by lia.
  change (2 ^ 3)%Z with 8%Z. lra.
Qed.

(** A finite number of the format is at least the smallest positive one. *)
Lemma valid_finite_ge_min s m e :
  valid_binary (S754_finite s m e) = true -> B (-1074) <= F2R m e.
Proof.
  unfold valid_binary, bounded, canonical_mantissa. intros H.
  apply andb_prop in H. destruct H as [H _]. apply Z.eqb_eq in H.
  rewrite fexp_unfold in H.
  unfold F2R. pose proof (B_pos e).
  assert (1 <= IZR (Zpos m)) by (apply IZR_le; lia).
  apply Rle_trans with (B e); [apply B_le; lia|nra].
Qed.

Lemma round_zero_sign q s j :
  Prim2SF q = S754_zero s -> Py.round q = Ok j -> j = 0%Z.
Proof. unfold Py.round. intros ->. congruence. Qed.

(** The row that [round((L/2) / h_y)] names is a row of the grid. *)
Lemma mid_row_in_grid (Lf : float) (n j : Z) :
  (2 <= n < 2 ^ 63)%Z ->
  (Lf / Py.float_of_int n =? 0)%float = false ->
  Py.round (Lf / 2 / (Lf / Py.float_of_int n)) = Ok j ->
  (0 <= j <= n)%Z.
Proof.
  intros Hn Hnz Hround.
  destruct (Z.eq_dec n 2) as [->|Hn2].
  { (* two intervals: the spacing is the half length itself *)
    change (Py.float_of_int 2) with 2%float in *.
    set (h := (Lf / 2)%float) in *.
    unfold Py.round in Hround. rewrite FloatAxioms.div_spec in Hround.
    rewrite FloatAxioms.eqb_spec in Hnz. change (Prim2SF 0) with (S754_zero false) in Hnz.
    unfold SF64div in Hround.
    destruct (Prim2SF h) as [s|s| |s m e].
    - destruct s; discriminate.
    - destruct s; discriminate.
    - discriminate.
    - rewrite SFdiv_self in Hround. injection Hround as <-.
      vm_compute. split; discriminate. }
  assert (Hn3 : (3 <= n)%Z) by lia.
  pose proof (Prim2SF_valid (Lf / Py.float_of_int n)) as Hvalid.
  unfold Py.round in Hround.
  rewrite FloatAxioms.eqb_spec in Hnz. change (Prim2SF 0) with (S754_zero false) in Hnz.
  rewrite !FloatAxioms.div_spec in Hround. rewrite FloatAxioms.div_spec in Hnz, Hvalid.
  change (Prim2SF 2) with (S754_finite false 4503599627370496 (-51)) in Hround.
  unfold SF64div in *.
  destruct (float_of_int_spec n ltac:(lia)) as [Hf|(mf & ef & Hf & Hfb)];
    rewrite Hf in *.
  { (* an infinite divisor gives a spacing of zero *)
    destruct (Prim2SF Lf) as [s|s| |s m e]; simpl in Hround, Hnz;
      try discriminate; destruct s; discriminate. }
  destruct (Prim2SF Lf) as [s|s| |s m e].
  - destruct s; discriminate.
  - destruct s; discriminate.
  - discriminate.
  - pose proof (SFdiv_finite_spec s m e false 4503599627370496 (-51))
      as Hhalf.
    pose proof (SFdiv_finite_spec s m e false mf ef) as Hhy.
    cbv zeta in Hhalf, Hhy. rewrite F2R_two in Hhalf.
    set (half := SFdiv prec emax (S754_finite s m e)
                   (S754_finite false 4503599627370496 (-51))) in *.
    set (hy := SFdiv prec emax (S754_finite s m e)
                 (S754_finite false mf ef)) in *.
    destruct Hhy as [Hz|[Hi|(mb & eb & Hb & e2 & Hberr & Hbulp)]].
    + rewrite Hz in Hnz. destruct (xorb s false); discriminate.
    + rewrite Hi in Hround.
      destruct Hhalf as [Ha|[Ha|(ma & ea & Ha & _)]]; rewrite Ha in Hround;
        simpl in Hround; try discriminate; injection Hround as <-; lia.
    + rewrite Hb in Hround, Hvalid.
      apply valid_finite_ge_min in Hvalid.
      destruct Hhalf as [Ha|[Ha|(ma & ea & Ha & e1 & Haerr & Haulp)]];
        rewrite Ha in Hround.
      * simpl in Hround. injection Hround as <-. lia.
      * simpl in Hround. discriminate.
      * pose proof (SFdiv_finite_spec (xorb s false) ma ea
                      (xorb s false) mb eb) as Hq.
        cbv zeta in Hq.
        destruct Hq as [Hq|[Hq|(mq & eq & Hq & e3 & Hqerr & Hqulp)]];
          rewrite Hq in Hround.
        -- injection Hround as <-. lia.
        -- discriminate.
        -- replace (xorb (xorb s false) (xorb s false)) with false in Hround
             by (destruct s; reflexivity).
           injection Hround as <-.
           split; [apply round_half_even_nonneg|].
           apply round_half_even_le.
           pose proof B_m53_small. pose proof B_min_small.
           rewrite B_m52 in Haulp, Hbulp, Hqulp.
           apply (mid_row_arith (F2R m e) (F2R mf ef) (IZR n) (F2R ma ea)
                    (F2R mb eb) (F2R mq eq) (B (-1074)) (B (-53))
                    (B e1) (B e2) (B e3));
             try assumption; try lra.
           ++ apply F2R_pos.
           ++ apply IZR_le. exact Hn3.
           ++ apply F2R_pos.
Qed.

End Binary64.

(** ** An inner square of size zero *)

Lemma float_ext (x y : float) : Prim2SF x = Prim2SF y -> x = y.
Proof.
  intros H. rewrite <- (SF2Prim_Prim2SF x), <- (SF2Prim_Prim2SF y), H.
  reflexivity.
Qed.

Lemma sub_zero (x : float) : (x - 0)%float = x.
Proof.
  apply float_ext. rewrite sub_spec.
  change (Prim2SF 0) with (S754_zero false).
  destruct (Prim2SF x) as [[|]|s| |s m e]; reflexivity.
Qed.

Lemma round_div_add_zero (x y : float) :
  Py.round ((x + 0) / y) = Py.round (x / y).
Proof.
  unfold Py.round. rewrite !div_spec, add_spec.
  change (Prim2SF 0) with (S754_zero false).
  destruct (Prim2SF x) as [[|]|s| |s m e]; try reflexivity.
  destruct (Prim2SF y) as [[|]|[|]| |[|] m' e']; reflexivity.
Qed.

Lemma round_zero_div (y : float) j : Py.round (0 / y) = Ok j -> j = 0%Z.
Proof.
  unfold Py.round. rewrite div_spec.
  change (Prim2SF 0) with (S754_zero false).
  destruct (Prim2SF y) as [s|s| |s m e]; simpl; congruence.
Qed.

Lemma truediv_inv x y q :
  Py.truediv x y = Ok q -> q = (x / y)%float /\ (y =? 0)%float = false.
Proof.
  unfold Py.truediv. destruct (y =? 0)%float; [discriminate|].
  intros [= <-]. split; reflexivity.
Qed.

(** With [L_inner = 0] the three indices of the inner square are the
    mid-height row, twice, and column 0. *)
Lemma inner_square_of_size_zero a h_y h_x j_low j_high i_right :
  L_inner a = 0%float ->
  inner_square a h_y h_x = Ok (j_low, j_high, i_right) ->
  (h_y =? 0)%float = false /\
  Py.round (L a / 2 / h_y) = Ok j_low /\ j_high = j_low /\ i_right = 0%Z.
Proof.
  intros HL H. unfold inner_square in H. rewrite HL in H.
  change (0 / 2)%float with 0%float in H. rewrite sub_zero in H.
  bind_inv H. rename x into q_low, E into Eq_low.
  bind_inv H. rename x into j_low', E into Ej_low.
  bind_inv H. rename x into q_high, E into Eq_high.
  bind_inv H. rename x into j_high', E into Ej_high.
  bind_inv H. rename x into q_right, E into Eq_right.
  bind_inv H. rename x into i_right', E into Ei_right.
  injection H as -> -> ->.
  apply truediv_inv in Eq_low, Eq_high, Eq_right.
  destruct Eq_low as [-> Hnz], Eq_high as [-> _], Eq_right as [-> _].
  rewrite round_div_add_zero in Ej_high.
  split; [exact Hnz|]. split; [exact Ej_low|]. split; [congruence|].
  apply (round_zero_div h_x). exact Ei_right.
Qed.

Lemma in_slice_single (j : Z) n k :
  (0 <= j < Z.of_nat n)%Z ->
  in_slice (Some j, Some (j + 1)%Z) n k = true <-> k = Z.to_nat j.
Proof.
  intros Hj. unfold in_slice, Py.slice_indices, Py.slice_bound.
  cbn [fst snd].
  replace (j <? 0)%Z with false by (symmetry; lia).
  replace (j + 1 <? 0)%Z with false by (symmetry; lia).
  rewrite andb_true_iff, Nat.leb_le, Nat.ltb_lt. lia.
Qed.

(** C10. With [L_inner = 0] and [N >= 3] (and [N] within the range of
    the int-to-float conversion of the model, [N <= 2^63]), a call of the
    builder that returns has assigned [T_inner] to one cell and marked it
    fixed: the three indices are [(j, j, 0)] for the row
    [j = round((L/2) / h_y)], which is a row of the grid, so that the inner
    square is the single cell [(j, 0)]; that cell still holds [T_inner]
    after every pass of the solver's loop and in the grid the solver
    returns. *)
Theorem zero_size_square_fixes_one_cell :
  forall (a : builder_args) (T0 : grid float) (fixed : grid bool)
         (h_y h_x l : float),
    L_inner a = 0%float -> (3 <= N a <= 2 ^ 63)%Z ->
    build_problem_half a = Ok (T0, fixed, h_y, h_x, l) ->
    let Ny := Z.to_nat (N a) in
    let Nx := Z.to_nat (N a / 2 + 1) in
    exists j,
      Py.round (L a / 2 / h_y) = Ok j /\
      inner_square a h_y h_x = Ok (j, j, 0%Z) /\
      (0 <= j < N a)%Z /\
      (forall j' i', j' < Ny -> i' < Nx ->
         (in_slice (Some j, Some (j + 1)%Z) Ny j'
          && in_slice (Some 0%Z, Some (0 + 1)%Z) Nx i' = true
          <-> j' = Z.to_nat j /\ i' = 0)) /\
      Np.cell 0%float T0 (Z.to_nat j) 0 = T_inner a /\
      Np.cell false fixed (Z.to_nat j) 0 = true /\
      exists var,
        variable_mask fixed = Ok var /\
        (forall k, exists T_k mc,
           after_pass k fixed var T0 = Ok (T_k, mc) /\
           Np.cell 0%float T_k (Z.to_nat j) 0 = T_inner a) /\
        (forall cfg fuel T_f epochs mc trace,
           jacobi_laplace_half_with_snapshots fuel T0 fixed h_y h_x l cfg
           = Some (Ok (T_f, epochs, mc, trace)) ->
           Np.cell 0%float T_f (Z.to_nat j) 0 = T_inner a).
Proof.
  intros a T0 fixed h_y h_x l HL HN Hbuild Ny Nx.
  destruct (build_problem_half_spec a T0 fixed h_y h_x l Hbuild)
    as (_ & HT & Hf & Hhy & j_low & j_high & i_right & Hsq & Hblock).
  destruct (inner_square_of_size_zero a h_y h_x _ _ _ HL Hsq)
    as (Hnz & Hround & -> & ->).
  fold Ny Nx in HT, Hf, Hblock.
  assert (Hrange : (0 <= j_low < N a)%Z).
  { unfold Py.truediv_int in Hhy.
    destruct (N a - 1 =? 0)%Z; [discriminate|]. injection Hhy as <-.
    pose proof (mid_row_in_grid (L a) (N a - 1) j_low ltac:(lia) Hnz Hround).
    lia. }
  exists j_low. split; [exact Hround|]. split; [exact Hsq|].
  split; [exact Hrange|].
  assert (HNy : 3 <= Ny) by (subst Ny; lia).
  assert (HNx : 2 <= Nx).
  { subst Nx. pose proof (Z.div_le_mono 2 (N a) 2 ltac:(lia) ltac:(lia)) as Hd.
    change (2 / 2)%Z with 1%Z in Hd. lia. }
  assert (Hcols : forall i', in_slice (Some 0%Z, Some (0 + 1)%Z) Nx i' = true
                             <-> i' = 0).
  { intros i'. rewrite (in_slice_single 0 Nx i') by lia. reflexivity. }
  assert (Hrows : forall j', in_slice (Some j_low, Some (j_low + 1)%Z) Ny j'
                             = true <-> j' = Z.to_nat j_low).
  { intros j'. apply in_slice_single. subst Ny. lia. }
  destruct (Hblock (Z.to_nat j_low) 0 ltac:(subst Ny; lia) ltac:(lia))
    as [Hcell Hfix].
  { apply andb_true_intro. split; [apply Hrows|apply Hcols]; reflexivity. }
  split.
  { intros j' i' _ _. rewrite andb_true_iff, Hrows, Hcols. reflexivity. }
  split; [exact Hcell|]. split; [exact Hfix|].
  destruct (variable_mask_spec Ny Nx fixed Hf ltac:(lia) ltac:(lia))
    as (var & Hvar & Hrect & _).
  exists var. split; [exact Hvar|]. split.
  - intros k.
    destruct (after_pass_spec Ny Nx fixed var Hf Hrect ltac:(lia) HNx k T0 HT)
      as (T_k & mc & Hpass & _ & Hkeep & _).
    exists T_k, mc. split; [exact Hpass|].
    rewrite Hkeep by exact Hfix. exact Hcell.
  - intros cfg fuel T_f epochs mc trace Hrun.
    unfold jacobi_laplace_half_with_snapshots in Hrun. rewrite Hvar in Hrun.
    apply solver_loop_returns_a_pass in Hrun.
    destruct Hrun as (k & Hpass & _).
    destruct (after_pass_spec Ny Nx fixed var Hf Hrect ltac:(lia) HNx k T0 HT)
      as (T_k & mc' & Hpass' & _ & Hkeep & _).
    rewrite Hpass in Hpass'. injection Hpass' as <- <-.
    rewrite Hkeep by exact Hfix. exact Hcell.
Qed.

(** The metric can be a NaN: when the initial guess is infinite, the first
    average is infinite too and its difference to the guess is not a
    number. *)
Lemma max_change_can_be_nan :
  exists T fixed h_y h_x l var T_new mc,
    build_problem_half unbounded_guess = Ok (T, fixed, h_y, h_x, l) /\
    variable_mask fixed = Ok var /\
    sweep fixed var T = Ok (T_new, mc) /\
    is_nan mc = true /\ (0 <=? mc)%float = false.
Proof.
  do 8 eexists. split; [vm_compute; reflexivity|].
  split; [vm_compute; reflexivity|].
  split; [vm_compute; reflexivity|].
  split; vm_compute; reflexivity.
Qed.

(** ** The builder, step by step *)

Lemma length_linspace start stop num :
  length (Np.linspace start stop num) = num.
Proof. unfold Np.linspace. rewrite length_map, length_seq. reflexivity. Qed.

Lemma length_wall_profile a : length (wall_profile a) = Z.to_nat (N a).
Proof.
  unfold wall_profile, side_profile. rewrite length_map.
  apply length_linspace.
Qed.

Lemma half_width_ge_2 (n : Z) : (2 <= n)%Z -> (2 <= n / 2 + 1)%Z.
Proof.
  intros Hn. pose proof (Z.div_le_mono 2 n 2 ltac:(lia) Hn) as Hd.
  change (2 / 2)%Z with 1%Z in Hd. lia.
Qed.

(** From two rows on, the builder runs up to the rounding of the inner
    square: it has then built a grid and a mask of shape [(N, N / 2 + 1)]
    that hold the boundary values and mark the boundary, and what remains
    is to round the three indices and fill the block. *)
Lemma build_problem_half_runs a :
  (2 <= N a)%Z ->
  let Ny := Z.to_nat (N a) in
  let Nx := Z.to_nat (N a / 2 + 1) in
  exists T3 f3,
    rect Ny Nx T3 /\ rect Ny Nx f3 /\
    (forall j i, j < Ny -> i < Nx ->
       Np.cell 0%float T3 j i = boundary_cell a j i) /\
    (forall j i, j < Ny -> i < Nx ->
       Np.cell false f3 j i = on_boundary Ny Nx j i) /\
    build_problem_half a
    = ('(j_low, j_high, i_right)
         <- inner_square a (spacing_y a) (spacing_x a) ;;
       let rows := (Some j_low, Some (j_high + 1)%Z) in
       let cols := (Some 0%Z, Some (i_right + 1)%Z) in
       Ok (Np.fill_block rows cols (T_inner a) T3,
           Np.fill_block rows cols true f3,
           spacing_y a, spacing_x a, L a)).
Proof.
  intros HN Ny Nx.
  pose proof (half_width_ge_2 _ HN) as HN2.
  assert (HNy : 2 <= Ny) by (subst Ny; lia).
  assert (HNx : 2 <= Nx) by (subst Nx; lia).
  unfold build_problem_half, Py.truediv_int.
  replace (N a - 1 =? 0)%Z with false by (symmetry; lia).
  replace (1 <? N a / 2 + 1)%Z with true by (symmetry; lia).
  replace (N a / 2 + 1 - 1 =? 0)%Z with false by (symmetry; lia).
  cbn [bind]. unfold Np.dim.
  replace (N a <? 0)%Z with false by (symmetry; lia).
  replace (N a / 2 + 1 <? 0)%Z with false by (symmetry; lia).
  cbn [bind]. fold Ny Nx.
  replace (N a / 2 + 1 - 1)%Z with (N a / 2)%Z by lia.
  fold (spacing_y a) (spacing_x a).
  set (T0 := Np.full Ny Nx (init_guess a)).
  set (f0 := Np.full Ny Nx false).
  assert (RT0 : rect Ny Nx T0) by apply rect_full.
  assert (Rf0 : rect Ny Nx f0) by apply rect_full.
  (* bottom row *)
  unfold Np.set_row at 1. unfold Np.nrows. rewrite (rect_length _ _ _ RT0).
  rewrite index_ok by lia. cbn [bind]. change (Z.to_nat 0) with 0.
  set (T1 := Np.update_range 0 1 _ T0).
  assert (RT1 : rect Ny Nx T1)
    by (apply rect_update_rows; [intros; apply length_map|exact RT0]).
  unfold Np.set_row at 1. unfold Np.nrows. rewrite (rect_length _ _ _ Rf0).
  rewrite index_ok by lia. cbn [bind]. change (Z.to_nat 0) with 0.
  set (f1 := Np.update_range 0 1 _ f0).
  assert (Rf1 : rect Ny Nx f1)
    by (apply rect_update_rows; [intros; apply length_map|exact Rf0]).
  (* top row *)
  unfold Np.set_row at 1. unfold Np.nrows. rewrite (rect_length _ _ _ RT1).
  rewrite index_last by lia. cbn [bind].
  set (T2 := Np.update_range (Ny - 1) 1 _ T1).
  assert (RT2 : rect Ny Nx T2)
    by (apply rect_update_rows; [intros; apply length_map|exact RT1]).
  unfold Np.set_row at 1. unfold Np.nrows. rewrite (rect_length _ _ _ Rf1).
  rewrite index_last by lia. cbn [bind].
  set (f2 := Np.update_range (Ny - 1) 1 _ f1).
  assert (Rf2 : rect Ny Nx f2)
    by (apply rect_update_rows; [intros; apply length_map|exact Rf1]).
  (* outer wall *)
  change (side_profile a _ _) with (wall_profile a).
  unfold Np.set_column_from. rewrite (ncols_rect Ny Nx T2 RT2) by lia.
  rewrite index_last by lia. cbn [bind].
  unfold Np.nrows. rewrite (rect_length _ _ _ RT2), length_wall_profile.
  fold Ny. rewrite Nat.eqb_refl. cbn [bind].
  set (T3 := Np.overlay _ 0 (wall_profile a) T2).
  assert (RT3 : rect Ny Nx T3)
    by (apply rect_overlay_rows; [intros; apply length_update_range|exact RT2]).
  unfold Np.set_column. rewrite (ncols_rect Ny Nx f2 Rf2) by lia.
  rewrite index_last by lia. cbn [bind].
  set (f3 := map _ f2).
  assert (Rf3 : rect Ny Nx f3)
    by (apply rect_map_rows; [intros; apply length_update_range|exact Rf2]).
  exists T3, f3. split; [exact RT3|]. split; [exact Rf3|].
  split; [|split; [|reflexivity]].
  - intros j i Hj Hi. subst T3.
    rewrite (cell_set_column_from 0%float Ny Nx)
      by (assumption || apply length_wall_profile).
    unfold boundary_cell. fold Ny Nx.
    destruct (i =? Nx - 1); [reflexivity|].
    subst T2. rewrite (cell_set_row 0%float Ny Nx) by assumption.
    destruct (j =? Ny - 1); [reflexivity|].
    subst T1. rewrite (cell_set_row 0%float Ny Nx) by assumption.
    destruct (Nat.eqb_spec j 0) as [Hj0|Hj0]; [reflexivity|].
    subst T0. unfold Np.cell, Np.full.
    rewrite (nth_indep _ [] (repeat (init_guess a) Nx))
      by (rewrite repeat_length; exact Hj).
    rewrite nth_repeat. rewrite (nth_indep _ 0%float (init_guess a))
      by (rewrite repeat_length; exact Hi).
    apply nth_repeat.
  - intros j i Hj Hi. subst f3.
    rewrite (cell_set_column false Ny Nx) by assumption.
    subst f2. rewrite (cell_set_row false Ny Nx) by assumption.
    subst f1. rewrite (cell_set_row false Ny Nx) by assumption.
    subst f0. unfold on_boundary, Np.cell, Np.full.
    replace (nth i (nth j (repeat (repeat false Nx) Ny) []) false) with false.
    2:{ rewrite (nth_indep _ [] (repeat false Nx))
          by (rewrite repeat_length; exact Hj).
        rewrite !nth_repeat. reflexivity. }
    destruct (i =? Nx - 1), (j =? Ny - 1), (j =? 0); reflexivity.
Qed.

(** What a call of the builder that returns has built, cell by cell: the
    block of the inner square over the boundary values. *)
Lemma build_problem_half_inv a T fixed h_y h_x l :
  build_problem_half a = Ok (T, fixed, h_y, h_x, l) ->
  let Ny := Z.to_nat (N a) in
  let Nx := Z.to_nat (N a / 2 + 1) in
  (2 <= N a)%Z /\ h_y = spacing_y a /\ h_x = spacing_x a /\ l = L a /\
  rect Ny Nx T /\ rect Ny Nx fixed /\
  exists j_low j_high i_right,
    inner_square a h_y h_x = Ok (j_low, j_high, i_right) /\
    let rows := (Some j_low, Some (j_high + 1)%Z) in
    let cols := (Some 0%Z, Some (i_right + 1)%Z) in
    (forall j i, j < Ny -> i < Nx ->
       Np.cell 0%float T j i
       = if in_block rows cols Ny Nx j i then T_inner a
         else boundary_cell a j i) /\
    (forall j i, j < Ny -> i < Nx ->
       Np.cell false fixed j i
       = in_block rows cols Ny Nx j i || on_boundary Ny Nx j i).
Proof.
  intros H Ny Nx.
  assert (HN : (2 <= N a)%Z)
    by (destruct (build_problem_half_spec a T fixed h_y h_x l H) as [HN _];
        exact HN).
  destruct (build_problem_half_runs a HN)
    as (T3 & f3 & RT3 & Rf3 & HT3 & Hf3 & Hrun).
  fold Ny Nx in RT3, Rf3, HT3, Hf3.
  rewrite Hrun in H. bind_inv H. destruct x as [[j_low j_high] i_right].
  cbv zeta in H. injection H as <- <- <- <- <-.
  split; [exact HN|]. do 3 (split; [reflexivity|]).
  split; [apply rect_fill_block; exact RT3|].
  split; [apply rect_fill_block; exact Rf3|].
  exists j_low, j_high, i_right. split; [exact E|]. cbv zeta. split.
  - intros j i Hj Hi.
    rewrite (cell_fill_block 0%float Ny Nx) by assumption.
    unfold in_block. rewrite HT3 by assumption. reflexivity.
  - intros j i Hj Hi.
    rewrite (cell_fill_block false Ny Nx) by assumption.
    unfold in_block. rewrite Hf3 by assumption.
    destruct (_ && _); reflexivity.
Qed.

Lemma bind_err_inv {A B : Type} (r : result A) (k : A -> result B) e :
  bind r k = Err e -> r = Err e \/ exists a, r = Ok a /\ k a = Err e.
Proof. destruct r as [a|e']; cbn [bind]; [eauto|intros [= <-]; auto]. Qed.

Lemma truediv_error x y e : Py.truediv x y = Err e -> e = ZeroDivisionError.
Proof. unfold Py.truediv. destruct (y =? 0)%float; congruence. Qed.

Lemma round_error x e :
  Py.round x = Err e -> e = ValueError \/ e = OverflowError.
Proof. unfold Py.round. destruct (Prim2SF x); intros [= <-]; auto. Qed.

(** The rounding of the inner square raises on a zero spacing, on a
    quotient that is not a number and on an infinite one, and on nothing
    else. *)
Lemma inner_square_errors a h_y h_x e :
  inner_square a h_y h_x = Err e ->
  e = ZeroDivisionError \/ e = ValueError \/ e = OverflowError.
Proof.
  unfold inner_square. intros H.
  repeat (apply bind_err_inv in H;
          destruct H as [H|(? & _ & H)];
          [first [apply truediv_error in H; auto
                 |apply round_error in H; tauto]|]).
  discriminate.
Qed.

(** X1. A call of the builder that returns was made with [N >= 2]; its grid
    and its mask have [N] rows and [N / 2 + 1] columns, the spacings it
    returns are [h_y = L / (N - 1)] and [h_x = (L / 2) / (N / 2)], and the
    length it returns is [L] itself. *)
Theorem builder_output_shape :
  forall (a : builder_args) (T : grid float) (fixed : grid bool)
         (h_y h_x l : float),
    build_problem_half a = Ok (T, fixed, h_y, h_x, l) ->
    (2 <= N a)%Z /\
    rect (Z.to_nat (N a)) (Z.to_nat (N a / 2 + 1)) T /\
    rect (Z.to_nat (N a)) (Z.to_nat (N a / 2 + 1)) fixed /\
    h_y = (L a / Py.float_of_int (N a - 1))%float /\
    h_x = (L a / 2 / Py.float_of_int (N a / 2))%float /\
    l = L a.
Proof.
  intros a T fixed h_y h_x l H.
  destruct (build_problem_half_inv a T fixed h_y h_x l H)
    as (HN & Hy & Hx & Hl & RT & Rf & _).
  repeat split; assumption || apply RT || apply Rf.
Qed.

(** X2. Below resolution 2 the builder always raises: [ValueError] for a
    negative [N] (the shape of the new array), [IndexError] for [N = 0]
    (the bottom row of an array without rows), [ZeroDivisionError] for
    [N = 1] (the vertical spacing).  Stated for [N > -2^63], where the
    conversion of [N - 1] to a float is the one of the embedding. *)
Theorem builder_rejects_resolutions_below_two :
  forall a : builder_args,
    (- 2 ^ 63 < N a < 2)%Z ->
    build_problem_half a
    = Err (if (N a <? 0)%Z then ValueError
           else if (N a =? 0)%Z then IndexError
           else ZeroDivisionError).
Proof.
  intros a HN. unfold build_problem_half, Py.truediv_int.
  destruct (Z.ltb_spec (N a) 0) as [Hneg|Hnn].
  - replace (N a - 1 =? 0)%Z with false by (symmetry; lia).
    assert (N a / 2 < 0)%Z by (apply Z.div_lt_upper_bound; lia).
    replace (1 <? N a / 2 + 1)%Z with false by (symmetry; lia).
    cbn [bind]. unfold Np.dim.
    replace (N a <? 0)%Z with true by (symmetry; lia). reflexivity.
  - destruct (Z.eqb_spec (N a) 0) as [H0|H0].
    + rewrite H0. reflexivity.
    + replace (N a) with 1%Z by lia. reflexivity.
Qed.

(** From resolution 2 on, the embedding of the builder returns exactly
    when the rounding of the inner square does, and raises what it
    raises. *)
Lemma build_problem_half_outcome a :
  (2 <= N a)%Z ->
  (forall e, inner_square a (spacing_y a) (spacing_x a) = Err e ->
             build_problem_half a = Err e) /\
  (forall idx, inner_square a (spacing_y a) (spacing_x a) = Ok idx ->
               exists r, build_problem_half a = Ok r).
Proof.
  intros HN.
  destruct (build_problem_half_runs a HN) as (T3 & f3 & _ & _ & _ & _ & ->).
  split.
  - intros e ->. reflexivity.
  - intros [[j_low j_high] i_right] ->. cbn [bind]. eexists. reflexivity.
Qed.

(** X3. From resolution 2 on (and up to [2^63], the range of the
    conversion of integers to floats) the builder returns only if the
    three indices of the inner square can be rounded.  The rounding raises
    nothing but a [ZeroDivisionError], a [ValueError] or an
    [OverflowError], and when it raises the builder raises too: nothing
    catches the exception.  Which exception the builder raises is left
    open, since the arrays are allocated before the rounding, and an
    allocation that NumPy refuses comes first.  Whether the builder returns
    depends on [N], [L] and [L_inner] only: no bath height, bath fraction
    or temperature is ever rejected. *)
Theorem builder_returns_only_if_it_rounds :
  forall a : builder_args,
    (2 <= N a <= 2 ^ 63)%Z ->
    let h_y := (L a / Py.float_of_int (N a - 1))%float in
    let h_x := (L a / 2 / Py.float_of_int (N a / 2))%float in
    (forall T fixed h_y' h_x' l,
       build_problem_half a = Ok (T, fixed, h_y', h_x', l) ->
       exists j_low j_high i_right,
         inner_square a h_y h_x = Ok (j_low, j_high, i_right)) /\
    (forall e, inner_square a h_y h_x = Err e ->
               (e = ZeroDivisionError \/ e = ValueError \/ e = OverflowError)
               /\ exists e', build_problem_half a = Err e') /\
    (forall a', N a' = N a -> L a' = L a -> L_inner a' = L_inner a ->
                ((exists r, build_problem_half a' = Ok r)
                 <-> exists r, build_problem_half a = Ok r)).
Proof.
  intros a [HN _] h_y h_x.
  change h_y with (spacing_y a). change h_x with (spacing_x a).
  split; [|split].
  - intros T fixed h_y' h_x' l H.
    destruct (build_problem_half_inv a T fixed h_y' h_x' l H)
      as (_ & -> & -> & _ & _ & _ & j_low & j_high & i_right & Hsq & _).
    exists j_low, j_high, i_right. exact Hsq.
  - intros e He. split; [exact (inner_square_errors _ _ _ _ He)|].
    exists e. apply (build_problem_half_outcome a HN). exact He.
  - intros a' EN EL ELi.
    assert (Hsame : inner_square a' (spacing_y a') (spacing_x a')
                    = inner_square a (spacing_y a) (spacing_x a)).
    { unfold inner_square, spacing_y, spacing_x. rewrite EN, EL, ELi.
      reflexivity. }
    assert (Hiff : forall b, (2 <= N b)%Z ->
              ((exists r, build_problem_half b = Ok r)
               <-> exists idx,
                     inner_square b (spacing_y b) (spacing_x b) = Ok idx)).
    { intros b Hb. destruct (build_problem_half_outcome b Hb) as [Herr Hok].
      split.
      - intros [r Hr].
        destruct (inner_square b (spacing_y b) (spacing_x b)) as [idx|e];
          [exists idx; reflexivity|].
        rewrite (Herr e eq_refl) in Hr. discriminate.
      - intros [idx Hidx]. exact (Hok idx Hidx). }
    rewrite (Hiff a HN), (Hiff a') by lia. rewrite Hsame. reflexivity.
Qed.

Lemma nth_wall_profile a j :
  j < Z.to_nat (N a) ->
  nth j (wall_profile a) 0%float
  = let y := nth j (Np.linspace 0%float (L a) (Z.to_nat (N a))) 0%float in
    if (y <=? bath_level a)%float then T_bottom a
    else (T_bottom a
          + (T_top a - T_bottom a)
            * ((y - bath_level a) / (L a - bath_level a)))%float.
Proof.
  intros Hj. unfold wall_profile, side_profile.
  rewrite (nth_map_default _ _ _ 0%float)
    by (rewrite length_linspace; exact Hj).
  reflexivity.
Qed.

(** X6. The fixed mask the builder returns marks exactly the bottom row,
    the top row, the outer wall (the last column) and the block of the
    inner square. *)
Theorem builder_fixed_mask :
  forall (a : builder_args) (T : grid float) (fixed : grid bool)
         (h_y h_x l : float),
    build_problem_half a = Ok (T, fixed, h_y, h_x, l) ->
    let Ny := Z.to_nat (N a) in
    let Nx := Z.to_nat (N a / 2 + 1) in
    exists j_low j_high i_right,
      inner_square a h_y h_x = Ok (j_low, j_high, i_right) /\
      forall j i, j < Ny -> i < Nx ->
        Np.cell false fixed j i
        = (j =? 0) || (j =? Ny - 1) || (i =? Nx - 1)
          || in_block (Some j_low, Some (j_high + 1)%Z)
                      (Some 0%Z, Some (i_right + 1)%Z) Ny Nx j i.
Proof.
  intros a T fixed h_y h_x l H Ny Nx.
  destruct (build_problem_half_inv a T fixed h_y h_x l H)
    as (_ & _ & _ & _ & _ & _ & j_low & j_high & i_right & Hsq & _ & Hf).
  exists j_low, j_high, i_right. split; [exact Hsq|].
  intros j i Hj Hi. rewrite Hf by assumption.
  unfold on_boundary. apply orb_comm.
Qed.

(** X7. The grid the builder returns, cell by cell, in the order in which
    the later assignments overwrite the earlier ones: [T_inner] on the block
    of the inner square; elsewhere on the last column the wall profile
    ([T_bottom] up to the clipped bath height, the linear ramp above it,
    evaluated at the height of the row); elsewhere on the top row [T_top];
    elsewhere on the bottom row [T_bottom]; the initial guess on every
    other cell. *)
Theorem builder_grid_cells :
  forall (a : builder_args) (T : grid float) (fixed : grid bool)
         (h_y h_x l : float),
    build_problem_half a = Ok (T, fixed, h_y, h_x, l) ->
    let Ny := Z.to_nat (N a) in
    let Nx := Z.to_nat (N a / 2 + 1) in
    let y0 := bath_level a in
    exists j_low j_high i_right,
      inner_square a h_y h_x = Ok (j_low, j_high, i_right) /\
      forall j i, j < Ny -> i < Nx ->
        Np.cell 0%float T j i
        = if in_block (Some j_low, Some (j_high + 1)%Z)
                      (Some 0%Z, Some (i_right + 1)%Z) Ny Nx j i
          then T_inner a
          else if i =? Nx - 1 then
            let y := nth j (Np.linspace 0%float (L a) Ny) 0%float in
            if (y <=? y0)%float then T_bottom a
            else (T_bottom a
                  + (T_top a - T_bottom a) * ((y - y0) / (L a - y0)))%float
          else if j =? Ny - 1 then T_top a
          else if j =? 0 then T_bottom a
          else init_guess a.
Proof.
  intros a T fixed h_y h_x l H Ny Nx y0.
  destruct (build_problem_half_inv a T fixed h_y h_x l H)
    as (_ & _ & _ & _ & _ & _ & j_low & j_high & i_right & Hsq & HT & _).
  exists j_low, j_high, i_right. split; [exact Hsq|].
  intros j i Hj Hi. rewrite HT by assumption.
  destruct (in_block _ _ _ _ _ _); [reflexivity|].
  unfold boundary_cell. fold Ny Nx.
  destruct (i =? Nx - 1); [|reflexivity].
  apply nth_wall_profile. exact Hj.
Qed.

(** X8. In the builder's output every cell that the fixed mask leaves free
    holds the initial guess. *)
Theorem builder_free_cells_hold_initial_guess :
  forall (a : builder_args) (T : grid float) (fixed : grid bool)
         (h_y h_x l : float),
    build_problem_half a = Ok (T, fixed, h_y, h_x, l) ->
    forall j i, j < Z.to_nat (N a) -> i < Z.to_nat (N a / 2 + 1) ->
      Np.cell false fixed j i = false ->
      Np.cell 0%float T j i = init_guess a.
Proof.
  intros a T fixed h_y h_x l H j i Hj Hi Hfree.
  destruct (build_problem_half_inv a T fixed h_y h_x l H)
    as (_ & _ & _ & _ & _ & _ & j_low & j_high & i_right & _ & HT & Hf).
  rewrite Hf in Hfree by assumption. rewrite HT by assumption.
  apply orb_false_elim in Hfree. destruct Hfree as [-> Hb].
  unfold on_boundary in Hb. apply orb_false_elim in Hb.
  destruct Hb as [Hb Hi']. apply orb_false_elim in Hb.
  destruct Hb as [Hj0 Hj'].
  unfold boundary_cell. rewrite Hi', Hj', Hj0. reflexivity.
Qed.

Lemma float_of_int_positive (w : Z) :
  (1 <= w < 2 ^ 63)%Z ->
  Prim2SF (Py.float_of_int w) = S754_infinity false \/
  exists m e, Prim2SF (Py.float_of_int w) = S754_finite false m e.
Proof.
  intros Hw. destruct (float_of_int_spec w Hw) as [H|(m & e & H & _)];
    [left; exact H|right; exists m, e; exact H].
Qed.

Lemma eqb_zero_inv (x : float) :
  (x =? 0)%float = true -> exists s, Prim2SF x = S754_zero s.
Proof.
  rewrite FloatAxioms.eqb_spec. change (Prim2SF 0) with (S754_zero false).
  destruct (Prim2SF x) as [s|[|]| |[|] m e]; cbn; try discriminate.
  intros _. exists s. reflexivity.
Qed.

Lemma zero_eqb_zero (x : float) s :
  Prim2SF x = S754_zero s -> (x =? 0)%float = true.
Proof.
  intros H. rewrite FloatAxioms.eqb_spec, H. reflexivity.
Qed.

(** X4. On a domain of length zero (of either sign) the builder does not
    return, for any resolution from 2 to [2^63]: the vertical spacing is a
    zero, the first quotient of the inner square divides by it, a
    [ZeroDivisionError], and the builder raises.  (The embedding raises
    this very exception; the program raises another one when NumPy has
    refused to allocate the arrays before.) *)
Theorem builder_raises_on_zero_length :
  forall a : builder_args,
    (2 <= N a <= 2 ^ 63)%Z -> (L a =? 0)%float = true ->
    inner_square a (spacing_y a) (spacing_x a) = Err ZeroDivisionError /\
    exists e, build_problem_half a = Err e.
Proof.
  intros a HN HL.
  assert (Hsq : inner_square a (spacing_y a) (spacing_x a)
                = Err ZeroDivisionError).
  { apply eqb_zero_inv in HL. destruct HL as [s HL].
    assert (Hy : (spacing_y a =? 0)%float = true).
    { unfold spacing_y.
      destruct (float_of_int_positive (N a - 1) ltac:(lia))
        as [Hf|(m & e & Hf)].
      - apply (zero_eqb_zero _ (xorb s false)).
        rewrite FloatAxioms.div_spec, HL, Hf. reflexivity.
      - apply (zero_eqb_zero _ (xorb s false)).
        rewrite FloatAxioms.div_spec, HL, Hf. reflexivity. }
    unfold inner_square, Py.truediv. rewrite Hy. reflexivity. }
  split; [exact Hsq|]. exists ZeroDivisionError.
  apply (build_problem_half_outcome a ltac:(lia)). exact Hsq.
Qed.

(** ** A length that is not a number, or not finite *)

Lemma is_nan_spec (x : float) :
  is_nan x = match Prim2SF x with S754_nan => true | _ => false end.
Proof.
  unfold is_nan. rewrite FloatAxioms.eqb_spec.
  destruct (Prim2SF x) as [s|[|]| |[|] m e]; cbn; try reflexivity.
  - rewrite Z.compare_refl, Pos.compare_cont_refl. reflexivity.
  - rewrite Z.compare_refl, Pos.compare_cont_refl. reflexivity.
Qed.

Lemma not_finite_spec (x : float) :
  is_finite x = false ->
  Prim2SF x = S754_nan \/ exists s, Prim2SF x = S754_infinity s.
Proof.
  unfold is_finite, is_infinity. rewrite is_nan_spec.
  rewrite FloatAxioms.eqb_spec, abs_spec.
  change (Prim2SF infinity) with (S754_infinity false).
  destruct (Prim2SF x) as [s|s| |s m e]; cbn; try discriminate; eauto.
Qed.

Lemma round_nan (q : float) :
  Prim2SF q = S754_nan -> Py.round q = Err ValueError.
Proof. unfold Py.round. intros ->. reflexivity. Qed.

Lemma eqb_zero_false (x : float) :
  Prim2SF x = S754_nan \/ (exists s, Prim2SF x = S754_infinity s) ->
  (x =? 0)%float = false.
Proof.
  rewrite FloatAxioms.eqb_spec. change (Prim2SF 0) with (S754_zero false).
  intros [->|[[|] ->]]; reflexivity.
Qed.

(** X5. On a domain whose length is a NaN or an infinity the builder does
    not return, for any resolution from 2 to [2^63]: the first quotient of
    the inner square is not a number, [round] refuses it with a
    [ValueError], and the builder raises.  (The embedding raises this very
    exception; the program raises another one when NumPy has refused to
    allocate the arrays before.) *)
Theorem builder_raises_on_non_finite_length :
  forall a : builder_args,
    (2 <= N a <= 2 ^ 63)%Z -> is_finite (L a) = false ->
    inner_square a (spacing_y a) (spacing_x a) = Err ValueError /\
    exists e, build_problem_half a = Err e.
Proof.
  intros a HN HL.
  assert (Hsq : inner_square a (spacing_y a) (spacing_x a) = Err ValueError).
  { apply not_finite_spec in HL.
    set (h_y := spacing_y a).
    assert (Hy : Prim2SF h_y = S754_nan
                 \/ exists s, Prim2SF h_y = S754_infinity s).
    { subst h_y. unfold spacing_y. rewrite FloatAxioms.div_spec.
      destruct (float_of_int_positive (N a - 1) ltac:(lia))
        as [Hf|(m & e & Hf)]; rewrite Hf;
        destruct HL as [->|[s ->]]; cbn; eauto. }
    assert (Hq : Prim2SF ((L a / 2 - L_inner a / 2) / h_y) = S754_nan).
    { rewrite FloatAxioms.div_spec, sub_spec, (FloatAxioms.div_spec (L a)).
      change (Prim2SF 2) with (S754_finite false 4503599627370496 (-51)).
      destruct (Prim2SF (L_inner a / 2)) as [sx|[|]| |sx mx ex];
        destruct HL as [->|[[|] ->]]; destruct Hy as [->|[sy ->]];
        reflexivity. }
    unfold inner_square, Py.truediv. fold h_y.
    rewrite (eqb_zero_false h_y Hy). cbn [bind].
    rewrite (round_nan _ Hq). reflexivity. }
  split; [exact Hsq|]. exists ValueError.
  apply (build_problem_half_outcome a ltac:(lia)). exact Hsq.
Qed.

(** ** The order of binary64 numbers *)

Ltac order_cases :=
  repeat match goal with
         | |- context [Z.compare ?a ?b] => destruct (Z.compare_spec a b)
         | |- context [Pos.compare_cont Eq ?a ?b] =>
             change (Pos.compare_cont Eq a b) with (Pos.compare a b);
             destruct (Pos.compare_spec a b)
         end;
  cbn; intros; subst; try discriminate; try reflexivity; try lia.

Lemma SFleb_trans x y z :
  SFleb x y = true -> SFleb y z = true -> SFleb x z = true.
Proof.
  unfold SFleb.
  destruct x as [sx|sx| |sx mx ex], y as [sy|sy| |sy my ey],
    z as [sz|sz| |sz mz ez];
    try destruct sx; try destruct sy; try destruct sz; cbn;
    try discriminate; try reflexivity; order_cases.
Qed.

Lemma SFleb_ltb_trans x y z :
  SFleb x y = true -> SFltb y z = true -> SFltb x z = true.
Proof.
  unfold SFleb, SFltb.
  destruct x as [sx|sx| |sx mx ex], y as [sy|sy| |sy my ey],
    z as [sz|sz| |sz mz ez];
    try destruct sx; try destruct sy; try destruct sz; cbn;
    try discriminate; try reflexivity; order_cases.
Qed.

Lemma SFleb_refl x : x <> S754_nan -> SFleb x x = true.
Proof.
  unfold SFleb.
  destruct x as [sx|sx| |sx mx ex]; try destruct sx; cbn;
    try reflexivity; try congruence;
    rewrite Z.compare_refl, Pos.compare_cont_refl; reflexivity.
Qed.

Lemma SFleb_total x y :
  x <> S754_nan -> y <> S754_nan -> SFleb y x = false -> SFleb x y = true.
Proof.
  unfold SFleb.
  destruct x as [sx|sx| |sx mx ex], y as [sy|sy| |sy my ey];
    try destruct sx; try destruct sy; cbn;
    try discriminate; try reflexivity; try congruence; intros _ _;
    order_cases.
Qed.

Lemma leb_trans (x y z : float) :
  (x <=? y)%float = true -> (y <=? z)%float = true -> (x <=? z)%float = true.
Proof. rewrite !leb_spec. apply SFleb_trans. Qed.

Lemma leb_ltb_trans (x y z : float) :
  (x <=? y)%float = true -> (y <? z)%float = true -> (x <? z)%float = true.
Proof. rewrite !leb_spec, !ltb_spec. apply SFleb_ltb_trans. Qed.

Lemma not_nan_spec (x : float) : is_nan x = false -> Prim2SF x <> S754_nan.
Proof. rewrite is_nan_spec. destruct (Prim2SF x); congruence. Qed.

Lemma leb_refl (x : float) : is_nan x = false -> (x <=? x)%float = true.
Proof.
  intros H. rewrite leb_spec. apply SFleb_refl, not_nan_spec, H.
Qed.

Lemma leb_total (x y : float) :
  is_nan x = false -> is_nan y = false ->
  (y <=? x)%float = false -> (x <=? y)%float = true.
Proof.
  intros Hx Hy. rewrite !leb_spec.
  apply SFleb_total; apply not_nan_spec; assumption.
Qed.

Lemma leb_not_nan (x y : float) :
  (x <=? y)%float = true -> is_nan x = false /\ is_nan y = false.
Proof.
  rewrite leb_spec, !is_nan_spec. unfold SFleb.
  destruct (Prim2SF x), (Prim2SF y); cbn; try discriminate; auto.
Qed.

Lemma ltb_not_nan (x y : float) :
  (x <? y)%float = true -> is_nan x = false /\ is_nan y = false.
Proof.
  rewrite ltb_spec, !is_nan_spec. unfold SFltb.
  destruct (Prim2SF x), (Prim2SF y); cbn; try discriminate; auto.
Qed.

(** A number that is not negative is not below a threshold that is not
    positive. *)
Lemma nonneg_not_below (mc d : float) :
  nonneg_or_nan mc -> (0 <? d)%float = false -> (mc <? d)%float = false.
Proof.
  unfold nonneg_or_nan. rewrite is_nan_spec, leb_spec, !ltb_spec.
  change (Prim2SF 0) with (S754_zero false). unfold SFleb, SFltb.
  destruct (Prim2SF mc) as [s|[|]| |[|] m e],
    (Prim2SF d) as [s'|[|]| |[|] m' e']; cbn;
    intros [H|H]; try discriminate; try reflexivity.
Qed.

(** ** The metric as a maximum *)

Lemma maximum_not_nan (a b : float) :
  is_nan (Np.maximum a b) = false ->
  is_nan a = false /\ is_nan b = false /\
  (a <=? Np.maximum a b)%float = true /\
  (b <=? Np.maximum a b)%float = true.
Proof.
  unfold Np.maximum. destruct (b <=? a)%float eqn:Hle; cbn [orb].
  - intros Ha. destruct (leb_not_nan _ _ Hle) as [Hb _].
    repeat split; try assumption. apply leb_refl. exact Ha.
  - destruct (is_nan a) eqn:Ha; cbv iota; [congruence|].
    intros Hb. repeat split; try assumption.
    + apply leb_total; assumption.
    + apply leb_refl. exact Hb.
Qed.

(** A maximum that is a number is at least every element. *)
Lemma fold_maximum_bound (l : list float) :
  forall x,
    is_nan (fold_left Np.maximum l x) = false ->
    forall y, In y (x :: l) ->
      (y <=? fold_left Np.maximum l x)%float = true.
Proof.
  induction l as [|z l IH]; intros x Hnan y Hy.
  - destruct Hy as [<-|[]]. apply leb_refl. exact Hnan.
  - cbn [fold_left] in *.
    pose proof (IH (Np.maximum x z) Hnan) as Hall.
    assert (Hm : (Np.maximum x z
                  <=? fold_left Np.maximum l (Np.maximum x z))%float = true)
      by (apply Hall; left; reflexivity).
    destruct (leb_not_nan _ _ Hm) as [Hmn _].
    destruct (maximum_not_nan x z Hmn) as (_ & _ & Hx & Hz).
    destruct Hy as [<-|[<-|Hy]].
    + eapply leb_trans; eassumption.
    + eapply leb_trans; eassumption.
    + apply Hall. right. exact Hy.
Qed.

Lemma select_row_cells {A : Type} (d : A) (mrow : list bool) (row : list A) x :
  length mrow = length row ->
  (In x (Np.select_row mrow row)
   <-> exists i, i < length row /\ nth i mrow false = true /\ x = nth i row d).
Proof.
  revert row; induction mrow as [|m mrow IH]; intros [|y row] Hlen;
    try discriminate.
  - cbn. split; [contradiction|]. intros (i & Hi & _). lia.
  - cbn [Np.select_row length]. injection Hlen as Hlen.
    specialize (IH row Hlen). split.
    + intros Hin.
      assert (Hcase : (m = true /\ x = y) \/ In x (Np.select_row mrow row)).
      { destruct m; [destruct Hin as [<-|Hin]; auto|auto]. }
      destruct Hcase as [[-> ->]|Hin'].
      * exists 0. split; [lia|]. split; reflexivity.
      * apply IH in Hin'. destruct Hin' as (i & Hi & Hm & Hx).
        exists (S i). split; [lia|]. split; assumption.
    + intros (i & Hi & Hm & Hx). destruct i as [|i].
      * cbn in Hm, Hx. subst m x. left. reflexivity.
      * cbn in Hm, Hx.
        assert (Hin : In x (Np.select_row mrow row))
          by (apply IH; exists i; split; [lia|split; assumption]).
        destruct m; [right|]; exact Hin.
Qed.

(** What a mask selects from an array of its shape: the cells it marks. *)
Lemma select_rows_cells {A : Type} (d : A) Ny Nx (mask : grid bool)
    (g : grid A) x :
  rect Ny Nx mask -> rect Ny Nx g ->
  (In x (Np.select_rows mask g)
   <-> exists j i, j < Ny /\ i < Nx /\ Np.cell false mask j i = true
                   /\ x = Np.cell d g j i).
Proof.
  revert Ny g; induction mask as [|mrow mask IH]; intros Ny [|row g] Hm Hg;
    try (destruct Hm as [Hm _], Hg as [Hg _]; simpl in *; lia).
  - cbn. split; [contradiction|]. intros (j & i & Hj & _).
    destruct Hm as [Hm _]. simpl in Hm. lia.
  - destruct Ny as [|Ny]; [destruct Hm; discriminate|].
    apply rect_cons in Hm, Hg. destruct Hm as [Hmrow Hm], Hg as [Hrow Hg].
    cbn [Np.select_rows]. rewrite in_app_iff.
    rewrite (select_row_cells d mrow row x) by lia.
    rewrite (IH Ny g Hm Hg). split.
    + intros [(i & Hi & Hmi & Hx)|(j & i & Hj & Hi & Hmi & Hx)].
      * exists 0, i. repeat split; try lia; assumption.
      * exists (S j), i. repeat split; try lia; assumption.
    + intros (j & i & Hj & Hi & Hmi & Hx). destruct j as [|j].
      * left. exists i. repeat split; try lia; assumption.
      * right. exists j, i. repeat split; try lia; assumption.
Qed.

Lemma cell_change Ny Nx (T T_new : grid float) j i :
  rect Ny Nx T -> rect Ny Nx T_new -> j < Ny -> i < Nx ->
  Np.cell 0%float (Np.abs (Np.sub T_new T)) j i
  = PrimFloat.abs (Np.cell 0%float T_new j i - Np.cell 0%float T j i)%float.
Proof.
  intros HT HT' Hj Hi. unfold Np.abs, Np.sub.
  rewrite (cell_map _ 0%float 0%float Ny Nx); try assumption.
  2: apply rect_map2; assumption.
  rewrite (cell_map2 _ 0%float 0%float 0%float Ny Nx); try assumption.
  reflexivity.
Qed.

(** The metric of a sweep is the largest change of a variable cell: it is
    the change of one, and when it is a number no variable cell changed by
    more. *)
Lemma max_change_of_spec Ny Nx (var : grid bool) (T T_new : grid float) :
  rect Ny Nx var -> rect Ny Nx T -> rect Ny Nx T_new ->
  let change j i :=
    PrimFloat.abs (Np.cell 0%float T_new j i - Np.cell 0%float T j i)%float in
  let mc := max_change_of var T T_new in
  (Np.any var = true ->
   exists j i, j < Ny /\ i < Nx /\ Np.cell false var j i = true
               /\ mc = change j i) /\
  (is_nan mc = false ->
   forall j i, j < Ny -> i < Nx -> Np.cell false var j i = true ->
     (change j i <=? mc)%float = true).
Proof.
  intros Hv HT HT' change mc.
  assert (Hd : rect Ny Nx (Np.abs (Np.sub T_new T)))
    by (apply rect_map; apply rect_map2; assumption).
  pose proof (fun x => select_rows_cells 0%float Ny Nx var _ x Hv Hd) as Hsel.
  subst mc. unfold max_change_of. split.
  - intros Hany. rewrite Hany.
    pose proof (select_rows_nonempty Ny Nx var _ Hv Hd Hany) as Hne.
    destruct (Np.select_rows var (Np.abs (Np.sub T_new T))) as [|c cs] eqn:E;
      [contradiction|].
    cbn [hd tl]. pose proof (fold_maximum_in cs c) as Hin.
    apply Hsel in Hin. destruct Hin as (j & i & Hj & Hi & Hm & Hx).
    exists j, i. repeat split; try assumption.
    rewrite Hx. apply (cell_change Ny Nx); assumption.
  - intros Hnan j i Hj Hi Hm.
    assert (Hany : Np.any var = true).
    { destruct (Np.any var) eqn:Hany; [reflexivity|].
      exfalso. assert (Hin : In (change j i)
                               (Np.select_rows var (Np.abs (Np.sub T_new T)))).
      { apply Hsel. exists j, i. repeat split; try assumption.
        symmetry. apply (cell_change Ny Nx); assumption. }
      clear - Hany Hin. revert Hin Hany. generalize (Np.abs (Np.sub T_new T)).
      generalize (change j i). intros x g.
      revert g. induction var as [|mrow var IH]; intros [|row g]; cbn;
        try contradiction.
      intros Hin Hany. apply orb_false_elim in Hany. destruct Hany as [H1 H2].
      apply in_app_or in Hin. destruct Hin as [Hin|Hin]; [|eauto].
      clear - H1 Hin. revert row Hin.
      induction mrow as [|m mrow IHm]; intros [|y row]; cbn;
        try contradiction.
      cbn in H1. apply orb_false_elim in H1. destruct H1 as [-> H1]. eauto. }
    rewrite Hany in *.
    destruct (Np.select_rows var (Np.abs (Np.sub T_new T))) as [|c cs] eqn:E.
    + exfalso. assert (Hin : In (change j i) []); [|destruct Hin].
      apply Hsel. exists j, i. repeat split; try assumption.
      symmetry. apply (cell_change Ny Nx); assumption.
    + cbn [hd tl] in *. apply fold_maximum_bound; [exact Hnan|].
      apply Hsel. exists j, i. repeat split; try assumption.
      symmetry. apply (cell_change Ny Nx); assumption.
Qed.

(** ** The trace of a run *)

Lemma after_pass_succ k fixed var T T1 mc1 :
  sweep fixed var T = Ok (T1, mc1) ->
  after_pass (S k) fixed var T = after_pass k fixed var T1.
Proof. intros H. cbn [after_pass]. rewrite H. reflexivity. Qed.

(** Pass [k + 2] is the sweep of the grid pass [k + 1] left. *)
Lemma after_pass_last k fixed var : forall T T_k mc_k,
  after_pass k fixed var T = Ok (T_k, mc_k) ->
  after_pass (S k) fixed var T = sweep fixed var T_k.
Proof.
  induction k as [|k IH]; intros T T_k mc_k H.
  - cbn [after_pass] in *. rewrite H. reflexivity.
  - cbn [after_pass] in H.
    destruct (sweep fixed var T) as [[T1 mc1]|e] eqn:Hs; [|discriminate].
    cbn [bind] in H. rewrite (after_pass_succ (S k) _ _ _ _ _ Hs).
    apply (IH T1 T_k mc_k). exact H.
Qed.

Lemma flat_map_seq_shift {A : Type} (f : nat -> list A) n :
  flat_map f (seq 1 n) = flat_map (fun k => f (S k)) (seq 0 n).
Proof.
  rewrite <- seq_shift. rewrite flat_map_concat_map, map_map.
  rewrite <- flat_map_concat_map. reflexivity.
Qed.

Section Trace.
Variables (Ny Nx : nat) (fixed var : grid bool).
Variables (cfg : solver_config) (L : float).
Hypothesis Hfixed : rect Ny Nx fixed.
Hypothesis Hvar : rect Ny Nx var.
Hypothesis HNy : 2 <= Ny.
Hypothesis HNx : 2 <= Nx.
Hypothesis Hreport : report_every cfg <> 0%Z.
Hypothesis Hsnap : snap_every cfg <> 0%Z.

(** One pass through the body of the loop, with what it hands out. *)
Lemma iteration_events T epochs :
  rect Ny Nx T ->
  exists T_new table,
    sweep fixed var T = Ok (T_new, max_change_of var T T_new) /\
    rect Ny Nx T_new /\
    export_structured_csv_full (mirror_full_from_half T_new) L = Ok table /\
    let mc := max_change_of var T T_new in
    let stop := (mc <? delta cfg)%float
                || (max_iters cfg <=? epochs + 1)%Z in
    iteration cfg L fixed var T epochs
    = Ok (T_new, (epochs + 1)%Z, mc,
          periodic_events cfg L (epochs + 1) T_new mc
          ++ (if stop then [FinalSnapshot table] else []), stop).
Proof.
  intros HT.
  destruct (sweep_spec Ny Nx fixed var T HT Hfixed Hvar ltac:(lia) HNx)
    as (T_new & Hsweep & Hrect & _).
  assert (Hmirror : rect Ny (2 * Nx - 1) (mirror_full_from_half T_new))
    by (apply rect_mirror; [exact Hrect|lia]).
  destruct (export_returns Ny (2 * Nx - 1) _ L Hmirror HNy ltac:(lia))
    as [table Htable].
  exists T_new, table. repeat split; try assumption; try apply Hrect.
  cbv zeta. unfold iteration, periodic_events. rewrite Hsweep. cbn [bind].
  rewrite !mod_ok by assumption. cbn [bind]. rewrite Htable.
  destruct (((epochs + 1) mod snap_every cfg) =? 0)%Z; cbn [bind];
    destruct (_ || _); rewrite <- ?app_assoc, ?app_nil_r; reflexivity.
Qed.

(** The loop over a well-shaped grid returns within the passes that
    remain, one at least; its trace is what its passes handed out, in
    order, and then the final snapshot. *)
Lemma solver_loop_trace (n : nat) :
  forall T epochs trace,
    rect Ny Nx T -> 1 <= n ->
    (max_iters cfg - epochs <= Z.of_nat n)%Z ->
    exists k T_f mc table,
      (forall fuel, n <= fuel ->
         solver_loop fuel cfg L fixed var T epochs trace
         = Some (Ok (T_f, (epochs + Z.of_nat k + 1)%Z, mc,
                     trace
                     ++ flat_map (events_of_pass cfg L fixed var T epochs)
                          (seq 0 (S k))
                     ++ [FinalSnapshot table]))) /\
      after_pass k fixed var T = Ok (T_f, mc) /\
      rect Ny Nx T_f /\
      export_structured_csv_full (mirror_full_from_half T_f) L = Ok table /\
      (k = 0 \/ (epochs + Z.of_nat k + 1 <= max_iters cfg)%Z) /\
      ((mc <? delta cfg)%float = true
       \/ (max_iters cfg <= epochs + Z.of_nat k + 1)%Z) /\
      (forall k', k' < k ->
         exists T' mc', after_pass k' fixed var T = Ok (T', mc') /\
                        (mc' <? delta cfg)%float = false).
Proof.
  induction n as [|n IH]; intros T epochs trace HT Hn Hcap; [lia|].
  destruct (iteration_events T epochs HT)
    as (T1 & table & Hsweep & Hrect & Htable & Hiter).
  cbv zeta in Hiter. set (mc1 := max_change_of var T T1) in *.
  assert (H0 : events_of_pass cfg L fixed var T epochs 0
               = periodic_events cfg L (epochs + 1) T1 mc1).
  { unfold events_of_pass. cbn [after_pass]. rewrite Hsweep.
    replace (epochs + Z.of_nat 0 + 1)%Z with (epochs + 1)%Z by lia.
    reflexivity. }
  destruct ((mc1 <? delta cfg)%float || (max_iters cfg <=? epochs + 1)%Z)
    eqn:Hstop.
  - exists 0, T1, mc1, table. repeat split; try assumption; try apply Hrect.
    + intros fuel Hfuel. destruct fuel as [|fuel]; [lia|].
      cbn [solver_loop]. rewrite Hiter.
      replace (epochs + Z.of_nat 0 + 1)%Z with (epochs + 1)%Z by lia.
      cbn [seq flat_map]. rewrite H0, app_nil_r. reflexivity.
    + left. reflexivity.
    + apply orb_prop in Hstop. destruct Hstop as [Hmc|Hc]; [left; exact Hmc|].
      right. lia.
    + intros k' Hk'. lia.
  - apply orb_false_elim in Hstop. destruct Hstop as [Hmc Hc].
    destruct (IH T1 (epochs + 1)%Z
                (trace ++ periodic_events cfg L (epochs + 1) T1 mc1)
                Hrect ltac:(lia) ltac:(lia))
      as (k & T_f & mc & table' & Hloop & Hpass & Hrect' & Htable' & Hle
          & Hwhy & Hearlier).
    exists (S k), T_f, mc, table'. repeat split; try assumption;
      try apply Hrect'.
    + intros fuel Hfuel. destruct fuel as [|fuel]; [lia|].
      cbn [solver_loop]. rewrite Hiter, app_nil_r.
      rewrite (Hloop fuel) by lia.
      replace (epochs + 1 + Z.of_nat k + 1)%Z
        with (epochs + Z.of_nat (S k) + 1)%Z by lia.
      rewrite <- app_assoc.
      change (seq 0 (S (S k))) with (0 :: seq 1 (S k)).
      cbn [flat_map]. rewrite H0, <- app_assoc.
      rewrite flat_map_seq_shift.
      replace (flat_map
                 (fun k0 => events_of_pass cfg L fixed var T epochs (S k0))
                 (seq 0 (S k)))
        with (flat_map (events_of_pass cfg L fixed var T1 (epochs + 1))
                (seq 0 (S k))); [reflexivity|]. apply flat_map_ext. intros k'.
      unfold events_of_pass.
      rewrite (after_pass_succ k' _ _ _ _ _ Hsweep).
      replace (epochs + Z.of_nat (S k') + 1)%Z
        with (epochs + 1 + Z.of_nat k' + 1)%Z by lia.
      reflexivity.
    + rewrite (after_pass_succ k _ _ _ _ _ Hsweep). exact Hpass.
    + right. destruct Hle as [->|Hle]; lia.
    + destruct Hwhy as [Hwhy|Hwhy]; [left; exact Hwhy|right; lia].
    + intros k' Hk'. destruct k' as [|k'].
      * exists T1, mc1. split; [exact Hsweep|exact Hmc].
      * destruct (Hearlier k' ltac:(lia)) as (T' & mc' & Hpass' & Hmc').
        exists T', mc'. split; [|exact Hmc'].
        rewrite (after_pass_succ k' _ _ _ _ _ Hsweep). exact Hpass'.
Qed.

End Trace.

(** ** Runs of the solver *)

Lemma is_interior_spec Ny Nx j i :
  is_interior Ny Nx j i = true <-> 1 <= j < Ny - 1 /\ 1 <= i < Nx - 1.
Proof.
  unfold is_interior. rewrite !andb_true_iff, !Nat.leb_le, !Nat.ltb_lt. lia.
Qed.

(** A run of the solver on a well-shaped grid with non-zero periods: the
    mask, the number of passes, what is returned and why the loop
    stopped. *)
Lemma solver_run Ny Nx (T : grid float) (fixed : grid bool)
    (h_y h_x L : float) (cfg : solver_config) :
  rect Ny Nx T -> rect Ny Nx fixed -> 2 <= Ny -> 2 <= Nx ->
  report_every cfg <> 0%Z -> snap_every cfg <> 0%Z ->
  exists var k T_f mc table,
    variable_mask fixed = Ok var /\ rect Ny Nx var /\
    (forall fuel, 1 <= fuel -> Z.to_nat (max_iters cfg) <= fuel ->
       jacobi_laplace_half_with_snapshots fuel T fixed h_y h_x L cfg
       = Some (Ok (T_f, (Z.of_nat k + 1)%Z, mc,
                   flat_map (events_of_pass cfg L fixed var T 0)
                     (seq 0 (S k))
                   ++ [FinalSnapshot table]))) /\
    after_pass k fixed var T = Ok (T_f, mc) /\
    rect Ny Nx T_f /\
    export_structured_csv_full (mirror_full_from_half T_f) L = Ok table /\
    (k = 0 \/ (Z.of_nat k + 1 <= max_iters cfg)%Z) /\
    ((mc <? delta cfg)%float = true
     \/ (max_iters cfg <= Z.of_nat k + 1)%Z) /\
    (forall k', k' < k ->
       exists T' mc', after_pass k' fixed var T = Ok (T', mc') /\
                      (mc' <? delta cfg)%float = false).
Proof.
  intros HT Hf HNy HNx Hreport Hsnap.
  destruct (variable_mask_spec Ny Nx fixed Hf ltac:(lia) ltac:(lia))
    as (var & Hvar & Hrect & _).
  destruct (solver_loop_trace Ny Nx fixed var cfg L Hf Hrect HNy HNx
              Hreport Hsnap (Nat.max 1 (Z.to_nat (max_iters cfg))) T 0%Z []
              HT ltac:(lia) ltac:(lia))
    as (k & T_f & mc & table & Hloop & Hpass & Hrect' & Htable & Hle & Hwhy
        & Hearlier).
  exists var, k, T_f, mc, table.
  split; [exact Hvar|]. split; [exact Hrect|]. split.
  { intros fuel Hfuel1 Hfuel. unfold jacobi_laplace_half_with_snapshots.
    rewrite Hvar. rewrite (Hloop fuel) by lia. reflexivity. }
  repeat split; try assumption; try apply Hrect'.
Qed.

(** The grid a pass starts from, and the sweep that makes the pass. *)
Lemma after_pass_from_before Ny Nx fixed var k T T_f mc :
  rect Ny Nx fixed -> rect Ny Nx var -> 1 <= Ny -> 2 <= Nx ->
  rect Ny Nx T ->
  after_pass k fixed var T = Ok (T_f, mc) ->
  exists T_prev,
    grid_before_pass k fixed var T = Ok T_prev /\ rect Ny Nx T_prev /\
    sweep fixed var T_prev = Ok (T_f, mc).
Proof.
  intros Hf Hv HNy HNx HT Hpass. destruct k as [|k].
  - exists T. split; [reflexivity|]. split; [exact HT|exact Hpass].
  - destruct (after_pass_spec Ny Nx fixed var Hf Hv HNy HNx k T HT)
      as (T_prev & mc' & Hprev & Hrect & _).
    exists T_prev. cbn [grid_before_pass]. rewrite Hprev. cbn [bind].
    split; [reflexivity|]. split; [exact Hrect|].
    rewrite <- (after_pass_last k fixed var T T_prev mc' Hprev). exact Hpass.
Qed.

(** X14. The variable mask of a fixed mask with at least one row and one
    column has the same shape and marks exactly the cells that are not
    fixed and lie off the four edges; no cell is both fixed and
    variable. *)
Theorem variable_mask_cells :
  forall (Ny Nx : nat) (fixed : grid bool),
    rect Ny Nx fixed -> 1 <= Ny -> 1 <= Nx ->
    exists var,
      variable_mask fixed = Ok var /\ rect Ny Nx var /\
      forall j i, j < Ny -> i < Nx ->
        (Np.cell false var j i = true
         <-> Np.cell false fixed j i = false
             /\ 1 <= j < Ny - 1 /\ 1 <= i < Nx - 1).
Proof.
  intros Ny Nx fixed Hf HNy HNx.
  destruct (variable_mask_spec Ny Nx fixed Hf HNy HNx)
    as (var & Hvar & Hrect & Hcells).
  exists var. split; [exact Hvar|]. split; [exact Hrect|].
  intros j i Hj Hi. rewrite Hcells by assumption.
  rewrite andb_true_iff, negb_true_iff, is_interior_spec. reflexivity.
Qed.

(** X15. With a fixed mask that has no row or no column the solver raises
    [IndexError] while it builds the variable mask, before any sweep. *)
Theorem solver_rejects_grids_without_cells :
  forall (Ny Nx : nat) (T : grid float) (fixed : grid bool)
         (h_y h_x L : float) (cfg : solver_config) (fuel : nat),
    rect Ny Nx fixed -> Ny = 0 \/ Nx = 0 ->
    variable_mask fixed = Err IndexError /\
    jacobi_laplace_half_with_snapshots fuel T fixed h_y h_x L cfg
    = Some (Err IndexError).
Proof.
  intros Ny Nx T fixed h_y h_x L cfg fuel Hf Hempty.
  assert (Hcols : Np.ncols (Np.logical_not fixed) = 0).
  { unfold Np.ncols, Np.logical_not. destruct Hf as [Hlen Hrows].
    destruct fixed as [|row fixed]; [reflexivity|].
    destruct Hempty as [->| ->]; [discriminate|].
    inversion Hrows; subst. cbn. rewrite length_map. assumption. }
  assert (Hmask : variable_mask fixed = Err IndexError).
  { unfold variable_mask, Np.set_column at 1. rewrite Hcols. reflexivity. }
  split; [exact Hmask|].
  unfold jacobi_laplace_half_with_snapshots. rewrite Hmask. reflexivity.
Qed.

Lemma sweep_single_column Ny (fixed var : grid bool) (T : grid float) :
  rect Ny 1 T -> rect Ny 1 var -> 1 <= Ny ->
  sweep fixed var T = Err IndexError.
Proof.
  intros HT Hv HNy. unfold sweep.
  rewrite (bind_masked_copy (Ny - 2) (1 - 2)).
  2: apply (rect_inner_slice Ny 1); exact HT.
  2: apply (rect_inner_slice Ny 1); exact Hv.
  2: apply (rect_neighbour_average Ny 1); exact HT.
  fold (averaged var T).
  assert (H1 : rect Ny 1 (averaged var T)) by (apply rect_put_block; exact HT).
  unfold Np.column. rewrite (ncols_rect Ny 1 _ H1 HNy). reflexivity.
Qed.

(** X16. On a grid of a single column the solver raises [IndexError] in
    its first pass: the symmetry condition reads column 1, which does not
    exist. *)
Theorem solver_rejects_single_column :
  forall (Ny : nat) (T : grid float) (fixed : grid bool)
         (h_y h_x L : float) (cfg : solver_config) (fuel : nat),
    rect Ny 1 T -> rect Ny 1 fixed -> 1 <= Ny -> 1 <= fuel ->
    jacobi_laplace_half_with_snapshots fuel T fixed h_y h_x L cfg
    = Some (Err IndexError).
Proof.
  intros Ny T fixed h_y h_x L cfg fuel HT Hf HNy Hfuel.
  destruct (variable_mask_spec Ny 1 fixed Hf HNy ltac:(lia))
    as (var & Hvar & Hrect & _).
  unfold jacobi_laplace_half_with_snapshots. rewrite Hvar.
  destruct fuel as [|fuel]; [lia|]. cbn [solver_loop]. unfold iteration.
  rewrite (sweep_single_column Ny fixed var T HT Hrect HNy). reflexivity.
Qed.

(** X19. With a reporting or a snapshot period of zero the solver raises
    [ZeroDivisionError] in its first pass, after the sweep and before
    anything is exported: the epoch count is reduced modulo the period. *)
Theorem zero_period_raises :
  forall (Ny Nx : nat) (T : grid float) (fixed : grid bool)
         (h_y h_x L : float) (cfg : solver_config) (fuel : nat),
    rect Ny Nx T -> rect Ny Nx fixed -> 1 <= Ny -> 2 <= Nx -> 1 <= fuel ->
    report_every cfg = 0%Z \/ snap_every cfg = 0%Z ->
    jacobi_laplace_half_with_snapshots fuel T fixed h_y h_x L cfg
    = Some (Err ZeroDivisionError).
Proof.
  intros Ny Nx T fixed h_y h_x L cfg fuel HT Hf HNy HNx Hfuel Hzero.
  destruct (variable_mask_spec Ny Nx fixed Hf HNy ltac:(lia))
    as (var & Hvar & Hrect & _).
  destruct (sweep_spec Ny Nx fixed var T HT Hf Hrect HNy HNx)
    as (T_new & Hsweep & _).
  unfold jacobi_laplace_half_with_snapshots. rewrite Hvar.
  destruct fuel as [|fuel]; [lia|]. cbn [solver_loop]. unfold iteration.
  rewrite Hsweep. cbn [bind]. unfold Py.mod_.
  destruct (Z.eqb_spec (report_every cfg) 0) as [Hr|Hr]; [reflexivity|].
  cbn [bind]. destruct Hzero as [Hz|Hz]; [contradiction|].
  rewrite Hz. reflexivity.
Qed.

(** X20. The loop tests its cap after the sweep: with [max_iters <= 1],
    zero and negative values included, the solver makes exactly one sweep
    and returns its grid and metric at epoch 1. *)
Theorem cap_below_two_gives_one_pass :
  forall (Ny Nx : nat) (T : grid float) (fixed : grid bool)
         (h_y h_x L : float) (cfg : solver_config),
    rect Ny Nx T -> rect Ny Nx fixed -> 2 <= Ny -> 2 <= Nx ->
    report_every cfg <> 0%Z -> snap_every cfg <> 0%Z ->
    (max_iters cfg <= 1)%Z ->
    exists var T_1 mc trace,
      variable_mask fixed = Ok var /\
      sweep fixed var T = Ok (T_1, mc) /\
      forall fuel, 1 <= fuel ->
        jacobi_laplace_half_with_snapshots fuel T fixed h_y h_x L cfg
        = Some (Ok (T_1, 1%Z, mc, trace)).
Proof.
  intros Ny Nx T fixed h_y h_x L cfg HT Hf HNy HNx Hreport Hsnap Hcap.
  destruct (solver_run Ny Nx T fixed h_y h_x L cfg HT Hf HNy HNx Hreport Hsnap)
    as (var & k & T_f & mc & table & Hvar & _ & Hrun & Hpass & _ & _ & Hle
        & _).
  assert (Hk : k = 0) by (destruct Hle as [Hk|Hk]; lia). subst k.
  exists var, T_f, mc. eexists. split; [exact Hvar|].
  split; [exact Hpass|]. intros fuel Hfuel.
  rewrite (Hrun fuel) by lia. reflexivity.
Qed.

(** X21. With a threshold [delta] that is not positive (zero, negative or
    a NaN) the metric never stops the loop: the solver returns at epoch
    [max_iters] exactly. *)
Theorem nonpositive_delta_runs_to_cap :
  forall (Ny Nx : nat) (T : grid float) (fixed : grid bool)
         (h_y h_x L : float) (cfg : solver_config),
    rect Ny Nx T -> rect Ny Nx fixed -> 2 <= Ny -> 2 <= Nx ->
    report_every cfg <> 0%Z -> snap_every cfg <> 0%Z ->
    (1 <= max_iters cfg)%Z ->
    (0 <? delta cfg)%float = false ->
    exists T_f mc trace,
      forall fuel, Z.to_nat (max_iters cfg) <= fuel ->
        jacobi_laplace_half_with_snapshots fuel T fixed h_y h_x L cfg
        = Some (Ok (T_f, max_iters cfg, mc, trace)).
Proof.
  intros Ny Nx T fixed h_y h_x L cfg HT Hf HNy HNx Hreport Hsnap Hcap Hdelta.
  destruct (solver_run Ny Nx T fixed h_y h_x L cfg HT Hf HNy HNx Hreport Hsnap)
    as (var & k & T_f & mc & table & Hvar & Hrect & Hrun & Hpass & _ & _
        & Hle & Hwhy & _).
  destruct (after_pass_spec Ny Nx fixed var Hf Hrect ltac:(lia) HNx k T HT)
    as (T_k & mc' & Hpass' & _ & _ & _ & Hnonneg).
  rewrite Hpass in Hpass'. injection Hpass' as <- <-.
  pose proof (nonneg_not_below mc (delta cfg) Hnonneg Hdelta) as Hnot.
  assert (Hk : (Z.of_nat k + 1 = max_iters cfg)%Z).
  { destruct Hwhy as [Hwhy|Hwhy]; [congruence|].
    destruct Hle as [Hk|Hk]; lia. }
  exists T_f, mc. eexists. intros fuel Hfuel.
  rewrite (Hrun fuel) by lia. rewrite Hk. reflexivity.
Qed.

(** X24. What a run hands to its collaborators, in order: for each epoch
    from 1 to the last one a report when the epoch is a multiple of
    [report_every], then a snapshot of the mirrored grid of that epoch when
    it is a multiple of [snap_every]; and after the last epoch exactly one
    final snapshot, of the mirrored grid that is returned.  Every pass is
    reached and its grid can be exported, so that no event is missing. *)
Theorem solver_trace :
  forall (Ny Nx : nat) (T : grid float) (fixed : grid bool)
         (h_y h_x L : float) (cfg : solver_config),
    rect Ny Nx T -> rect Ny Nx fixed -> 2 <= Ny -> 2 <= Nx ->
    report_every cfg <> 0%Z -> snap_every cfg <> 0%Z ->
    exists var k T_f mc table,
      variable_mask fixed = Ok var /\
      (forall k', exists T' mc' table',
         after_pass k' fixed var T = Ok (T', mc') /\
         export_structured_csv_full (mirror_full_from_half T') L = Ok table') /\
      after_pass k fixed var T = Ok (T_f, mc) /\
      export_structured_csv_full (mirror_full_from_half T_f) L = Ok table /\
      forall fuel, 1 <= fuel -> Z.to_nat (max_iters cfg) <= fuel ->
        jacobi_laplace_half_with_snapshots fuel T fixed h_y h_x L cfg
        = Some (Ok (T_f, (Z.of_nat k + 1)%Z, mc,
                    flat_map (events_of_pass cfg L fixed var T 0)
                      (seq 0 (k + 1))
                    ++ [FinalSnapshot table])).
Proof.
  intros Ny Nx T fixed h_y h_x L cfg HT Hf HNy HNx Hreport Hsnap.
  destruct (solver_run Ny Nx T fixed h_y h_x L cfg HT Hf HNy HNx Hreport Hsnap)
    as (var & k & T_f & mc & table & Hvar & Hrect & Hrun & Hpass & _ & Htable
        & _).
  exists var, k, T_f, mc, table. split; [exact Hvar|]. split.
  { intros k'.
    destruct (after_pass_spec Ny Nx fixed var Hf Hrect ltac:(lia) HNx k' T HT)
      as (T' & mc' & Hpass' & Hshape & _).
    assert (Hmirror : rect Ny (2 * Nx - 1) (mirror_full_from_half T'))
      by (apply rect_mirror; [exact Hshape|lia]).
    destruct (export_returns Ny (2 * Nx - 1) _ L Hmirror HNy ltac:(lia))
      as [table' Htable'].
    exists T', mc', table'. split; assumption. }
  split; [exact Hpass|]. split; [exact Htable|]. intros fuel H1 Hfuel.
  rewrite Nat.add_1_r. apply Hrun; assumption.
Qed.

(** X25. The shape of the grid is constant across a solve: every pass of
    the loop is reached and leaves a grid of the shape of the first one,
    and so is the grid the solver returns. *)
Theorem solver_keeps_grid_shape :
  forall (Ny Nx : nat) (T : grid float) (fixed : grid bool),
    rect Ny Nx T -> rect Ny Nx fixed -> 1 <= Ny -> 2 <= Nx ->
    exists var,
      variable_mask fixed = Ok var /\
      (forall k, exists T_k mc,
         after_pass k fixed var T = Ok (T_k, mc) /\ rect Ny Nx T_k) /\
      (forall h_y h_x L cfg fuel T_f epochs mc trace,
         jacobi_laplace_half_with_snapshots fuel T fixed h_y h_x L cfg
         = Some (Ok (T_f, epochs, mc, trace)) ->
         rect Ny Nx T_f).
Proof.
  intros Ny Nx T fixed HT Hf HNy HNx.
  destruct (variable_mask_spec Ny Nx fixed Hf HNy ltac:(lia))
    as (var & Hvar & Hrect & _).
  exists var. split; [exact Hvar|]. split.
  - intros k.
    destruct (after_pass_spec Ny Nx fixed var Hf Hrect HNy HNx k T HT)
      as (T_k & mc & Hpass & Hshape & _).
    exists T_k, mc. split; assumption.
  - intros h_y h_x L cfg fuel T_f epochs mc trace Hrun.
    unfold jacobi_laplace_half_with_snapshots in Hrun. rewrite Hvar in Hrun.
    apply solver_loop_returns_a_pass in Hrun. destruct Hrun as (k & Hpass & _).
    destruct (after_pass_spec Ny Nx fixed var Hf Hrect HNy HNx k T HT)
      as (T_k & mc' & Hpass' & Hshape & _).
    rewrite Hpass in Hpass'. injection Hpass' as <- <-. exact Hshape.
Qed.

(** X22. The metric of a sweep is the largest absolute change of a
    variable cell: when the mask has a variable cell the metric is the
    change of one of them, and when the metric is a number no variable cell
    changed by more. *)
Theorem max_change_is_the_largest_change :
  forall (Ny Nx : nat) (T : grid float) (fixed var : grid bool),
    rect Ny Nx T -> rect Ny Nx fixed -> rect Ny Nx var ->
    1 <= Ny -> 2 <= Nx ->
    exists T_new max_change,
      sweep fixed var T = Ok (T_new, max_change) /\
      (Np.any var = true ->
       exists j i, j < Ny /\ i < Nx /\ Np.cell false var j i = true
                   /\ max_change = change_at T T_new j i) /\
      (is_nan max_change = false ->
       forall j i, j < Ny -> i < Nx -> Np.cell false var j i = true ->
         (change_at T T_new j i <=? max_change)%float = true).
Proof.
  intros Ny Nx T fixed var HT Hf Hv HNy HNx.
  destruct (sweep_spec Ny Nx fixed var T HT Hf Hv HNy HNx)
    as (T_new & Hsweep & Hrect & _).
  exists T_new, (max_change_of var T T_new). split; [exact Hsweep|].
  apply (max_change_of_spec Ny Nx); assumption.
Qed.

(** X23. The solver returns the outcome of the last sweep it made, and
    when it returns before the cap that sweep changed no variable cell by
    [delta] or more: the returned metric is below [delta] and bounds every
    change. *)
Theorem converged_run_changes_below_delta :
  forall (Ny Nx : nat) (T : grid float) (fixed : grid bool)
         (h_y h_x L : float) (cfg : solver_config),
    rect Ny Nx T -> rect Ny Nx fixed -> 2 <= Ny -> 2 <= Nx ->
    report_every cfg <> 0%Z -> snap_every cfg <> 0%Z ->
    exists var k T_prev T_f mc trace,
      variable_mask fixed = Ok var /\
      (forall fuel, 1 <= fuel -> Z.to_nat (max_iters cfg) <= fuel ->
         jacobi_laplace_half_with_snapshots fuel T fixed h_y h_x L cfg
         = Some (Ok (T_f, (Z.of_nat k + 1)%Z, mc, trace))) /\
      grid_before_pass k fixed var T = Ok T_prev /\
      sweep fixed var T_prev = Ok (T_f, mc) /\
      ((Z.of_nat k + 1 < max_iters cfg)%Z ->
       (mc <? delta cfg)%float = true /\
       forall j i, j < Ny -> i < Nx -> Np.cell false var j i = true ->
         (change_at T_prev T_f j i <? delta cfg)%float = true).
Proof.
  intros Ny Nx T fixed h_y h_x L cfg HT Hf HNy HNx Hreport Hsnap.
  destruct (solver_run Ny Nx T fixed h_y h_x L cfg HT Hf HNy HNx Hreport Hsnap)
    as (var & k & T_f & mc & table & Hvar & Hrect & Hrun & Hpass & Hshape & _
        & _ & Hwhy & _).
  destruct (after_pass_from_before Ny Nx fixed var k T T_f mc Hf Hrect
              ltac:(lia) HNx HT Hpass)
    as (T_prev & Hprev & Hrect' & Hsweep).
  exists var, k, T_prev, T_f, mc. eexists.
  split; [exact Hvar|]. split; [exact Hrun|]. split; [exact Hprev|].
  split; [exact Hsweep|]. intros Hearly.
  assert (Hmc : (mc <? delta cfg)%float = true)
    by (destruct Hwhy as [Hmc|Hmc]; [exact Hmc|lia]).
  split; [exact Hmc|]. intros j i Hj Hi Hcell.
  destruct (sweep_spec Ny Nx fixed var T_prev Hrect' Hf Hrect ltac:(lia) HNx)
    as (T_new & Hsweep' & _).
  rewrite Hsweep in Hsweep'. injection Hsweep' as <- Hmc_eq.
  destruct (max_change_of_spec Ny Nx var T_prev T_f Hrect Hrect' Hshape)
    as [_ Hbound].
  cbv zeta in Hbound. rewrite <- Hmc_eq in Hbound.
  destruct (ltb_not_nan _ _ Hmc) as [Hnan _].
  apply (leb_ltb_trans _ mc); [|exact Hmc].
  apply Hbound; assumption.
Qed.

(** X26. The solver accepts every problem the builder makes: with
    non-zero periods it returns a grid of the builder's shape after at
    least one and at most [max(1, max_iters)] epochs. *)
Theorem solver_accepts_builder_output :
  forall (a : builder_args) (T0 : grid float) (fixed : grid bool)
         (h_y h_x l : float) (cfg : solver_config),
    build_problem_half a = Ok (T0, fixed, h_y, h_x, l) ->
    report_every cfg <> 0%Z -> snap_every cfg <> 0%Z ->
    exists T_f epochs mc trace,
      (1 <= epochs <= Z.max 1 (max_iters cfg))%Z /\
      rect (Z.to_nat (N a)) (Z.to_nat (N a / 2 + 1)) T_f /\
      forall fuel, 1 <= fuel -> Z.to_nat (max_iters cfg) <= fuel ->
        jacobi_laplace_half_with_snapshots fuel T0 fixed h_y h_x l cfg
        = Some (Ok (T_f, epochs, mc, trace)).
Proof.
  intros a T0 fixed h_y h_x l cfg Hbuild Hreport Hsnap.
  destruct (build_problem_half_inv a T0 fixed h_y h_x l Hbuild)
    as (HN & _ & _ & _ & HT & Hf & _).
  pose proof (half_width_ge_2 _ HN) as HN2.
  destruct (solver_run _ _ T0 fixed h_y h_x l cfg HT Hf ltac:(lia) ltac:(lia)
              Hreport Hsnap)
    as (var & k & T_f & mc & table & _ & _ & Hrun & _ & Hshape & _ & Hle & _).
  exists T_f, (Z.of_nat k + 1)%Z, mc. eexists.
  split; [destruct Hle as [->|Hle]; lia|]. split; [exact Hshape|].
  exact Hrun.
Qed.

(** ** What every pass keeps *)

Section Kept.
Variables (Ny Nx : nat) (fixed var : grid bool).
Hypothesis Hfixed : rect Ny Nx fixed.
Hypothesis Hvar : rect Ny Nx var.
Hypothesis HNy : 1 <= Ny.
Hypothesis HNx : 2 <= Nx.
Hypothesis Hcells : forall j i, j < Ny -> i < Nx ->
  Np.cell false var j i
  = negb (Np.cell false fixed j i) && is_interior Ny Nx j i.

(** After a sweep a free cell of the symmetry line equals its neighbour
    in column 1. *)
Lemma sweep_symmetry_line T T_new mc j :
  rect Ny Nx T -> sweep fixed var T = Ok (T_new, mc) ->
  j < Ny -> Np.cell false fixed j 0 = false ->
  Np.cell 0%float T_new j 0 = Np.cell 0%float T_new j 1.
Proof.
  intros HT Hsweep Hj Hfree.
  destruct (sweep_keeps_fixed Ny Nx fixed var Hfixed Hvar HNy HNx T T_new mc
              HT Hsweep) as (_ & _ & Hnext & _).
  rewrite !Hnext by (assumption || lia).
  unfold next_cell. rewrite Hfree. cbn [Nat.eqb].
  destruct (Np.cell false fixed j 1) eqn:Hf1; [|reflexivity].
  unfold relaxed. rewrite (Hcells j 1) by (assumption || lia).
  rewrite Hf1. cbn [negb andb]. rewrite andb_false_r. reflexivity.
Qed.

(** A sweep leaves the bottom row, the top row and the outer wall as
    they are, from column 1 on. *)
Lemma sweep_keeps_edges T T_new mc j i :
  rect Ny Nx T -> sweep fixed var T = Ok (T_new, mc) ->
  j < Ny -> 1 <= i < Nx -> j = 0 \/ j = Ny - 1 \/ i = Nx - 1 ->
  Np.cell 0%float T_new j i = Np.cell 0%float T j i.
Proof.
  intros HT Hsweep Hj Hi Hedge.
  destruct (sweep_keeps_fixed Ny Nx fixed var Hfixed Hvar HNy HNx T T_new mc
              HT Hsweep) as (_ & _ & Hnext & _).
  rewrite Hnext by (assumption || lia). unfold next_cell.
  destruct (Np.cell false fixed j i); [reflexivity|].
  replace (i =? 0) with false by (symmetry; apply Nat.eqb_neq; lia).
  unfold relaxed.
  replace (is_interior Ny Nx j i) with false; [reflexivity|].
  symmetry. apply not_true_is_false. rewrite is_interior_spec. lia.
Qed.

Lemma after_pass_keeps_edges k :
  forall T T_k mc, rect Ny Nx T ->
    after_pass k fixed var T = Ok (T_k, mc) ->
    forall j i, j < Ny -> 1 <= i < Nx ->
      j = 0 \/ j = Ny - 1 \/ i = Nx - 1 ->
      Np.cell 0%float T_k j i = Np.cell 0%float T j i.
Proof.
  induction k as [|k IH]; intros T T_k mc HT Hpass j i Hj Hi Hedge.
  - apply (sweep_keeps_edges T T_k mc); assumption.
  - cbn [after_pass] in Hpass.
    destruct (sweep fixed var T) as [[T1 mc1]|e] eqn:Hsweep; [|discriminate].
    cbn [bind] in Hpass.
    destruct (sweep_keeps_fixed Ny Nx fixed var Hfixed Hvar HNy HNx T T1 mc1
                HT Hsweep) as (HT1 & _).
    rewrite (IH T1 T_k mc HT1 Hpass j i Hj Hi Hedge).
    apply (sweep_keeps_edges T T1 mc1); assumption.
Qed.

Lemma after_pass_symmetry_line k T T_k mc j :
  rect Ny Nx T -> after_pass k fixed var T = Ok (T_k, mc) ->
  j < Ny -> Np.cell false fixed j 0 = false ->
  Np.cell 0%float T_k j 0 = Np.cell 0%float T_k j 1.
Proof.
  intros HT Hpass Hj Hfree.
  destruct (after_pass_from_before Ny Nx fixed var k T T_k mc Hfixed Hvar
              HNy HNx HT Hpass) as (T_prev & _ & Hprev & Hsweep).
  apply (sweep_symmetry_line T_prev T_k mc); assumption.
Qed.

End Kept.

(** X28. The symmetry condition holds in every grid the solver produces:
    after every pass of the loop, and in the grid that is returned, each
    cell of column 0 that is not fixed equals its neighbour in column 1. *)
Theorem symmetry_line_copies_its_neighbour :
  forall (Ny Nx : nat) (T : grid float) (fixed : grid bool),
    rect Ny Nx T -> rect Ny Nx fixed -> 1 <= Ny -> 2 <= Nx ->
    exists var,
      variable_mask fixed = Ok var /\
      (forall k, exists T_k mc,
         after_pass k fixed var T = Ok (T_k, mc) /\
         forall j, j < Ny -> Np.cell false fixed j 0 = false ->
           Np.cell 0%float T_k j 0 = Np.cell 0%float T_k j 1) /\
      (forall h_y h_x L cfg fuel T_f epochs mc trace,
         jacobi_laplace_half_with_snapshots fuel T fixed h_y h_x L cfg
         = Some (Ok (T_f, epochs, mc, trace)) ->
         forall j, j < Ny -> Np.cell false fixed j 0 = false ->
           Np.cell 0%float T_f j 0 = Np.cell 0%float T_f j 1).
Proof.
  intros Ny Nx T fixed HT Hf HNy HNx.
  destruct (variable_mask_spec Ny Nx fixed Hf HNy ltac:(lia))
    as (var & Hvar & Hrect & Hcells).
  exists var. split; [exact Hvar|]. split.
  - intros k.
    destruct (after_pass_spec Ny Nx fixed var Hf Hrect HNy HNx k T HT)
      as (T_k & mc & Hpass & _).
    exists T_k, mc. split; [exact Hpass|]. intros j Hj Hfree.
    apply (after_pass_symmetry_line Ny Nx fixed var Hf Hrect HNy HNx Hcells
             k T T_k mc); assumption.
  - intros h_y h_x L cfg fuel T_f epochs mc trace Hrun j Hj Hfree.
    unfold jacobi_laplace_half_with_snapshots in Hrun. rewrite Hvar in Hrun.
    apply solver_loop_returns_a_pass in Hrun. destruct Hrun as (k & Hpass & _).
    apply (after_pass_symmetry_line Ny Nx fixed var Hf Hrect HNy HNx Hcells
             k T T_f mc); assumption.
Qed.

(** X29. The solver never writes the bottom row, the top row or the last
    column from column 1 on, whether the mask marks them fixed or not:
    after every pass, and in the grid that is returned, these cells hold
    the values of the initial grid. *)
Theorem outer_edges_are_never_written :
  forall (Ny Nx : nat) (T : grid float) (fixed : grid bool),
    rect Ny Nx T -> rect Ny Nx fixed -> 1 <= Ny -> 2 <= Nx ->
    exists var,
      variable_mask fixed = Ok var /\
      (forall k, exists T_k mc,
         after_pass k fixed var T = Ok (T_k, mc) /\
         forall j i, j < Ny -> 1 <= i < Nx ->
           j = 0 \/ j = Ny - 1 \/ i = Nx - 1 ->
           Np.cell 0%float T_k j i = Np.cell 0%float T j i) /\
      (forall h_y h_x L cfg fuel T_f epochs mc trace,
         jacobi_laplace_half_with_snapshots fuel T fixed h_y h_x L cfg
         = Some (Ok (T_f, epochs, mc, trace)) ->
         forall j i, j < Ny -> 1 <= i < Nx ->
           j = 0 \/ j = Ny - 1 \/ i = Nx - 1 ->
           Np.cell 0%float T_f j i = Np.cell 0%float T j i).
Proof.
  intros Ny Nx T fixed HT Hf HNy HNx.
  destruct (variable_mask_spec Ny Nx fixed Hf HNy ltac:(lia))
    as (var & Hvar & Hrect & Hcells).
  exists var. split; [exact Hvar|]. split.
  - intros k.
    destruct (after_pass_spec Ny Nx fixed var Hf Hrect HNy HNx k T HT)
      as (T_k & mc & Hpass & _).
    exists T_k, mc. split; [exact Hpass|].
    apply (after_pass_keeps_edges Ny Nx fixed var Hf Hrect HNy HNx k T T_k mc);
      assumption.
  - intros h_y h_x L cfg fuel T_f epochs mc trace Hrun.
    unfold jacobi_laplace_half_with_snapshots in Hrun. rewrite Hvar in Hrun.
    apply solver_loop_returns_a_pass in Hrun. destruct Hrun as (k & Hpass & _).
    apply (after_pass_keeps_edges Ny Nx fixed var Hf Hrect HNy HNx k T T_f mc);
      assumption.
Qed.

(** ** Two thresholds *)

Lemma SFltb_leb_trans x y z :
  SFltb x y = true -> SFleb y z = true -> SFltb x z = true.
Proof.
  unfold SFleb, SFltb.
  destruct x as [sx|sx| |sx mx ex], y as [sy|sy| |sy my ey],
    z as [sz|sz| |sz mz ez];
    try destruct sx; try destruct sy; try destruct sz; cbn;
    try discriminate; try reflexivity; order_cases.
Qed.

Lemma ltb_leb_trans (x y z : float) :
  (x <? y)%float = true -> (y <=? z)%float = true -> (x <? z)%float = true.
Proof. rewrite !leb_spec, !ltb_spec. apply SFltb_leb_trans. Qed.

(** X30. Two runs on the same grid and mask with the same cap go through
    the same passes, and the one with the looser threshold (the larger
    [delta]) stops no later than the other. *)
Theorem looser_threshold_stops_no_later :
  forall (Ny Nx : nat) (T : grid float) (fixed : grid bool)
         (h_y h_x L : float) (cfg cfg' : solver_config),
    rect Ny Nx T -> rect Ny Nx fixed -> 2 <= Ny -> 2 <= Nx ->
    report_every cfg <> 0%Z -> snap_every cfg <> 0%Z ->
    report_every cfg' <> 0%Z -> snap_every cfg' <> 0%Z ->
    max_iters cfg' = max_iters cfg ->
    (delta cfg <=? delta cfg')%float = true ->
    exists var k k' T_f T_f' mc mc' trace trace',
      variable_mask fixed = Ok var /\
      (forall fuel, 1 <= fuel -> Z.to_nat (max_iters cfg) <= fuel ->
         jacobi_laplace_half_with_snapshots fuel T fixed h_y h_x L cfg
         = Some (Ok (T_f, (Z.of_nat k + 1)%Z, mc, trace)) /\
         jacobi_laplace_half_with_snapshots fuel T fixed h_y h_x L cfg'
         = Some (Ok (T_f', (Z.of_nat k' + 1)%Z, mc', trace'))) /\
      k' <= k /\
      after_pass k fixed var T = Ok (T_f, mc) /\
      after_pass k' fixed var T = Ok (T_f', mc').
Proof.
  intros Ny Nx T fixed h_y h_x L cfg cfg' HT Hf HNy HNx Hr Hs Hr' Hs' Hcap
    Hdelta.
  destruct (solver_run Ny Nx T fixed h_y h_x L cfg HT Hf HNy HNx Hr Hs)
    as (var & k & T_f & mc & table & Hvar & _ & Hrun & Hpass & _ & _ & Hle
        & Hwhy & _).
  destruct (solver_run Ny Nx T fixed h_y h_x L cfg' HT Hf HNy HNx Hr' Hs')
    as (var' & k' & T_f' & mc' & table' & Hvar' & _ & Hrun' & Hpass' & _ & _
        & Hle' & _ & Hearlier').
  rewrite Hvar in Hvar'. injection Hvar' as <-.
  exists var, k, k', T_f, T_f', mc, mc'. do 2 eexists.
  split; [exact Hvar|]. split.
  { intros fuel H1 Hfuel. split; [apply Hrun; assumption|].
    apply Hrun'; [exact H1|]. rewrite Hcap. exact Hfuel. }
  split; [|split; assumption].
  destruct (Nat.le_gt_cases k' k) as [Hok|Hlt]; [exact Hok|]. exfalso.
  destruct (Hearlier' k Hlt) as (T1 & mc1 & Hpass1 & Hnot).
  rewrite Hpass in Hpass1. injection Hpass1 as <- <-.
  destruct Hwhy as [Hmc|Hc].
  - rewrite (ltb_leb_trans _ _ _ Hmc Hdelta) in Hnot. discriminate.
  - rewrite Hcap in Hle'. destruct Hle' as [->|Hle']; lia.
Qed.

(** ** A mask of another shape than the grid *)

Lemma index_error k n e : Py.index k n = Err e -> e = IndexError.
Proof. unfold Py.index. destruct (_ && _); congruence. Qed.

Lemma set_row_error {A : Type} k (v : A) g e :
  Np.set_row k v g = Err e -> e = IndexError.
Proof.
  unfold Np.set_row. intros H. apply bind_err_inv in H.
  destruct H as [H|(? & _ & H)]; [eapply index_error; exact H|discriminate].
Qed.

Lemma set_column_error {A : Type} k (v : A) g e :
  Np.set_column k v g = Err e -> e = IndexError.
Proof.
  unfold Np.set_column. intros H. apply bind_err_inv in H.
  destruct H as [H|(? & _ & H)]; [eapply index_error; exact H|discriminate].
Qed.

(** Building the variable mask raises nothing but [IndexError]. *)
Lemma variable_mask_error fixed e :
  variable_mask fixed = Err e -> e = IndexError.
Proof.
  unfold variable_mask. intros H.
  apply bind_err_inv in H.
  destruct H as [H|(? & _ & H)]; [eapply set_column_error; exact H|].
  apply bind_err_inv in H.
  destruct H as [H|(? & _ & H)]; [eapply set_row_error; exact H|].
  apply bind_err_inv in H.
  destruct H as [H|(? & _ & H)]; [eapply set_row_error; exact H|].
  eapply set_column_error; exact H.
Qed.

Lemma same_shape_length {A B : Type} (m : grid B) (g : grid A) :
  Np.same_shape m g = true ->
  length m = length g /\
  (forall j, j < length m -> length (nth j m []) = length (nth j g [])).
Proof.
  revert g; induction m as [|mrow m IH]; intros [|row g]; cbn;
    try discriminate.
  - intros _. split; [reflexivity|]. intros j Hj. lia.
  - intros H. apply andb_prop in H. destruct H as [Hrow H].
    apply Nat.eqb_eq in Hrow. destruct (IH g H) as [Hlen Hrows].
    split; [lia|]. intros [|j] Hj; [exact Hrow|]. apply Hrows. lia.
Qed.

Lemma same_shape_mismatch {A B : Type} Ny Nx Ny' Nx' (m : grid B)
    (g : grid A) :
  rect Ny Nx m -> rect Ny' Nx' g -> 1 <= Ny ->
  Ny <> Ny' \/ Nx <> Nx' ->
  Np.same_shape m g = false.
Proof.
  intros Hm Hg HNy Hne.
  destruct (Np.same_shape m g) eqn:E; [|reflexivity]. exfalso.
  apply same_shape_length in E. destruct E as [Hlen Hrows].
  rewrite (rect_length _ _ _ Hm), (rect_length _ _ _ Hg) in Hlen.
  destruct Hne as [Hne|Hne]; [contradiction|]. subst Ny'.
  specialize (Hrows 0). rewrite (rect_length _ _ _ Hm) in Hrows.
  rewrite (rect_row Ny Nx m 0 Hm), (rect_row Ny Nx' g 0 Hg) in Hrows by lia.
  apply Hne, Hrows. lia.
Qed.

Lemma select_error {A : Type} (m : grid bool) (g : grid A) e :
  Np.select m g = Err e -> e = IndexError.
Proof. unfold Np.select. destruct (Np.same_shape m g); congruence. Qed.

Lemma assign_error {A : Type} (g : grid A) (m : grid bool) vals e :
  Np.assign g m vals = Err e -> e = IndexError.
Proof. unfold Np.assign. destruct (Np.same_shape m g); congruence. Qed.

Lemma column_error {A : Type} (d : A) k g e :
  Np.column d k g = Err e -> e = IndexError.
Proof.
  unfold Np.column. intros H. apply bind_err_inv in H.
  destruct H as [H|(? & _ & H)]; [eapply index_error; exact H|discriminate].
Qed.

Lemma set_column_from_column_error {A : Type} (d : A) k k' g col e :
  Np.column d k g = Ok col ->
  Np.set_column_from k' col g = Err e -> e = IndexError.
Proof.
  unfold Np.column, Np.set_column_from. intros Hcol H.
  bind_inv Hcol. injection Hcol as <-.
  apply bind_err_inv in H.
  destruct H as [H|(? & _ & H)]; [eapply index_error; exact H|].
  unfold Np.nrows in H. rewrite length_map, Nat.eqb_refl in H. discriminate.
Qed.

(** A sweep with a fixed mask of another shape than the grid raises
    [IndexError], at the latest where the fixed cells are restored. *)
Lemma sweep_shape_mismatch (fixed var : grid bool) (T : grid float) :
  Np.same_shape fixed T = false -> sweep fixed var T = Err IndexError.
Proof.
  intros Hshape.
  destruct (sweep fixed var T) as [[T' mc]|e] eqn:H; unfold sweep in H.
  - exfalso. do 5 bind_inv H.
    match goal with E : Np.select fixed T = Ok _ |- _ =>
      unfold Np.select in E; rewrite Hshape in E; discriminate end.
  - f_equal.
    apply bind_err_inv in H.
    destruct H as [H|(vals & _ & H)]; [eapply select_error; exact H|].
    apply bind_err_inv in H.
    destruct H as [H|(view & _ & H)]; [eapply assign_error; exact H|].
    apply bind_err_inv in H.
    destruct H as [H|(col1 & Hcol & H)]; [eapply column_error; exact H|].
    apply bind_err_inv in H.
    destruct H as [H|(T1 & _ & H)];
      [eapply set_column_from_column_error; eassumption|].
    apply bind_err_inv in H.
    destruct H as [H|(kept & Hkept & H)]; [eapply select_error; exact H|].
    unfold Np.select in Hkept. rewrite Hshape in Hkept. discriminate.
Qed.

(** X18. With a fixed mask whose shape differs from the grid's the solver
    raises [IndexError] in its first pass, at the latest where it restores
    the fixed cells. *)
Theorem solver_rejects_mask_of_another_shape :
  forall (Ny Nx Ny' Nx' : nat) (T : grid float) (fixed : grid bool)
         (h_y h_x L : float) (cfg : solver_config) (fuel : nat),
    rect Ny Nx fixed -> rect Ny' Nx' T -> Ny <> Ny' \/ Nx <> Nx' ->
    1 <= fuel ->
    jacobi_laplace_half_with_snapshots fuel T fixed h_y h_x L cfg
    = Some (Err IndexError).
Proof.
  intros Ny Nx Ny' Nx' T fixed h_y h_x L cfg fuel Hf HT Hne Hfuel.
  unfold jacobi_laplace_half_with_snapshots.
  destruct (variable_mask fixed) as [var|e] eqn:Hvar.
  2:{ apply variable_mask_error in Hvar. subst e. reflexivity. }
  assert (HNy : 1 <= Ny).
  { destruct Ny as [|Ny]; [|lia]. exfalso.
    apply rect_nil_inv in Hf. subst fixed. discriminate. }
  destruct fuel as [|fuel]; [lia|]. cbn [solver_loop]. unfold iteration.
  rewrite (sweep_shape_mismatch fixed var T); [reflexivity|].
  apply (same_shape_mismatch Ny Nx Ny' Nx'); assumption.
Qed.

(** ** The exporter *)

Lemma nth_error_flat_map_uniform {A B : Type} (f : A -> list B) (w : nat)
    (l : list A) :
  (forall x, In x l -> length (f x) = w) ->
  length (flat_map f l) = length l * w /\
  forall j i d, j < length l -> i < w ->
    nth_error (flat_map f l) (j * w + i) = nth_error (f (nth j l d)) i.
Proof.
  induction l as [|x l IH]; intros Hw.
  - split; [reflexivity|]. intros j i d Hj. cbn in Hj. lia.
  - destruct IH as [IHlen IHnth]; [intros y Hy; apply Hw; right; exact Hy|].
    pose proof (Hw x (or_introl eq_refl)) as Hx.
    split.
    + cbn [flat_map length]. rewrite length_app, IHlen, Hx. lia.
    + intros j i d Hj Hi. cbn [flat_map]. destruct j as [|j].
      * cbn [nth Nat.mul Nat.add]. apply nth_error_app1. lia.
      * rewrite nth_error_app2 by (rewrite Hx; cbn; lia).
        rewrite Hx. replace (S j * w + i - w) with (j * w + i) by (cbn; lia).
        cbn [nth]. apply IHnth; [cbn in Hj; lia|exact Hi].
Qed.

(** The table of a grid of at least two rows and two columns: one line
    per node, row by row. *)
Lemma export_spec Ny Nx (g : grid float) (L : float) :
  rect Ny Nx g -> 2 <= Ny -> 2 <= Nx ->
  let h_x := (L / Py.float_of_int (Z.of_nat Nx - 1))%float in
  let h_y := (L / Py.float_of_int (Z.of_nat Ny - 1))%float in
  exists table,
    export_structured_csv_full g L = Ok table /\
    length table = Ny * Nx /\
    forall j i, j < Ny -> i < Nx ->
      nth_error table (j * Nx + i) = Some (csv_row_at g h_x h_y j i).
Proof.
  intros Hg HNy HNx h_x h_y.
  unfold export_structured_csv_full, Py.truediv_int.
  rewrite (ncols_rect Ny Nx g Hg) by lia.
  unfold Np.nrows. rewrite (rect_length _ _ _ Hg).
  destruct (Z.eqb_spec (Z.of_nat Nx - 1) 0); [lia|].
  destruct (Z.eqb_spec (Z.of_nat Ny - 1) 0); [lia|].
  cbn [bind]. fold h_x h_y. eexists. split; [reflexivity|].
  match goal with |- context [flat_map ?f _] => set (line := f) end.
  destruct (nth_error_flat_map_uniform line Nx (seq 0 Ny)) as [Hlen Hnth].
  { intros j _. subst line. cbv beta. rewrite length_map, length_seq.
    reflexivity. }
  rewrite length_seq in *. split; [exact Hlen|].
  intros j i Hj Hi. rewrite (Hnth j i 0) by assumption.
  rewrite seq_nth by exact Hj. subst line. cbv beta. cbn [Nat.add].
  rewrite nth_error_map, nth_error_nth' with (d := 0)
    by (rewrite length_seq; exact Hi).
  rewrite seq_nth by exact Hi. reflexivity.
Qed.

(** X10. For a grid of at least two rows and two columns the exporter
    returns; its table has one line per node, row by row, and the line of
    node [(j, i)], at position [j * Nx + i], is
    [(i, j, 0, i * h_x, j * h_y, T[j, i])] with [h_x = L / (Nx - 1)] and
    [h_y = L / (Ny - 1)]. *)
Theorem export_writes_one_line_per_node :
  forall (Ny Nx : nat) (T_full : grid float) (L : float),
    rect Ny Nx T_full -> 2 <= Ny -> 2 <= Nx ->
    let h_x := (L / Py.float_of_int (Z.of_nat Nx - 1))%float in
    let h_y := (L / Py.float_of_int (Z.of_nat Ny - 1))%float in
    exists table,
      export_structured_csv_full T_full L = Ok table /\
      length table = Ny * Nx /\
      forall j i, j < Ny -> i < Nx ->
        nth_error table (j * Nx + i)
        = Some {| row_i := Z.of_nat i; row_j := Z.of_nat j; row_k := 0;
                  row_x := (Py.float_of_int (Z.of_nat i) * h_x)%float;
                  row_y := (Py.float_of_int (Z.of_nat j) * h_y)%float;
                  row_Temperature := Np.cell 0%float T_full j i |}.
Proof. intros Ny Nx T_full L. apply export_spec. Qed.

Lemma export_degenerate Ny Nx (g : grid float) (L : float) :
  rect Ny Nx g -> 1 <= Ny -> Ny = 1 \/ Nx = 1 ->
  export_structured_csv_full g L = Err ZeroDivisionError.
Proof.
  intros Hg HNy Hone. unfold export_structured_csv_full, Py.truediv_int.
  rewrite (ncols_rect Ny Nx g Hg) by lia.
  unfold Np.nrows. rewrite (rect_length _ _ _ Hg).
  destruct (Z.eqb_spec (Z.of_nat Nx - 1) 0); [reflexivity|].
  cbn [bind].
  destruct (Z.eqb_spec (Z.of_nat Ny - 1) 0); [reflexivity|]. lia.
Qed.

(** X11. The exporter returns a table exactly for the grids of at least
    two rows and two columns: on a grid of a single row or of a single
    column it raises [ZeroDivisionError], since one of its two spacings
    divides by zero. *)
Theorem export_needs_two_rows_and_columns :
  forall (Ny Nx : nat) (T_full : grid float) (L : float),
    rect Ny Nx T_full -> 1 <= Ny -> 1 <= Nx ->
    (2 <= Ny /\ 2 <= Nx ->
     exists table, export_structured_csv_full T_full L = Ok table) /\
    (Ny = 1 \/ Nx = 1 ->
     export_structured_csv_full T_full L = Err ZeroDivisionError).
Proof.
  intros Ny Nx T_full L HT HNy HNx. split.
  - intros [HNy2 HNx2]. apply (export_returns Ny Nx); assumption.
  - intros Hone. apply (export_degenerate Ny Nx); assumption.
Qed.

(** ** A grid of a single row *)

Section SingleRow.
Variables (Nx : nat) (fixed var : grid bool).
Variables (cfg : solver_config) (L : float).
Hypothesis Hfixed : rect 1 Nx fixed.
Hypothesis Hvar : rect 1 Nx var.
Hypothesis HNx : 2 <= Nx.

Lemma solver_loop_single_row (n : nat) :
  forall T epochs trace fuel,
    rect 1 Nx T -> 1 <= n -> (max_iters cfg - epochs <= Z.of_nat n)%Z ->
    n <= fuel ->
    solver_loop fuel cfg L fixed var T epochs trace
    = Some (Err ZeroDivisionError).
Proof.
  induction n as [|n IH]; intros T epochs trace fuel HT Hn Hcap Hfuel; [lia|].
  destruct fuel as [|fuel]; [lia|]. cbn [solver_loop].
  destruct (sweep_spec 1 Nx fixed var T HT Hfixed Hvar ltac:(lia) HNx)
    as (T1 & Hsweep & Hrect & _).
  assert (Hexport : export_structured_csv_full (mirror_full_from_half T1) L
                    = Err ZeroDivisionError).
  { apply (export_degenerate 1 (2 * Nx - 1)); [|lia|left; reflexivity].
    apply rect_mirror; [exact Hrect|lia]. }
  unfold iteration. rewrite Hsweep. cbn [bind]. unfold Py.mod_.
  destruct (report_every cfg =? 0)%Z; [reflexivity|]. cbn [bind].
  destruct (snap_every cfg =? 0)%Z; [reflexivity|]. cbn [bind].
  rewrite Hexport.
  destruct ((epochs + 1) mod snap_every cfg =? 0)%Z; [reflexivity|].
  cbn [bind].
  destruct ((_ <? delta cfg)%float || (max_iters cfg <=? epochs + 1)%Z)
    eqn:Hstop; [reflexivity|].
  apply orb_false_elim in Hstop. destruct Hstop as [_ Hc].
  apply IH; try assumption; lia.
Qed.

End SingleRow.

(** X17. On a grid of a single row the solver never returns a result: it
    raises [ZeroDivisionError], at the latest when it exports its final
    snapshot, whose vertical spacing divides by zero. *)
Theorem solver_rejects_single_row :
  forall (Nx : nat) (T : grid float) (fixed : grid bool)
         (h_y h_x L : float) (cfg : solver_config) (fuel : nat),
    rect 1 Nx T -> rect 1 Nx fixed -> 2 <= Nx ->
    1 <= fuel -> Z.to_nat (max_iters cfg) <= fuel ->
    jacobi_laplace_half_with_snapshots fuel T fixed h_y h_x L cfg
    = Some (Err ZeroDivisionError).
Proof.
  intros Nx T fixed h_y h_x L cfg fuel HT Hf HNx Hfuel1 Hfuel.
  destruct (variable_mask_spec 1 Nx fixed Hf ltac:(lia) ltac:(lia))
    as (var & Hvar & Hrect & _).
  unfold jacobi_laplace_half_with_snapshots. rewrite Hvar.
  apply (solver_loop_single_row Nx fixed var cfg L Hf Hrect HNx
           (Nat.max 1 (Z.to_nat (max_iters cfg)))); try assumption; lia.
Qed.

(** ** The mirror, cell by cell *)

Lemma nth_mirror_row {A : Type} (d : A) (row : list A) i :
  i < 2 * length row - 1 ->
  nth i (mirror_row row) d
  = nth (if i <? length row - 1 then length row - 1 - i
         else i - (length row - 1)) row d.
Proof.
  intros Hi. unfold mirror_row. destruct row as [|x t]; [cbn in Hi; lia|].
  cbn [tl length] in *. rewrite Nat.sub_succ, Nat.sub_0_r.
  destruct (Nat.ltb_spec i (length t)) as [Hlt|Hge].
  - rewrite app_nth1 by (rewrite length_rev; exact Hlt).
    rewrite rev_nth by exact Hlt.
    replace (length t - i) with (S (length t - S i)) by lia. reflexivity.
  - rewrite app_nth2 by (rewrite length_rev; exact Hge).
    rewrite length_rev. reflexivity.
Qed.

Lemma cell_mirror_half {A : Type} (d : A) Ny Nx (T : grid A) j i :
  rect Ny Nx T -> j < Ny -> i < 2 * Nx - 1 ->
  Np.cell d (mirror_full_from_half T) j i
  = Np.cell d T j (if i <? Nx - 1 then Nx - 1 - i else i - (Nx - 1)).
Proof.
  intros HT Hj Hi. unfold Np.cell. rewrite mirror_rows.
  change (@nil A) with (mirror_row (@nil A)) at 1. rewrite map_nth.
  pose proof (rect_row _ _ _ _ HT Hj) as Hrow.
  rewrite nth_mirror_row by (rewrite Hrow; exact Hi).
  rewrite Hrow. reflexivity.
Qed.

(** X9. The mirror, cell by cell: column [i] of the full field is column
    [|i - (Nx_half - 1)|] of the half-domain, so that the centre column is
    the symmetry line and the columns to its left are those to its right in
    reverse. *)
Theorem mirror_cell_formula :
  forall (Ny Nx_half : nat) (T_half : grid float),
    rect Ny Nx_half T_half ->
    forall j i, j < Ny -> i < 2 * Nx_half - 1 ->
      Np.cell 0%float (mirror_full_from_half T_half) j i
      = Np.cell 0%float T_half j
          (if i <? Nx_half - 1 then Nx_half - 1 - i else i - (Nx_half - 1)).
Proof.
  intros Ny Nx T HT j i Hj Hi. apply (cell_mirror_half 0%float Ny Nx);
    assumption.
Qed.

(** ** The snapshots are symmetric *)

(** X12. The table of a snapshot (the export of the mirrored half-domain)
    is symmetric about the centre column: the line of node [(j, i)] carries
    the temperature of cell [(j, |i - (Nx_half - 1)|)] of the half-domain,
    the same as the line of node [(j, W - 1 - i)]. *)
Theorem snapshot_table_is_symmetric :
  forall (Ny Nx_half : nat) (T_half : grid float) (L : float),
    rect Ny Nx_half T_half -> 2 <= Ny -> 2 <= Nx_half ->
    let W := 2 * Nx_half - 1 in
    exists table,
      export_structured_csv_full (mirror_full_from_half T_half) L = Ok table /\
      length table = Ny * W /\
      forall j i, j < Ny -> i < W ->
        option_map row_Temperature (nth_error table (j * W + i))
        = Some (Np.cell 0%float T_half j
                  (if i <? Nx_half - 1 then Nx_half - 1 - i
                   else i - (Nx_half - 1))) /\
        option_map row_Temperature (nth_error table (j * W + (W - 1 - i)))
        = option_map row_Temperature (nth_error table (j * W + i)).
Proof.
  intros Ny Nx T L HT HNy HNx W.
  assert (Hfull : rect Ny W (mirror_full_from_half T))
    by (apply rect_mirror; [exact HT|lia]).
  destruct (export_spec Ny W _ L Hfull HNy ltac:(subst W; lia))
    as (table & Hexport & Hlen & Hrows).
  exists table. split; [exact Hexport|]. split; [exact Hlen|].
  intros j i Hj Hi.
  rewrite (Hrows j i Hj Hi), (Hrows j (W - 1 - i) Hj) by lia.
  cbn [option_map csv_row_at row_Temperature]. split.
  - f_equal. apply (cell_mirror_half 0%float Ny Nx); assumption.
  - f_equal. symmetry. apply (cell_mirror 0%float Ny Nx); assumption.
Qed.

(** ** The builder, the mirror and the exporter together *)

Lemma mirrored_width (n : Z) :
  (2 <= n)%Z ->
  2 * Z.to_nat (n / 2 + 1) - 1
  = if Z.odd n then Z.to_nat n else Z.to_nat n + 1.
Proof.
  intros Hn. pose proof (Z.div_mod n 2 ltac:(lia)) as Hdm.
  rewrite Zmod_odd in Hdm. pose proof (half_width_ge_2 n Hn).
  destruct (Z.odd n); lia.
Qed.

(** X13. The full field of a problem the builder made has [N] rows and,
    for an odd [N], [N] columns; for an even [N] it has [N + 1] columns.
    The exporter accepts it and writes one line per node; for an odd [N]
    both spacings of the exported coordinates are the builder's [h_y]. *)
Theorem full_field_of_builder_output :
  forall (a : builder_args) (T : grid float) (fixed : grid bool)
         (h_y h_x l : float),
    build_problem_half a = Ok (T, fixed, h_y, h_x, l) ->
    let n := Z.to_nat (N a) in
    let W := if Z.odd (N a) then n else n + 1 in
    let T_full := mirror_full_from_half T in
    rect n W T_full /\
    exists table,
      export_structured_csv_full T_full l = Ok table /\
      length table = n * W /\
      (Z.odd (N a) = true ->
       forall j i, j < n -> i < n ->
         nth_error table (j * n + i)
         = Some (csv_row_at T_full h_y h_y j i)).
Proof.
  intros a T fixed h_y h_x l Hbuild n W T_full.
  destruct (build_problem_half_inv a T fixed h_y h_x l Hbuild)
    as (HN & Hy & _ & Hl & HT & _).
  pose proof (half_width_ge_2 _ HN) as HN2.
  assert (Hfull : rect n W T_full).
  { subst W n. rewrite <- (mirrored_width (N a) HN).
    apply rect_mirror; [exact HT|lia]. }
  split; [exact Hfull|].
  assert (HW : 2 <= W) by (subst W n; destruct (Z.odd (N a)); lia).
  destruct (export_spec n W T_full l Hfull ltac:(subst n; lia) HW)
    as (table & Hexport & Hlen & Hrows).
  exists table. split; [exact Hexport|]. split; [exact Hlen|].
  intros Hodd j i Hj Hi. subst W. rewrite Hodd in *.
  rewrite (Hrows j i Hj Hi). subst n.
  rewrite Z2Nat.id by lia. rewrite Hy, Hl. reflexivity.
Qed.

(** ** The metric and the differences at the variable cells *)

Lemma is_nan_abs (x : float) : is_nan (PrimFloat.abs x) = is_nan x.
Proof.
  rewrite !is_nan_spec, abs_spec.
  destruct (Prim2SF x) as [s|s| |s m e]; reflexivity.
Qed.

(** The metric of a sweep against the differences at the variable cells:
    it is [>= 0] when none of them is a NaN, and a NaN when one is. *)
Lemma max_change_of_nan_free Ny Nx (var : grid bool) (T T_new : grid float) :
  rect Ny Nx var -> rect Ny Nx T -> rect Ny Nx T_new ->
  let difference j i :=
    (Np.cell 0%float T_new j i - Np.cell 0%float T j i)%float in
  let mc := max_change_of var T T_new in
  ((forall j i, j < Ny -> i < Nx -> Np.cell false var j i = true ->
      is_nan (difference j i) = false) ->
   (0 <=? mc)%float = true) /\
  (forall j i, j < Ny -> i < Nx -> Np.cell false var j i = true ->
     is_nan (difference j i) = true -> is_nan mc = true).
Proof.
  intros Hv HT HT' difference mc.
  destruct (max_change_of_spec Ny Nx var T T_new Hv HT HT') as [Hmax Hle].
  cbv zeta in Hmax, Hle. subst difference mc. cbv beta. split.
  - intros Hfree.
    destruct (Np.any var) eqn:Hany.
    + destruct (Hmax eq_refl) as (j & i & Hj & Hi & Hm & Hmc).
      pose proof (max_change_of_nonneg var T T_new) as [Hnan|Hpos];
        [|exact Hpos].
      exfalso. rewrite Hmc, is_nan_abs in Hnan.
      rewrite (Hfree j i Hj Hi Hm) in Hnan. discriminate.
    + rewrite max_change_of_no_variable by exact Hany. reflexivity.
  - intros j i Hj Hi Hm Hnan.
    destruct (is_nan (max_change_of var T T_new)) eqn:Hmc; [reflexivity|].
    exfalso. pose proof (Hle eq_refl j i Hj Hi Hm) as Hbound.
    apply leb_not_nan in Hbound. destruct Hbound as [Hbound _].
    rewrite is_nan_abs, Hnan in Hbound. discriminate.
Qed.

(** C5, as the code has it. At every pass of the loop over a well-shaped
    grid, [max_change] is 0 when the variable mask has no true cell, and it
    is never negative.  With [T_prev] the grid the pass starts from and
    [T_k] the one it leaves: [max_change >= 0] when no difference
    [T_k[j, i] - T_prev[j, i]] at a variable cell is a NaN, and
    [max_change] is a NaN when one of them is.  A metric of 0 does not tell
    that no cell is variable. *)
Theorem max_change_zero_without_variables :
  forall (Ny Nx : nat) (T : grid float) (fixed var : grid bool) (k : nat),
    rect Ny Nx T -> rect Ny Nx fixed -> rect Ny Nx var ->
    1 <= Ny -> 2 <= Nx ->
    exists T_prev T_k max_change,
      grid_before_pass k fixed var T = Ok T_prev /\
      after_pass k fixed var T = Ok (T_k, max_change) /\
      (Np.any var = false -> max_change = 0%float) /\
      nonneg_or_nan max_change /\
      ((forall j i, j < Ny -> i < Nx -> Np.cell false var j i = true ->
          is_nan (Np.cell 0%float T_k j i - Np.cell 0%float T_prev j i)%float
          = false) ->
       (0 <=? max_change)%float = true) /\
      (forall j i, j < Ny -> i < Nx -> Np.cell false var j i = true ->
         is_nan (Np.cell 0%float T_k j i - Np.cell 0%float T_prev j i)%float
         = true ->
         is_nan max_change = true).
Proof.
  intros Ny Nx T fixed var k HT Hf Hv HNy HNx.
  destruct (after_pass_spec Ny Nx fixed var Hf Hv HNy HNx k T HT)
    as (T_k & mc & Hpass & Hrect & _ & Hzero & Hnonneg).
  destruct (after_pass_from_before Ny Nx fixed var k T T_k mc Hf Hv HNy HNx
              HT Hpass) as (T_prev & Hprev & Hrect' & Hsweep).
  destruct (sweep_keeps_fixed Ny Nx fixed var Hf Hv HNy HNx T_prev T_k mc
              Hrect' Hsweep) as (_ & Hmc & _).
  exists T_prev, T_k, mc.
  split; [exact Hprev|]. split; [exact Hpass|]. split; [exact Hzero|].
  split; [exact Hnonneg|].
  rewrite Hmc.
  exact (max_change_of_nan_free Ny Nx var T_prev T_k Hv Hrect' Hrect).
Qed.

(** C5, as stated, fails. In the uniform problem with an inner square of
    size zero the variable mask has true cells, and the first sweep changes
    none of them: [max_change] is 0. *)
Lemma max_change_zero_with_variables :
  exists T fixed h_y h_x l var T_new,
    build_problem_half scenario_A_point = Ok (T, fixed, h_y, h_x, l) /\
    variable_mask fixed = Ok var /\
    Np.any var = true /\
    sweep fixed var T = Ok (T_new, 0%float).
Proof.
  do 7 eexists. split; [vm_compute; reflexivity|].
  split; [vm_compute; reflexivity|].
  split; vm_compute; reflexivity.
Qed.

(** ** Binary64 subtraction, and results that stay finite

    A difference or a quotient of finite binary64 numbers whose exact value
    is below [2^1023] is a zero or a finite number: the rounding cannot
    reach an infinity.  This is what keeps the wall profile of a uniform
    problem free of NaN. *)

Section Binary64Finite.
Local Open Scope R_scope.

(** When [binary_round_aux] overflows, the rounded mantissa and its
    exponent tell why. *)
Lemma bra_overflow s s' mz ez lz x :
  (0 <= mz)%Z -> inb mz x lz ->
  binary_round_aux prec emax s mz ez lz = S754_infinity s' ->
  exists m2 e1,
    e1 = Z.max ez (fexp prec emax (Zdigits2 mz + ez)) /\
    - / 2 <= IZR m2 - x * B (ez - e1) <= / 2 /\
    ((m2 = 2 ^ 53 /\ 971 <= e1)%Z \/ (1 <= m2 /\ 972 <= e1)%Z).
Proof.
  intros Hmz Hin.
  remember (binary_round_aux prec emax s mz ez lz) as r eqn:Er.
  intros Hinf.
  unfold binary_round_aux in Er. unfold shr_fexp at 1 in Er.
  set (n1 := (fexp prec emax (Zdigits2 mz + ez) - ez)%Z) in *.
  assert (Hrec : inb_rec (shr_record_of_loc mz lz) x).
  { split; [rewrite shr_m_shr_record_of_loc; exact Hmz|].
    rewrite shr_m_shr_record_of_loc, loc_of_shr_record_of_loc. exact Hin. }
  destruct (shr_spec _ ez n1 x Hrec) as [[Hm1 Hin1] He1].
  destruct (shr (shr_record_of_loc mz lz) ez n1) as [mrs' e'].
  cbn [fst snd] in Hm1, Hin1, He1. subst e'.
  unfold shr_fexp in Er.
  change (shr_record_of_loc
            (round_nearest_even (shr_m mrs') (loc_of_shr_record mrs'))
            loc_Exact)
    with (Build_shr_record
            (round_nearest_even (shr_m mrs') (loc_of_shr_record mrs'))
            false false) in Er.
  set (m1 := shr_m mrs') in *. set (l1 := loc_of_shr_record mrs') in *.
  set (e1 := (ez + Z.max n1 0)%Z) in *.
  assert (He1 : e1 = Z.max ez (fexp prec emax (Zdigits2 mz + ez)))
    by (subst e1 n1; lia).
  assert (He1min : (-1074 <= e1)%Z)
    by (rewrite He1, fexp_unfold; lia).
  assert (He1dig : (Zdigits2 mz + ez - 53 <= e1)%Z)
    by (rewrite He1, fexp_unfold; lia).
  replace (- Z.max n1 0)%Z with (ez - e1)%Z in Hin1 by (subst e1; lia).
  destruct (round_nearest_even_spec m1 _ l1 Hin1) as [Hm2 Herr].
  set (m2 := round_nearest_even m1 l1) in *.
  assert (Hm1lt : (m1 < 2 ^ 53)%Z).
  { apply lt_IZR. rewrite <- B_IZR by lia.
    pose proof (inb_bounds _ _ _ Hin1) as [Hlo _].
    pose proof (inb_bounds _ _ _ Hin) as [_ Hhi].
    pose proof (Zdigits2_upper mz Hmz) as Hd.
    pose proof (Zdigits2_nonneg mz Hmz) as Hdn.
    assert (Hx : x < B (Zdigits2 mz)).
    { rewrite B_IZR by lia. rewrite B_IZR in Hd by lia.
      apply lt_IZR in Hd.
      apply Rlt_le_trans with (IZR (mz + 1)); [rewrite plus_IZR; lra|].
      apply IZR_le. lia. }
    pose proof (B_pos (ez - e1)) as Hp.
    apply Rle_lt_trans with (x * B (ez - e1)); [exact Hlo|].
    apply Rlt_le_trans with (B (Zdigits2 mz) * B (ez - e1)); [nra|].
    rewrite <- B_add. apply B_le. lia. }
  exists m2, e1. split; [exact He1|]. split; [exact Herr|].
  destruct (Z.eq_dec m2 (2 ^ 53)) as [Heq|Hne].
  - left. split; [exact Heq|].
    rewrite Heq in *. change (Zdigits2 (2 ^ 53)) with 54%Z in Er.
    replace (fexp prec emax (54 + e1) - e1)%Z with 1%Z in Er
      by (rewrite fexp_unfold; lia).
    change (2 ^ 53)%Z with 9007199254740992%Z in *.
    cbn [shr SpecFloat.iter_pos shr_1 shr_m] in Er.
    destruct (Z.leb_spec (e1 + 1) (emax - prec)) as [Hle|Hgt];
      [subst r; discriminate|].
    change (emax - prec)%Z with 971%Z in Hgt. lia.
  - right.
    assert (Hm2lt : (m2 < 2 ^ 53)%Z) by lia.
    assert (Hdig : (Zdigits2 m2 <= 53)%Z).
    { apply Zdigits2_le; [lia|lia|]. rewrite B_IZR by lia.
      apply IZR_lt. exact Hm2lt. }
    assert (Hn3 : (fexp prec emax (Zdigits2 m2 + e1) - e1 <= 0)%Z)
      by (rewrite fexp_unfold; lia).
    destruct (fexp prec emax (Zdigits2 m2 + e1) - e1)%Z as [|p|p] eqn:En3;
      [| lia |]; cbn [shr shr_m] in Er.
    + destruct m2 as [|p2|p2]; [subst r; discriminate| |lia].
      destruct (Z.leb_spec e1 (emax - prec)) as [Hle|Hgt];
        [subst r; discriminate|].
      change (emax - prec)%Z with 971%Z in Hgt. lia.
    + destruct m2 as [|p2|p2]; [subst r; discriminate| |lia].
      destruct (Z.leb_spec e1 (emax - prec)) as [Hle|Hgt];
        [subst r; discriminate|].
      change (emax - prec)%Z with 971%Z in Hgt. lia.
Qed.

Lemma B_1023_split : B 1023 = B 52 * B 971.
Proof. rewrite <- B_add. reflexivity. Qed.

(** No overflow below [2^1023]. *)
Lemma bra_no_overflow s s' mz ez lz x :
  (0 <= mz)%Z -> inb mz x lz ->
  (ez <= fexp prec emax (Zdigits2 mz + ez) \/ ez <= 971)%Z ->
  x * B ez < B 1023 ->
  binary_round_aux prec emax s mz ez lz <> S754_infinity s'.
Proof.
  intros Hmz Hin Hez Hx Hinf.
  destruct (bra_overflow s s' mz ez lz x Hmz Hin Hinf)
    as (m2 & e1 & He1 & Herr & Hcase).
  pose proof (B_pos ez) as Hpez. pose proof (B_pos e1) as Hpe1.
  pose proof (B_pos (ez - e1)) as Hpd.
  pose proof (inb_bounds _ _ _ Hin) as [Hlo _].
  assert (Hscale : x * B (ez - e1) * B e1 = x * B ez).
  { rewrite Rmult_assoc, <- B_add. f_equal. f_equal. lia. }
  (* the value is at least half of [m2 * 2^e1] *)
  assert (Hhalf : forall k, (1 <= k)%Z -> (k <= m2)%Z ->
                    IZR k / 2 * B e1 <= x * B ez).
  { intros k Hk1 Hk. rewrite <- Hscale.
    apply Rmult_le_compat_r; [lra|].
    apply IZR_le in Hk. apply IZR_le in Hk1. lra. }
  destruct Hcase as [[Hm2 He]|[Hm2 He]].
  - pose proof (Hhalf (2 ^ 53)%Z ltac:(lia) ltac:(lia)) as H.
    rewrite <- (B_IZR 53) in H by lia.
    pose proof (B_le 971 e1 He) as Hle.
    rewrite B_1023_split in Hx.
    replace (B 53) with (2 * B 52) in H
      by (change 53%Z with (52 + 1)%Z; rewrite B_succ; reflexivity).
    pose proof (B_pos 52). nra.
  - (* the exponent is that of a mantissa of too many digits *)
    rewrite fexp_unfold in He1, Hez.
    assert (Hd : (1025 <= Zdigits2 mz + ez)%Z) by lia.
    assert (Hmz0 : (0 < mz)%Z).
    { destruct (Z.eq_dec mz 0) as [->|]; [|lia].
      cbn [Zdigits2] in Hd, He1, Hez. lia. }
    pose proof (Zdigits2_lower mz Hmz0) as Hl.
    assert (Hv : B (Zdigits2 mz - 1 + ez) <= x * B ez).
    { rewrite B_add. apply Rmult_le_compat_r; lra. }
    pose proof (B_le 1023 (Zdigits2 mz - 1 + ez) ltac:(lia)). lra.
Qed.

Lemma shl_align_spec mx ex ex' :
  F2R (fst (shl_align mx ex ex')) (snd (shl_align mx ex ex')) = F2R mx ex /\
  snd (shl_align mx ex ex') = Z.min ex ex'.
Proof.
  unfold shl_align. destruct (ex' - ex)%Z as [|d|d] eqn:Ed; cbn [fst snd].
  - split; [reflexivity|lia].
  - split; [reflexivity|lia].
  - split; [|lia].
    change (PosDef.Pos.iter xO mx d) with (shift_pos d mx).
    unfold F2R. rewrite shift_pos_correct, mult_IZR, Z.pow_pos_fold.
    replace ex with (ex' + Z.pos d)%Z by lia.
    rewrite B_add, <- B_IZR by lia. lra.
Qed.

(** The rounding of the positive number [m * 2^e] below [2^1023]: a zero
    or a finite number within half a unit in the last place, that unit
    being at most [2^-52] of the number unless it is the smallest one. *)
Lemma binary_round_spec s m e :
  F2R m e < B 1023 ->
  let r := binary_round prec emax s m e in
  exists e1,
    (B e1 <= F2R m e * B (-52) \/ B e1 <= B (-1074)) /\
    ((r = S754_zero s /\ F2R m e <= B e1 / 2) \/
     exists m' e', r = S754_finite s m' e' /\
                   - (B e1 / 2) <= F2R m' e' - F2R m e <= B e1 / 2).
Proof.
  intros HV r. subst r. unfold binary_round.
  set (dp := Zpos (digits2_pos m)).
  destruct (shl_align_spec m e (fexp prec emax (dp + e))) as [Hval Hexp].
  destruct (shl_align m e (fexp prec emax (dp + e))) as [mz ez].
  cbn [fst snd] in Hval, Hexp.
  assert (Hin : inb (Zpos mz) (IZR (Zpos mz)) loc_Exact) by reflexivity.
  assert (Hez : (ez <= fexp prec emax dp + e)%Z -> True) by trivial.
  pose proof (proj1 (digits_bounds m)) as Hdm. fold dp in Hdm.
  pose proof (B_pos e) as Hpe.
  assert (Hlow : B (dp - 1 + e) <= F2R m e).
  { rewrite B_add. unfold F2R. apply Rmult_le_compat_r; lra. }
  assert (Hdp : (dp + e <= 1023)%Z).
  { destruct (Z_le_gt_dec (dp + e) 1023) as [H|H]; [exact H|].
    pose proof (B_le 1023 (dp - 1 + e) ltac:(lia)). lra. }
  assert (Hez971 : (ez <= 971)%Z) by (rewrite Hexp, fexp_unfold; lia).
  assert (Hno : forall s', binary_round_aux prec emax s (Zpos mz) ez loc_Exact
                           <> S754_infinity s').
  { intros s'. apply (bra_no_overflow s s' (Zpos mz) ez loc_Exact
                        (IZR (Zpos mz))); [lia|exact Hin|right; exact Hez971|].
    unfold F2R in Hval. rewrite Hval. exact HV. }
  destruct (bra_spec s (Zpos mz) ez loc_Exact _ ltac:(lia) Hin)
    as (m2 & e1 & Hm2 & He1 & Herr & Hres).
  exists e1.
  pose proof (B_pos e1) as Hpe1. pose proof (B_pos ez) as Hpez.
  pose proof (B_pos (-52)) as Hp52.
  assert (Hscaled : IZR (Zpos mz) * B (ez - e1) = F2R m e / B e1).
  { rewrite B_sub_mul. rewrite <- Hval. unfold F2R. field. lra. }
  rewrite Hscaled in Herr.
  assert (Hclose : - (B e1 / 2) <= IZR m2 * B e1 - F2R m e <= B e1 / 2).
  { assert (Hmul : IZR m2 * B e1 - F2R m e
                   = (IZR m2 - F2R m e / B e1) * B e1) by (field; lra).
    rewrite !Hmul. set (z := IZR m2 - F2R m e / B e1) in *.
    clearbody z. split; nra. }
  split.
  - (* the unit in the last place *)
    assert (Hbez : B ez <= F2R m e * B (-52) \/ B ez <= B (-1074)).
    { rewrite fexp_unfold in Hexp.
      destruct (Z_le_gt_dec ez (dp + e - 53)) as [H|H].
      - left. apply Rle_trans with (B (dp - 1 + e + -52)); [apply B_le; lia|].
        rewrite (B_add (dp - 1 + e)). nra.
      - right. apply B_le. lia. }
    rewrite He1, fexp_unfold.
    destruct (Z.max_spec ez (Z.max (Zdigits2 (Zpos mz) + ez - 53) (-1074)))
      as [[_ ->]|[_ ->]]; [|exact Hbez].
    destruct (Z.max_spec (Zdigits2 (Zpos mz) + ez - 53) (-1074))
      as [[_ ->]|[_ ->]]; [right; lra|].
    left. cbn [Zdigits2].
    replace (Z.pos (digits2_pos mz) + ez - 53)%Z
      with ((Z.pos (digits2_pos mz) - 1) + (ez + -52))%Z by lia.
    rewrite !B_add. pose proof (proj1 (digits_bounds mz)).
    pose proof (B_pos (Z.pos (digits2_pos mz) - 1)).
    unfold F2R at 1 in Hval.
    assert (B (Z.pos (digits2_pos mz) - 1) * B ez <= F2R m e)
      by (rewrite <- Hval; nra).
    nra.
  - destruct Hres as [[Hres Hzero]|[Hres|(m' & e' & Hres & Hm)]].
    + left. split; [exact Hres|]. subst m2. lra.
    + exfalso. exact (Hno s Hres).
    + right. exists m', e'. split; [exact Hres|].
      unfold F2R at 1 3. rewrite Hm. exact Hclose.
Qed.

(** A finite number the format holds: its mantissa has at most 53 bits
    and its exponent lies in [-1074, 971]. *)
Lemma valid_finite_bounds s m e :
  valid_binary (S754_finite s m e) = true ->
  IZR (Zpos m) < B 53 /\ (Zpos m < 2 ^ 53)%Z /\ (-1074 <= e <= 971)%Z.
Proof.
  unfold valid_binary, bounded, canonical_mantissa. intros H.
  apply andb_prop in H. destruct H as [H1 H2].
  apply Z.eqb_eq in H1. apply Z.leb_le in H2.
  change (emax - prec)%Z with 971%Z in H2.
  rewrite fexp_unfold in H1.
  pose proof (digits2_pos_bounds m) as [_ Hd].
  assert (Hlt : (Zpos m < 2 ^ 53)%Z).
  { apply Z.lt_le_trans with (2 ^ Zpos (digits2_pos m))%Z; [exact Hd|].
    apply Z.pow_le_mono_r; lia. }
  split; [|split; [exact Hlt|lia]].
  rewrite B_IZR by lia. apply IZR_lt. exact Hlt.
Qed.

End Binary64Finite.

Section Binary64Difference.
Local Open Scope R_scope.

(** A difference of two positive finite numbers whose exact value [V] is
    below [2^1023] in size: a zero when [V] is, and otherwise a zero or a
    finite number within half a unit in the last place of [|V|]. *)
Lemma SFsub_finite_spec mx ex my ey :
  let V := F2R mx ex - F2R my ey in
  Rabs V < B 1023 ->
  let r := SFsub prec emax (S754_finite false mx ex)
             (S754_finite false my ey) in
  (V = 0 /\ r = S754_zero false) \/
  exists e1,
    (B e1 <= Rabs V * B (-52) \/ B e1 <= B (-1074)) /\
    ((exists s, r = S754_zero s /\ Rabs V <= B e1 / 2) \/
     exists s m e, r = S754_finite s m e /\
                   - (B e1 / 2) <= F2R m e - Rabs V <= B e1 / 2).
Proof.
  intros V HV r. subst r. unfold SFsub. cbn [cond_Zopp].
  set (ez := IntDef.Z.min ex ey).
  assert (Hez : ez = Z.min ex ey) by reflexivity.
  destruct (shl_align_spec mx ex ez) as [Hvx Hex].
  destruct (shl_align_spec my ey ez) as [Hvy Hey].
  replace (snd (shl_align mx ex ez)) with ez in Hvx by lia.
  replace (snd (shl_align my ey ez)) with ez in Hvy by lia.
  set (mx' := fst (shl_align mx ex ez)) in *.
  set (my' := fst (shl_align my ey ez)) in *.
  pose proof (B_pos ez) as Hpez.
  assert (HM : IZR (Z.pos mx' - Z.pos my') * B ez = V).
  { rewrite minus_IZR. unfold V. rewrite <- Hvx, <- Hvy. unfold F2R. ring. }
  destruct (Z.pos mx' - Z.pos my')%Z as [|p|p] eqn:EM; cbn [binary_normalize].
  - left. split; [|reflexivity]. rewrite <- HM. ring.
  - right.
    assert (Hp : F2R p ez = Rabs V).
    { unfold F2R. rewrite HM. symmetry. apply Rabs_pos_eq.
      rewrite <- HM. apply Rmult_le_pos; [apply IZR_le; lia|lra]. }
    destruct (binary_round_spec false p ez ltac:(rewrite Hp; exact HV))
      as (e1 & Hulp & Hres).
    rewrite Hp in Hulp, Hres. exists e1. split; [exact Hulp|].
    destruct Hres as [[Hres Hb]|(m & e & Hres & Hb)].
    + left. exists false. split; assumption.
    + right. exists false, m, e. split; assumption.
  - right.
    assert (Hp : F2R p ez = Rabs V).
    { unfold F2R. rewrite <- HM.
      change (Z.neg p) with (- Z.pos p)%Z. rewrite opp_IZR.
      rewrite Rabs_left1; [ring|].
      assert (0 < IZR (Z.pos p)) by (apply IZR_lt; lia). nra. }
    destruct (binary_round_spec true p ez ltac:(rewrite Hp; exact HV))
      as (e1 & Hulp & Hres).
    rewrite Hp in Hulp, Hres. exists e1. split; [exact Hulp|].
    destruct Hres as [[Hres Hb]|(m & e & Hres & Hb)].
    + left. exists true. split; assumption.
    + right. exists true, m, e. split; assumption.
Qed.

(** The exact quotient of two finite numbers is at least the power of two
    that their numbers of digits give. *)
Lemma quotient_lower mx ex my ey :
  B (Zdigits2 (Zpos mx) + ex - (Zdigits2 (Zpos my) + ey) - 1)
  <= F2R mx ex / F2R my ey.
Proof.
  pose proof (digits_bounds mx) as [Hx1 _].
  pose proof (digits_bounds my) as [_ Hy2].
  pose proof (B_pos ex). pose proof (B_pos ey).
  pose proof (B_pos (Zpos (digits2_pos my))).
  pose proof (B_pos (Zpos (digits2_pos mx) - 1)).
  assert (0 < IZR (Zpos my)) by (apply IZR_lt; lia).
  assert (0 < IZR (Zpos mx)) by (apply IZR_lt; lia).
  cbn [Zdigits2].
  replace (Z.pos (digits2_pos mx) + ex - (Z.pos (digits2_pos my) + ey) - 1)%Z
    with ((Z.pos (digits2_pos mx) - 1 + ex)
          - (Z.pos (digits2_pos my) + ey))%Z by lia.
  rewrite B_sub_mul, !B_add. unfold F2R.
  set (a := B (Z.pos (digits2_pos mx) - 1) * B ex).
  set (b := B (Z.pos (digits2_pos my)) * B ey).
  set (X := IZR (Zpos mx) * B ex). set (Y := IZR (Zpos my) * B ey).
  assert (0 < a) by (unfold a; nra).
  assert (0 < b) by (unfold b; nra).
  assert (0 < Y) by (unfold Y; nra).
  assert (a <= X) by (unfold a, X; nra).
  assert (Y <= b) by (unfold Y, b; nra).
  apply Rmult_le_reg_r with (b * Y); [nra|].
  replace (a / b * (b * Y)) with (a * Y) by (field; lra).
  replace (X / Y * (b * Y)) with (X * b) by (field; lra).
  nra.
Qed.

(** A quotient of finite numbers whose exact value is below [2^1023] is
    not an infinity. *)
Lemma SFdiv_no_overflow sx mx ex sy my ey s' :
  F2R mx ex / F2R my ey < B 1023 ->
  SFdiv prec emax (S754_finite sx mx ex) (S754_finite sy my ey)
  <> S754_infinity s'.
Proof.
  intros HV. unfold SFdiv.
  pose proof (div_core_spec mx ex my ey) as Hcore.
  destruct (SFdiv_core_binary prec emax (Zpos mx) ex (Zpos my) ey)
    as [[mz ez] lz].
  destruct Hcore as (Hmz & Hin & Hez).
  apply (bra_no_overflow _ _ _ _ _ _ Hmz Hin).
  - right. rewrite fexp_unfold in Hez.
    pose proof (quotient_lower mx ex my ey) as Hlow.
    set (D := (Zdigits2 (Zpos mx) + ex - (Zdigits2 (Zpos my) + ey))%Z) in *.
    assert (HD : (D <= 1023)%Z).
    { destruct (Z_le_gt_dec D 1023) as [H|H]; [exact H|].
      pose proof (B_le 1023 (D - 1) ltac:(lia)). lra. }
    lia.
  - rewrite Rmult_assoc, <- B_add.
    replace (- ez + ez)%Z with 0%Z by lia. rewrite B_0, Rmult_1_r. exact HV.
Qed.

Lemma F2R_one : F2R 4503599627370496 (-52) = 1.
Proof.
  unfold F2R. change (-52)%Z with (- (52))%Z.
  rewrite B_opp, (B_IZR 52) by lia.
  change (2 ^ 52)%Z with 4503599627370496%Z. field.
Qed.

Lemma B_m54 : B (-54) = B (-53) / 2.
Proof.
  replace (-54)%Z with (-53 + -1)%Z by lia. rewrite B_add, B_m1. lra.
Qed.

(** The order of two positive finite numbers is that of their exponents,
    then of their mantissas. *)
Lemma SFltb_finite_inv m e m' e' :
  SFltb (S754_finite false m e) (S754_finite false m' e') = true ->
  (e < e')%Z \/ (e = e' /\ Zpos m < Zpos m')%Z.
Proof.
  unfold SFltb, SFcompare.
  destruct (Z.compare_spec e e') as [->|Hlt|Hgt]; intros H.
  - right. split; [reflexivity|].
    change (Pos.compare_cont Eq m m') with (Pos.compare m m') in H.
    destruct (Pos.compare_spec m m'); try discriminate. lia.
  - left. exact Hlt.
  - discriminate.
Qed.

(** A positive finite number of the format that is below one is below it
    by [2^-53] at least. *)
Lemma below_one_gap m e :
  valid_binary (S754_finite false m e) = true ->
  SFltb (S754_finite false m e) (S754_finite false 4503599627370496 (-52))
  = true ->
  F2R m e <= 1 - B (-53).
Proof.
  intros Hvalid Hlt.
  destruct (valid_finite_bounds _ _ _ Hvalid) as (_ & Hm & He).
  apply SFltb_finite_inv in Hlt.
  assert (Hcase : (e <= -53)%Z
                  \/ (e = -52 /\ Zpos m <= 4503599627370496 - 1)%Z) by lia.
  clear Hlt.
  unfold F2R.
  destruct Hcase as [He'|[-> Hm']].
  - apply Rle_trans with (IZR (2 ^ 53 - 1) * B e).
    + apply Rmult_le_compat_r; [pose proof (B_pos e); lra|].
      apply IZR_le. lia.
    + apply Rle_trans with (IZR (2 ^ 53 - 1) * B (-53)).
      * apply Rmult_le_compat_l; [apply IZR_le; lia|apply B_le; exact He'].
      * rewrite minus_IZR, <- (B_IZR 53) by lia.
        rewrite Rmult_minus_distr_r, <- B_add.
        change (53 + -53)%Z with 0%Z. rewrite B_0. lra.
  - apply Rle_trans with (IZR (4503599627370496 - 1) * B (-52)).
    + apply Rmult_le_compat_r; [pose proof (B_pos (-52)); lra|].
      apply IZR_le. exact Hm'.
    + rewrite minus_IZR. rewrite Rmult_minus_distr_r.
      fold (F2R 4503599627370496 (-52)). rewrite F2R_one.
      rewrite B_m52. pose proof (B_pos (-53)). lra.
Qed.

(** The arithmetic behind the wall of a uniform problem: the quotient of a
    rounded difference of size at most one by a rounded difference of at
    least [2^-53] stays below [2^1023]. *)
Lemma wall_quotient_arith (X Y a b u d E1 E2 : R) :
  0 < u <= / 1000 -> 0 < d <= u / 8 ->
  0 < X <= 1 -> 0 < Y <= 1 - u ->
  0 < a -> a - Rabs (X - Y) <= E1 / 2 ->
  (E1 <= Rabs (X - Y) * (2 * u) \/ E1 <= d) ->
  0 < b -> - (E2 / 2) <= b - (1 - Y) ->
  (E2 <= (1 - Y) * (2 * u) \/ E2 <= d) ->
  a <= 2 /\ u / 2 <= b.
Proof.
  intros Hu Hd HX HY Ha Haerr HE1 Hb Hberr HE2.
  assert (Habs : Rabs (X - Y) <= 1).
  { unfold Rabs. destruct (Rcase_abs (X - Y)); lra. }
  pose proof (Rabs_pos (X - Y)) as Hpos.
  split.
  - destruct HE1; nra.
  - destruct HE2; nra.
Qed.

End Binary64Difference.

(** One cell of the wall of a uniform problem of length 1 and
    temperature 50, at a height [y <= 1] and for a bath level strictly
    between 0 and 1: the profile adds a zero to the temperature. *)
Lemma uniform_wall_cell (y y0 : float) (my : positive) (ey : Z) :
  Prim2SF y = S754_finite false my ey -> (F2R my ey <= 1)%R ->
  (0 <? y0)%float = true -> (y0 <? 1)%float = true ->
  (50 + (50 - 50) * ((y - y0) / (1 - y0)))%float = 50%float.
Proof.
  intros Hy HX H0 H1.
  change (50 - 50)%float with 0%float.
  pose proof (Prim2SF_valid y0) as Hvalid.
  rewrite ltb_spec in H0, H1.
  change (Prim2SF 0%float) with (S754_zero false) in H0.
  change (Prim2SF 1%float)
    with (S754_finite false 4503599627370496 (-52)) in H1.
  apply float_ext.
  rewrite add_spec, mul_spec, FloatAxioms.div_spec, !sub_spec, Hy.
  change (Prim2SF 0%float) with (S754_zero false).
  change (Prim2SF 1%float) with (S754_finite false 4503599627370496 (-52)).
  change (Prim2SF 50%float) with (S754_finite false 7036874417766400 (-47)).
  destruct (Prim2SF y0) as [s|s| |s m0 e0];
    [destruct s; discriminate|destruct s; discriminate|discriminate|].
  destruct s; [discriminate|].
  pose proof (below_one_gap m0 e0 Hvalid H1) as HY.
  pose proof (F2R_pos m0 e0) as HYpos.
  pose proof (F2R_pos my ey) as HXpos.
  pose proof B_m53_small as Hu. pose proof (B_pos (-1074)) as Hdpos.
  assert (Hd : (B (-1074) <= B (-53) / 8)%R).
  { replace (B (-53) / 8)%R with (B (-56)).
    - apply B_le. lia.
    - replace (-56)%Z with (-53 + -3)%Z by lia. rewrite B_add.
      change (-3)%Z with (- (3))%Z. rewrite B_opp, (B_IZR 3) by lia.
      change (2 ^ 3)%Z with 8%Z. lra. }
  assert (H1023 : (B 55 < B 1023)%R) by (apply B_lt; lia).
  (* the denominator *)
  pose proof (SFsub_finite_spec 4503599627370496 (-52) m0 e0) as Hden.
  cbv zeta in Hden. rewrite F2R_one in Hden.
  assert (Habs2 : Rabs (1 - F2R m0 e0) = (1 - F2R m0 e0)%R)
    by (apply Rabs_pos_eq; lra).
  rewrite Habs2 in Hden.
  specialize (Hden ltac:(pose proof (B_ge_1 1023 ltac:(lia)); lra)).
  (* the numerator *)
  pose proof (SFsub_finite_spec my ey m0 e0) as Hnum.
  cbv zeta in Hnum.
  assert (Habs1 : (Rabs (F2R my ey - F2R m0 e0) < 1)%R).
  { unfold Rabs. destruct (Rcase_abs (F2R my ey - F2R m0 e0)); lra. }
  specialize (Hnum ltac:(pose proof (B_ge_1 1023 ltac:(lia)); lra)).
  unfold SF64add, SF64mul, SF64div, SF64sub.
  destruct Hden as [[Hz _]|(E2 & HE2 & Hden)]; [exfalso; lra|].
  destruct Hden as [(s2 & _ & Hb)|(s2 & m2 & e2 & -> & Hberr)].
  { exfalso. pose proof (B_pos E2). rewrite B_m52 in HE2.
    destruct HE2; nra. }
  destruct Hnum as [[_ ->]|(E1 & HE1 & Hnum)]; [reflexivity|].
  destruct Hnum as [(s1 & -> & _)|(s1 & m1 & e1 & -> & Haerr)];
    [reflexivity|].
  rewrite B_m52 in HE1, HE2.
  destruct (wall_quotient_arith (F2R my ey) (F2R m0 e0) (F2R m1 e1)
              (F2R m2 e2) (B (-53)) (B (-1074)) (B E1) (B E2))
    as [Ha Hb]; try lra; try assumption;
    try apply F2R_pos; try (split; [assumption|lra]).
  assert (HV : (F2R m1 e1 / F2R m2 e2 < B 1023)%R).
  { apply Rle_lt_trans with (B 55); [|exact H1023].
    pose proof (F2R_pos m2 e2) as Hbpos.
    apply Rmult_le_reg_r with (F2R m2 e2); [exact Hbpos|].
    replace (F2R m1 e1 / F2R m2 e2 * F2R m2 e2)%R with (F2R m1 e1)
      by (field; lra).
    replace (B 55) with (4 * B 53)%R.
    2:{ replace 55%Z with (53 + 1 + 1)%Z by lia. rewrite !B_succ. lra. }
    assert (Hone : (B 53 * B (-53) = 1)%R).
    { rewrite <- B_add. reflexivity. }
    pose proof (B_pos 53). nra. }
  pose proof (SFdiv_no_overflow s1 m1 e1 s2 m2 e2 (xorb s1 s2) HV) as Hno.
  destruct (SFdiv_finite_spec s1 m1 e1 s2 m2 e2)
    as [Hq|[Hq|(m & e & Hq & _)]].
  - rewrite Hq. reflexivity.
  - contradiction.
  - rewrite Hq. reflexivity.
Qed.

(** ** The uniform problem *)

Lemma nth_repeat_lt {A : Type} (v d : A) n k :
  k < n -> nth k (repeat v n) d = v.
Proof.
  revert k; induction n as [|n IH]; intros [|k] Hk; simpl; try lia;
    [reflexivity|apply IH; lia].
Qed.

Lemma cell_full {A : Type} (d v : A) Ny Nx j i :
  j < Ny -> i < Nx -> Np.cell d (Np.full Ny Nx v) j i = v.
Proof.
  intros Hj Hi. unfold Np.cell, Np.full.
  rewrite (nth_repeat_lt _ [] Ny j Hj). apply nth_repeat_lt. exact Hi.
Qed.

(** Two arrays of the same shape with the same cells are the same. *)
Lemma grid_ext {A : Type} (d : A) Ny Nx (a b : grid A) :
  rect Ny Nx a -> rect Ny Nx b ->
  (forall j i, j < Ny -> i < Nx -> Np.cell d a j i = Np.cell d b j i) ->
  a = b.
Proof.
  intros Ha Hb Hcells.
  apply (nth_ext a b [] []).
  - rewrite (rect_length _ _ _ Ha), (rect_length _ _ _ Hb). reflexivity.
  - intros j Hj. rewrite (rect_length _ _ _ Ha) in Hj.
    apply (nth_ext _ _ d d).
    + rewrite (rect_row Ny Nx a), (rect_row Ny Nx b) by assumption.
      reflexivity.
    + intros i Hi. rewrite (rect_row Ny Nx a) in Hi by assumption.
      apply Hcells; assumption.
Qed.

Lemma uniform_grid {A : Type} (d v : A) Ny Nx (g : grid A) :
  rect Ny Nx g ->
  (forall j i, j < Ny -> i < Nx -> Np.cell d g j i = v) ->
  g = Np.full Ny Nx v.
Proof.
  intros Hg Hcells. apply (grid_ext d Ny Nx); [exact Hg|apply rect_full|].
  intros j i Hj Hi. rewrite cell_full by assumption. apply Hcells; assumption.
Qed.

(** A grid that holds one value [v] everywhere, where the average of four
    [v] is [v] and [v - v] is zero, is a fixed point of the sweep, whatever
    the masks: no cell changes, and the metric is 0. *)
Lemma sweep_uniform Ny Nx (fixed var : grid bool) (v : float) :
  rect Ny Nx fixed -> rect Ny Nx var -> 1 <= Ny -> 2 <= Nx ->
  (0.25 * (v + v + v + v))%float = v ->
  PrimFloat.abs (v - v)%float = 0%float ->
  sweep fixed var (Np.full Ny Nx v) = Ok (Np.full Ny Nx v, 0%float).
Proof.
  intros Hf Hv HNy HNx Havg Hzero.
  set (T := Np.full Ny Nx v).
  assert (HT : rect Ny Nx T) by apply rect_full.
  destruct (sweep_spec Ny Nx fixed var T HT Hf Hv HNy HNx)
    as (T_new & Hsweep & Hrect & Hnext).
  assert (Hcell : forall j i, j < Ny -> i < Nx -> Np.cell 0%float T j i = v)
    by (intros j i Hj Hi; apply cell_full; assumption).
  assert (Hrelaxed : forall j i, j < Ny -> i < Nx ->
                       relaxed Ny Nx var T j i = v).
  { intros j i Hj Hi. unfold relaxed.
    destruct (is_interior Ny Nx j i) eqn:Hint; cbn [andb];
      [|apply Hcell; assumption].
    destruct (Np.cell false var j i); [|apply Hcell; assumption].
    apply is_interior_spec in Hint. unfold average_at.
    rewrite !Hcell by lia. exact Havg. }
  assert (Hnew : T_new = T).
  { apply (grid_ext 0%float Ny Nx); [exact Hrect|exact HT|].
    intros j i Hj Hi. rewrite Hnext, Hcell by assumption. unfold next_cell.
    destruct (Np.cell false fixed j i); [apply Hcell; assumption|].
    destruct (i =? 0); apply Hrelaxed; lia. }
  rewrite Hsweep, Hnew. f_equal. f_equal.
  unfold max_change_of. destruct (Np.any var); [|reflexivity].
  set (changes := Np.select_rows var (Np.abs (Np.sub T T))).
  assert (Hall : forall x, In x changes -> x = 0%float).
  { intros x Hx. apply select_rows_in in Hx.
    destruct Hx as (row & Hrow & Hx).
    destruct (In_nth _ _ [] Hrow) as (j & Hj & Ej).
    destruct (In_nth _ _ 0%float Hx) as (i & Hi & Ei).
    assert (Hd : rect Ny Nx (Np.abs (Np.sub T T)))
      by (apply rect_map; apply rect_map2; assumption).
    rewrite (rect_length _ _ _ Hd) in Hj.
    assert (Hi' : i < Nx).
    { rewrite <- Ej in Hi. rewrite (rect_row Ny Nx) in Hi; assumption. }
    rewrite <- Ei, <- Ej.
    change (nth i (nth j (Np.abs (Np.sub T T)) []) 0%float)
      with (Np.cell 0%float (Np.abs (Np.sub T T)) j i).
    rewrite (cell_change Ny Nx) by assumption.
    rewrite Hcell by assumption. exact Hzero. }
  destruct changes as [|c changes]; [reflexivity|].
  cbn [hd tl]. apply Hall. apply fold_maximum_in.
Qed.

(** [np.clip(x, 0, 1)] that is a number is 0, 1, or lies strictly between
    them. *)
Lemma clip_unit_cases (x : float) :
  is_nan (Np.clip x 0 1) = false ->
  Np.clip x 0 1 = 0%float \/ Np.clip x 0 1 = 1%float
  \/ ((0 <? Np.clip x 0 1)%float = true /\ (Np.clip x 0 1 <? 1)%float = true).
Proof.
  unfold Np.clip.
  change (is_nan 0) with false. change (is_nan 1) with false. cbv iota.
  destruct (is_nan x) eqn:Hx.
  - rewrite Hx. congruence.
  - destruct (0 <? x)%float eqn:H0.
    + rewrite Hx. destruct (x <? 1)%float eqn:H1; intros _.
      * right; right. split; assumption.
      * right; left. reflexivity.
    + intros _. left. reflexivity.
Qed.

Lemma ltb_leb (x y : float) :
  (x <? y)%float = true -> (x <=? y)%float = true.
Proof.
  rewrite ltb_spec, leb_spec. unfold SFltb, SFleb.
  destruct (SFcompare (Prim2SF x) (Prim2SF y)) as [[| |]|];
    try discriminate; reflexivity.
Qed.

Section Heights.
Local Open Scope R_scope.

Lemma F2R_quarter : F2R 4503599627370496 (-54) <= 1.
Proof.
  unfold F2R. change (-54)%Z with (- (54))%Z.
  rewrite B_opp, (B_IZR 54) by lia.
  change (2 ^ 54)%Z with 18014398509481984%Z. lra.
Qed.

Lemma F2R_half : F2R 4503599627370496 (-53) <= 1.
Proof.
  unfold F2R. change (-53)%Z with (- (53))%Z.
  rewrite B_opp, (B_IZR 53) by lia.
  change (2 ^ 53)%Z with 9007199254740992%Z. lra.
Qed.

Lemma F2R_three_quarters : F2R 6755399441055744 (-53) <= 1.
Proof.
  unfold F2R. change (-53)%Z with (- (53))%Z.
  rewrite B_opp, (B_IZR 53) by lia.
  change (2 ^ 53)%Z with 9007199254740992%Z. lra.
Qed.

End Heights.

(** The five heights of the rows of a grid of resolution 5 on a domain of
    length 1. *)
Lemma heights_of_five : Np.linspace 0 1 5 = [0; 0.25; 0.5; 0.75; 1]%float.
Proof. vm_compute. reflexivity. Qed.

(** The wall of the uniform problem of resolution 5 and length 1 holds the
    temperature 50 at every height, whatever the bath level, provided it
    is a number. *)
Lemma uniform_wall_profile (a : builder_args) :
  N a = 5%Z -> L a = 1%float ->
  T_top a = 50%float -> T_bottom a = 50%float ->
  is_nan (bath_level a) = false ->
  wall_profile a = repeat 50%float 5.
Proof.
  intros HN HL Htop Hbottom Hnan.
  unfold wall_profile, side_profile. rewrite HN, HL, Htop, Hbottom.
  change (Z.to_nat 5) with 5. rewrite heights_of_five.
  unfold bath_level in *. rewrite HL in *.
  set (raw := match bath_height a with
              | Some b => b
              | None => (bath_fraction a * 1)%float
              end) in *.
  destruct (clip_unit_cases raw Hnan) as [->|[->|[H0 H1]]].
  - vm_compute. reflexivity.
  - vm_compute. reflexivity.
  - set (y0 := Np.clip raw 0 1) in *. cbn [map repeat].
    rewrite (ltb_leb 0 y0 H0).
    rewrite (uniform_wall_cell 0.25 y0 4503599627370496 (-54)
               eq_refl F2R_quarter H0 H1).
    rewrite (uniform_wall_cell 0.5 y0 4503599627370496 (-53)
               eq_refl F2R_half H0 H1).
    rewrite (uniform_wall_cell 0.75 y0 6755399441055744 (-53)
               eq_refl F2R_three_quarters H0 H1).
    rewrite (uniform_wall_cell 1 y0 4503599627370496 (-52)
               eq_refl (Req_le _ _ F2R_one) H0 H1).
    repeat match goal with
           | |- context [if ?c then _ else _] => destruct c
           end; reflexivity.
Qed.

(** The builder's grid for the uniform problem of resolution 5 and
    length 1: when the builder returns and the bath level is a number,
    every cell holds 50. *)
Lemma uniform_builder_grid (a : builder_args) T0 fixed h_y h_x l :
  N a = 5%Z -> L a = 1%float ->
  T_top a = 50%float -> T_bottom a = 50%float -> T_inner a = 50%float ->
  init_guess a = 50%float ->
  is_nan (bath_level a) = false ->
  build_problem_half a = Ok (T0, fixed, h_y, h_x, l) ->
  T0 = Np.full 5 3 50%float /\ rect 5 3 fixed /\ l = 1%float.
Proof.
  intros HN HL Htop Hbottom Hinner Hguess Hnan Hbuild.
  pose proof (uniform_wall_profile a HN HL Htop Hbottom Hnan) as Hwall.
  destruct (build_problem_half_inv a T0 fixed h_y h_x l Hbuild)
    as (_ & _ & _ & Hl & HT & Hf & j_low & j_high & i_right & _ & Hcells & _).
  rewrite HN in HT, Hf, Hcells.
  change (Z.to_nat 5) with 5 in *. change (Z.to_nat (5 / 2 + 1)) with 3 in *.
  split; [|split; [exact Hf|congruence]].
  apply (uniform_grid 0%float 50%float 5 3 T0 HT).
  intros j i Hj Hi. rewrite Hcells by assumption.
  destruct (in_block _ _ 5 3 j i); [exact Hinner|].
  unfold boundary_cell. rewrite HN, Hwall, Htop, Hbottom, Hguess.
  change (Z.to_nat (5 / 2 + 1) - 1) with 2. change (Z.to_nat 5 - 1) with 4.
  destruct (i =? 2); [apply nth_repeat_lt; exact Hj|].
  destruct (j =? 4); [reflexivity|]. destruct (j =? 0); reflexivity.
Qed.

Lemma scenario_A_problem :
  build_problem_half scenario_A
  = Ok (Np.full 5 3 50%float, Np.full 5 3 true, 0.25%float, 0.25%float,
        1%float).
Proof. vm_compute. reflexivity. Qed.

(** The bath level has to be a number: with a bath height that is a NaN
    the wall of the uniform problem is a NaN above the bottom row, and with
    variable cells beside it the first sweep has a metric that is a NaN,
    which is below no threshold. *)
Lemma scenario_A_needs_a_bath_level :
  is_nan (bath_level scenario_A_nan_bath) = true /\
  exists T fixed h_y h_x l var T_new mc,
    build_problem_half scenario_A_nan_bath = Ok (T, fixed, h_y, h_x, l) /\
    variable_mask fixed = Ok var /\
    sweep fixed var T = Ok (T_new, mc) /\
    is_nan mc = true /\
    (mc <? delta default_config)%float = false.
Proof.
  split; [vm_compute; reflexivity|].
  do 8 eexists. split; [vm_compute; reflexivity|].
  split; [vm_compute; reflexivity|].
  split; [vm_compute; reflexivity|].
  split; vm_compute; reflexivity.
Qed.

(** C6. Scenario A: [N = 5], [L = 1], all temperatures and the initial
    guess 50, under any threshold [delta > 0].  The arguments the scenario
    leaves open are arbitrary: the size of the inner square, the bath
    height and the bath fraction of any call of the builder that returns
    and whose bath level is a number (as with the default values).
    Whatever cells are then variable, the first sweep changes none of them
    and yields [max_change = 0], and the solver returns at epoch 1 with
    the grid the builder made. *)
Theorem scenario_A_stops_at_first_epoch :
  forall (a : builder_args) (cfg : solver_config) (fuel : nat)
         (T0 : grid float) (fixed : grid bool) (h_y h_x l : float),
    N a = 5%Z -> L a = 1%float ->
    T_top a = 50%float -> T_bottom a = 50%float -> T_inner a = 50%float ->
    init_guess a = 50%float ->
    is_nan (bath_level a) = false ->
    build_problem_half a = Ok (T0, fixed, h_y, h_x, l) ->
    (0 <? delta cfg)%float = true ->
    report_every cfg <> 0%Z -> snap_every cfg <> 0%Z -> 1 <= fuel ->
    exists var trace,
      variable_mask fixed = Ok var /\
      sweep fixed var T0 = Ok (T0, 0%float) /\
      jacobi_laplace_half_with_snapshots fuel T0 fixed h_y h_x l cfg
      = Some (Ok (T0, 1%Z, 0%float, trace)).
Proof.
  intros a cfg fuel T0 fixed h_y h_x l HN HL Htop Hbottom Hinner Hguess Hnan
    Hbuild Hdelta Hreport Hsnap Hfuel.
  destruct (uniform_builder_grid a T0 fixed h_y h_x l HN HL Htop Hbottom
              Hinner Hguess Hnan Hbuild) as (-> & Hf & ->).
  destruct (variable_mask_spec 5 3 fixed Hf ltac:(lia) ltac:(lia))
    as (var & Hvar & Hrect & _).
  assert (Hsweep : sweep fixed var (Np.full 5 3 50%float)
                   = Ok (Np.full 5 3 50%float, 0%float)).
  { apply sweep_uniform; try assumption; try lia; reflexivity. }
  destruct (export_returns 5 5 (mirror_full_from_half (Np.full 5 3 50%float))
              1%float) as [table Htable]; [|lia|lia|].
  { apply (rect_mirror 5 3); [apply rect_full|lia]. }
  exists var.
  exists ((if (1 mod report_every cfg =? 0)%Z
           then [Report 1 0%float] else [])
          ++ (if (1 mod snap_every cfg =? 0)%Z
              then [Snapshot 1 table] else [])
          ++ [FinalSnapshot table]).
  split; [exact Hvar|]. split; [exact Hsweep|].
  unfold jacobi_laplace_half_with_snapshots. rewrite Hvar.
  destruct fuel as [|fuel]; [lia|]. cbn [solver_loop].
  unfold iteration. rewrite Hsweep. cbn [bind].
  change (0 + 1)%Z with 1%Z.
  rewrite !mod_ok by assumption. cbn [bind].
  rewrite Htable, Hdelta. cbn [bind orb].
  destruct (1 mod snap_every cfg =? 0)%Z; reflexivity.
Qed.

(** ** The entry point *)

(** X27. The program as [main] runs it raises nothing: the builder accepts
    the problem of resolution 241, and the solver returns after at least
    one and at most 2,000,000 epochs; the last thing it hands out is the
    final snapshot, a table of [241 * 241] lines. *)
Theorem main_returns :
  exists (epochs : Z) (last_change : float) (trace before : list event)
         (table : list csv_row),
    (1 <= epochs <= 2000000)%Z /\
    trace = before ++ [FinalSnapshot table] /\
    length table = 241 * 241 /\
    forall fuel, Z.to_nat (max_iters default_config) <= fuel ->
      main fuel = Some (Ok (epochs, last_change, trace)).
Proof.
  unfold main.
  set (a := {| N := 241; L := 9; L_inner := 3;
               T_top := 100; T_bottom := 32; T_inner := 212;
               init_guess := 90;
               bath_height := bath_height default_args;
               bath_fraction := bath_fraction default_args |}).
  set (cfg := {| delta := 0x1.0624dd2f1a9fcp-10;
                 max_iters := max_iters default_config;
                 report_every := 500; snap_every := 500 |}).
  destruct (build_problem_half_runs a ltac:(cbn; lia))
    as (T3 & f3 & _ & _ & _ & _ & Hrun).
  assert (Hsq : inner_square a (spacing_y a) (spacing_x a)
                = Ok (80, 160, 40)%Z) by (vm_compute; reflexivity).
  rewrite Hsq in Hrun. cbn [bind] in Hrun. cbv zeta in Hrun.
  rewrite Hrun.
  destruct (build_problem_half_inv a _ _ _ _ _ Hrun)
    as (_ & _ & _ & _ & HT & Hf & _).
  change (Z.to_nat (N a)) with 241 in HT, Hf.
  change (Z.to_nat (N a / 2 + 1)) with 121 in HT, Hf.
  destruct (solver_run 241 121 _ _ (spacing_y a) (spacing_x a) (L a) cfg
              HT Hf ltac:(lia) ltac:(lia)
              ltac:(cbn; lia) ltac:(cbn; lia))
    as (var & k & T_f & mc & table & _ & _ & Hloop & _ & Hshape & Htable
        & Hle & _).
  destruct (export_spec 241 241 (mirror_full_from_half T_f) (L a))
    as (table' & Htable' & Hlen & _); [|lia|lia|].
  { apply (rect_mirror 241 121); [exact Hshape|lia]. }
  rewrite Htable in Htable'. injection Htable' as <-.
  exists (Z.of_nat k + 1)%Z, mc. eexists. eexists. exists table.
  split.
  { change (max_iters cfg) with 2000000%Z in Hle.
    destruct Hle as [->|Hle]; lia. }
  split; [reflexivity|]. split; [exact Hlen|].
  intros fuel Hfuel.
  rewrite (Hloop fuel); [reflexivity| |exact Hfuel].
  change (max_iters default_config) with 2000000%Z in Hfuel. lia.
Qed.

(** ** The theorems at concrete inputs *)

Lemma rect_seven_rows_grid : rect 7 4 seven_rows_grid.
Proof. split; [reflexivity|repeat constructor]. Qed.

Lemma rect_seven_rows_fixed : rect 7 4 seven_rows_fixed.
Proof. split; [reflexivity|repeat constructor]. Qed.

Lemma rect_seven_rows_var : rect 7 4 seven_rows_var.
Proof. split; [reflexivity|repeat constructor]. Qed.

Lemma rect_sample_half : rect 2 3 sample_half.
Proof. split; [reflexivity|repeat constructor]. Qed.

Lemma seven_rows_problem :
  build_problem_half seven_rows
  = Ok (seven_rows_grid, seven_rows_fixed, 1%float, 1%float, 6%float).
Proof. vm_compute. reflexivity. Qed.

Lemma seven_rows_variable_mask :
  variable_mask seven_rows_fixed = Ok seven_rows_var.
Proof. vm_compute. reflexivity. Qed.

Lemma fixed_cells_keep_builder_values_witness :
  exists var,
    variable_mask seven_rows_fixed = Ok var /\
    (forall k, exists T_k mc,
       after_pass k seven_rows_fixed var seven_rows_grid = Ok (T_k, mc) /\
       forall j i, Np.cell false seven_rows_fixed j i = true ->
         Np.cell 0%float T_k j i = Np.cell 0%float seven_rows_grid j i) /\
    (forall cfg fuel T_f epochs mc trace,
       jacobi_laplace_half_with_snapshots fuel seven_rows_grid
         seven_rows_fixed 1 1 6 cfg
       = Some (Ok (T_f, epochs, mc, trace)) ->
       forall j i, Np.cell false seven_rows_fixed j i = true ->
         Np.cell 0%float T_f j i = Np.cell 0%float seven_rows_grid j i).
Proof.
  exact (fixed_cells_keep_builder_values seven_rows seven_rows_grid
           seven_rows_fixed 1 1 6 seven_rows_problem).
Defined.

Lemma sweep_update_rule_witness :
  exists T_new max_change,
    sweep seven_rows_fixed seven_rows_var seven_rows_grid
    = Ok (T_new, max_change) /\
    forall j i, j < 7 -> i < 4 ->
      (Np.cell false seven_rows_var j i = true ->
       Np.cell 0%float T_new j i = average_at seven_rows_grid j i) /\
      (i <> 0 -> Np.cell false seven_rows_var j i = false ->
       Np.cell 0%float T_new j i = Np.cell 0%float seven_rows_grid j i) /\
      (i = 0 -> Np.cell false seven_rows_fixed j i = false ->
       Np.cell 0%float T_new j 0 = Np.cell 0%float T_new j 1).
Proof.
  apply (sweep_update_rule 7 4 seven_rows_grid seven_rows_fixed
           seven_rows_var).
  - split; [reflexivity|repeat constructor].
  - split; [reflexivity|repeat constructor].
  - lia.
  - lia.
  - vm_compute. reflexivity.
Defined.

Lemma mirror_shape_and_symmetry_witness :
  rect 2 5 (mirror_full_from_half sample_half) /\
  Nat.odd 5 = true /\
  forall j i, j < 2 -> i < 5 ->
    Np.cell 0%float (mirror_full_from_half sample_half) j i
    = Np.cell 0%float (mirror_full_from_half sample_half) j (5 - 1 - i).
Proof.
  apply (mirror_shape_and_symmetry 2 3 sample_half).
  - split; [reflexivity|repeat constructor].
  - lia.
Defined.

Lemma solver_returns_within_max_iters_witness :
  exists var k T_f mc trace table,
    variable_mask seven_rows_fixed = Ok var /\
    (forall fuel, Z.to_nat (max_iters short_run) <= fuel ->
       jacobi_laplace_half_with_snapshots fuel seven_rows_grid
         seven_rows_fixed 1 1 6 short_run
       = Some (Ok (T_f, (Z.of_nat k + 1)%Z, mc, trace))) /\
    after_pass k seven_rows_fixed var seven_rows_grid = Ok (T_f, mc) /\
    (Z.of_nat k + 1 <= max_iters short_run)%Z /\
    ((Z.of_nat k + 1 < max_iters short_run)%Z <->
     exists k' T' mc',
       (Z.of_nat k' + 1 < max_iters short_run)%Z /\
       after_pass k' seven_rows_fixed var seven_rows_grid = Ok (T', mc') /\
       (mc' <? delta short_run)%float = true) /\
    (forall k', k' < k ->
       exists T' mc',
         after_pass k' seven_rows_fixed var seven_rows_grid = Ok (T', mc') /\
         (mc' <? delta short_run)%float = false) /\
    export_structured_csv_full (mirror_full_from_half T_f) 6 = Ok table /\
    exists before, trace = before ++ [FinalSnapshot table].
Proof.
  apply (solver_returns_within_max_iters 7 4 seven_rows_grid
           seven_rows_fixed 1 1 6 short_run).
  - split; [reflexivity|repeat constructor].
  - split; [reflexivity|repeat constructor].
  - lia.
  - lia.
  - simpl. lia.
  - simpl. lia.
  - simpl. lia.
Defined.

Lemma max_change_zero_without_variables_witness :
  (exists T_k,
     after_pass 1 (Np.full 7 4 true) (Np.full 7 4 false) seven_rows_grid
     = Ok (T_k, 0%float)) /\
  (exists T_k max_change,
     after_pass 2 seven_rows_fixed seven_rows_var seven_rows_grid
     = Ok (T_k, max_change) /\
     Np.any seven_rows_var = true /\
     (0 <=? max_change)%float = true) /\
  (exists T_k max_change,
     after_pass 0 scenario_A_point_fixed scenario_A_point_var
       unbounded_guess_grid
     = Ok (T_k, max_change) /\
     is_nan max_change = true).
Proof.
  split; [|split].
  - destruct (max_change_zero_without_variables 7 4 seven_rows_grid
                (Np.full 7 4 true) (Np.full 7 4 false) 1)
      as (T_prev & T_k & mc & _ & Hpass & Hzero & _);
      try (split; [reflexivity|repeat constructor]); try lia.
    exists T_k. rewrite <- (Hzero eq_refl). exact Hpass.
  - destruct (max_change_zero_without_variables 7 4 seven_rows_grid
                seven_rows_fixed seven_rows_var 2)
      as (T_prev & T_k & mc & Hprev & Hpass & _ & _ & Hfree & _);
      try (split; [reflexivity|repeat constructor]); try lia.
    exists T_k, mc. split; [exact Hpass|]. split; [reflexivity|].
    apply Hfree.
    vm_compute in Hprev. injection Hprev as <-.
    vm_compute in Hpass. injection Hpass as <- _.
    intros j i Hj Hi _.
    destruct j as [|[|[|[|[|[|[|j]]]]]]]; try lia;
      destruct i as [|[|[|[|i]]]]; try lia; vm_compute; reflexivity.
  - destruct (max_change_zero_without_variables 5 3 unbounded_guess_grid
                scenario_A_point_fixed scenario_A_point_var 0)
      as (T_prev & T_k & mc & Hprev & Hpass & _ & _ & _ & Hnan);
      try (split; [reflexivity|repeat constructor]); try lia.
    exists T_k, mc. split; [exact Hpass|].
    apply (Hnan 1 1); try lia; [reflexivity|].
    vm_compute in Hprev. injection Hprev as <-.
    vm_compute in Hpass. injection Hpass as <- _.
    vm_compute. reflexivity.
Defined.

Lemma scenario_A_stops_at_first_epoch_witness :
  (exists var trace,
     variable_mask scenario_A_point_fixed = Ok var /\
     Np.any var = true /\
     sweep scenario_A_point_fixed var scenario_A_point_grid
     = Ok (scenario_A_point_grid, 0%float) /\
     jacobi_laplace_half_with_snapshots 1 scenario_A_point_grid
       scenario_A_point_fixed 0.25 0.25 1 default_config
     = Some (Ok (scenario_A_point_grid, 1%Z, 0%float, trace))) /\
  (exists var trace,
     variable_mask (Np.full 5 3 true) = Ok var /\
     Np.any var = false /\
     sweep (Np.full 5 3 true) var (Np.full 5 3 50%float)
     = Ok (Np.full 5 3 50%float, 0%float) /\
     jacobi_laplace_half_with_snapshots 1 (Np.full 5 3 50%float)
       (Np.full 5 3 true) 0.25 0.25 1 default_config
     = Some (Ok (Np.full 5 3 50%float, 1%Z, 0%float, trace))).
Proof.
  split.
  - destruct (scenario_A_stops_at_first_epoch scenario_A_point
                default_config 1 scenario_A_point_grid
                scenario_A_point_fixed 0.25 0.25 1)
      as (var & trace & Hvar & Hsweep & Hrun);
      try reflexivity; try (vm_compute; reflexivity);
      try (cbn; lia); try lia.
    exists var, trace. split; [exact Hvar|].
    split; [|split; assumption].
    vm_compute in Hvar. injection Hvar as <-. reflexivity.
  - destruct (scenario_A_stops_at_first_epoch scenario_A
                default_config 1 (Np.full 5 3 50%float)
                (Np.full 5 3 true) 0.25 0.25 1)
      as (var & trace & Hvar & Hsweep & Hrun);
      try reflexivity; try (vm_compute; reflexivity);
      try (cbn; lia); try lia.
    exists var, trace. split; [exact Hvar|].
    split; [|split; assumption].
    vm_compute in Hvar. injection Hvar as <-. reflexivity.
Defined.

Lemma inner_square_block_witness :
  exists j_low j_high i_right,
    (q <- Py.truediv (L seven_rows / 2 - L_inner seven_rows / 2) 1 ;;
     Py.round q) = Ok j_low /\
    (q <- Py.truediv (L seven_rows / 2 + L_inner seven_rows / 2) 1 ;;
     Py.round q) = Ok j_high /\
    (q <- Py.truediv (L_inner seven_rows / 2) 1 ;; Py.round q)
    = Ok i_right /\
    (forall j i, j < Z.to_nat (N seven_rows) ->
       i < Z.to_nat (N seven_rows / 2 + 1) ->
       in_slice (Some j_low, Some (j_high + 1)%Z) (Z.to_nat (N seven_rows)) j
       && in_slice (Some 0%Z, Some (i_right + 1)%Z)
            (Z.to_nat (N seven_rows / 2 + 1)) i = true ->
       Np.cell 0%float seven_rows_grid j i = T_inner seven_rows /\
       Np.cell false seven_rows_fixed j i = true) /\
    (forall j i, j < Z.to_nat (N seven_rows) ->
       i < Z.to_nat (N seven_rows / 2 + 1) -> (0 <= j_low)%Z ->
       (j_low <= Z.of_nat j <= j_high)%Z -> (Z.of_nat i <= i_right)%Z ->
       Np.cell 0%float seven_rows_grid j i = T_inner seven_rows /\
       Np.cell false seven_rows_fixed j i = true).
Proof.
  exact (inner_square_block seven_rows seven_rows_grid seven_rows_fixed
           1 1 6 seven_rows_problem).
Defined.

Lemma mirror_right_half_roundtrip_witness :
  columns (Z.of_nat 3 - 1) (2 * Z.of_nat 3 - 1 - 1)
    (mirror_full_from_half sample_half) = sample_half.
Proof.
  apply (mirror_right_half_roundtrip 2 3 sample_half).
  split; [reflexivity|repeat constructor].
Defined.

Lemma scenario_A_point_problem :
  build_problem_half scenario_A_point
  = Ok (scenario_A_point_grid, scenario_A_point_fixed, 0.25%float,
        0.25%float, 1%float).
Proof. vm_compute. reflexivity. Qed.

Lemma zero_size_square_fixes_one_cell_witness :
  Py.round (L scenario_A_point / 2 / 0.25) = Ok 2%Z /\
  Np.cell 0%float scenario_A_point_grid 2 0 = T_inner scenario_A_point /\
  Np.cell false scenario_A_point_fixed 2 0 = true /\
  exists var,
    variable_mask scenario_A_point_fixed = Ok var /\
    (forall k, exists T_k mc,
       after_pass k scenario_A_point_fixed var scenario_A_point_grid
       = Ok (T_k, mc) /\
       Np.cell 0%float T_k 2 0 = T_inner scenario_A_point) /\
    (forall cfg fuel T_f epochs mc trace,
       jacobi_laplace_half_with_snapshots fuel scenario_A_point_grid
         scenario_A_point_fixed 0.25 0.25 1 cfg
       = Some (Ok (T_f, epochs, mc, trace)) ->
       Np.cell 0%float T_f 2 0 = T_inner scenario_A_point).
Proof.
  destruct (zero_size_square_fixes_one_cell scenario_A_point
              scenario_A_point_grid scenario_A_point_fixed 0.25 0.25 1
              eq_refl ltac:(simpl; lia) scenario_A_point_problem)
    as (j & Hround & _ & _ & _ & Hcell & Hfix & Hvar).
  assert (Hj : j = 2%Z).
  { vm_compute in Hround. injection Hround as <-. reflexivity. }
  subst j. split; [exact Hround|].
  split; [exact Hcell|]. split; [exact Hfix|exact Hvar].
Defined.

Lemma rect_single_column : rect 3 1 single_column.
Proof. split; [reflexivity|repeat constructor]. Qed.

Lemma rect_single_column_fixed : rect 3 1 single_column_fixed.
Proof. split; [reflexivity|repeat constructor]. Qed.

Lemma rect_single_row : rect 1 3 single_row.
Proof. split; [reflexivity|repeat constructor]. Qed.

Lemma rect_single_row_fixed : rect 1 3 single_row_fixed.
Proof. split; [reflexivity|repeat constructor]. Qed.

Lemma rect_sample_fixed : rect 2 3 sample_fixed.
Proof. split; [reflexivity|repeat constructor]. Qed.

Lemma rect_narrow_fixed : rect 2 2 narrow_fixed.
Proof. split; [reflexivity|repeat constructor]. Qed.

Lemma builder_output_shape_witness :
  (2 <= N seven_rows)%Z /\
  rect 7 4 seven_rows_grid /\ rect 7 4 seven_rows_fixed /\
  1%float = (L seven_rows / Py.float_of_int (N seven_rows - 1))%float /\
  1%float = (L seven_rows / 2 / Py.float_of_int (N seven_rows / 2))%float /\
  6%float = L seven_rows.
Proof.
  exact (builder_output_shape seven_rows seven_rows_grid seven_rows_fixed
           1 1 6 seven_rows_problem).
Defined.

Lemma builder_rejects_resolutions_below_two_witness :
  build_problem_half (with_resolution 0 default_args) = Err IndexError /\
  build_problem_half (with_resolution (-3) default_args) = Err ValueError.
Proof.
  split.
  - apply (builder_rejects_resolutions_below_two
             (with_resolution 0 default_args)). cbn. lia.
  - apply (builder_rejects_resolutions_below_two
             (with_resolution (-3) default_args)). cbn. lia.
Defined.

Lemma builder_returns_only_if_it_rounds_witness :
  (forall T fixed h_y' h_x' l,
     build_problem_half zero_length = Ok (T, fixed, h_y', h_x', l) ->
     exists j_low j_high i_right,
       inner_square zero_length 0 0 = Ok (j_low, j_high, i_right)) /\
  (forall e, inner_square zero_length 0 0 = Err e ->
             (e = ZeroDivisionError \/ e = ValueError \/ e = OverflowError)
             /\ exists e', build_problem_half zero_length = Err e') /\
  (forall a', N a' = 5%Z -> L a' = 0%float -> L_inner a' = 3%float ->
              ((exists r, build_problem_half a' = Ok r)
               <-> exists r, build_problem_half zero_length = Ok r)).
Proof.
  apply (builder_returns_only_if_it_rounds zero_length). cbn. lia.
Defined.

Lemma builder_raises_on_zero_length_witness :
  inner_square zero_length (spacing_y zero_length) (spacing_x zero_length)
  = Err ZeroDivisionError /\
  exists e, build_problem_half zero_length = Err e.
Proof.
  apply (builder_raises_on_zero_length zero_length).
  - cbn. lia.
  - reflexivity.
Defined.

Lemma builder_raises_on_non_finite_length_witness :
  inner_square infinite_length (spacing_y infinite_length)
    (spacing_x infinite_length)
  = Err ValueError /\
  exists e, build_problem_half infinite_length = Err e.
Proof.
  apply (builder_raises_on_non_finite_length infinite_length).
  - cbn. lia.
  - reflexivity.
Defined.

Lemma builder_fixed_mask_witness :
  exists j_low j_high i_right,
    inner_square seven_rows 1 1 = Ok (j_low, j_high, i_right) /\
    forall j i, j < 7 -> i < 4 ->
      Np.cell false seven_rows_fixed j i
      = (j =? 0) || (j =? 7 - 1) || (i =? 4 - 1)
        || in_block (Some j_low, Some (j_high + 1)%Z)
                    (Some 0%Z, Some (i_right + 1)%Z) 7 4 j i.
Proof.
  exact (builder_fixed_mask seven_rows seven_rows_grid seven_rows_fixed
           1 1 6 seven_rows_problem).
Defined.

Lemma builder_grid_cells_witness :
  exists j_low j_high i_right,
    inner_square seven_rows 1 1 = Ok (j_low, j_high, i_right) /\
    forall j i, j < 7 -> i < 4 ->
      Np.cell 0%float seven_rows_grid j i
      = if in_block (Some j_low, Some (j_high + 1)%Z)
                    (Some 0%Z, Some (i_right + 1)%Z) 7 4 j i
        then T_inner seven_rows
        else if i =? 4 - 1 then
          let y := nth j (Np.linspace 0%float (L seven_rows) 7) 0%float in
          if (y <=? bath_level seven_rows)%float then T_bottom seven_rows
          else (T_bottom seven_rows
                + (T_top seven_rows - T_bottom seven_rows)
                  * ((y - bath_level seven_rows)
                     / (L seven_rows - bath_level seven_rows)))%float
        else if j =? 7 - 1 then T_top seven_rows
        else if j =? 0 then T_bottom seven_rows
        else init_guess seven_rows.
Proof.
  exact (builder_grid_cells seven_rows seven_rows_grid seven_rows_fixed
           1 1 6 seven_rows_problem).
Defined.

Lemma builder_free_cells_hold_initial_guess_witness :
  Np.cell false seven_rows_fixed 1 0 = false /\
  Np.cell 0%float seven_rows_grid 1 0 = init_guess seven_rows.
Proof.
  split; [reflexivity|].
  apply (builder_free_cells_hold_initial_guess seven_rows seven_rows_grid
           seven_rows_fixed 1 1 6 seven_rows_problem 1 0).
  - cbn. lia.
  - cbn. lia.
  - reflexivity.
Defined.

Lemma mirror_cell_formula_witness :
  Np.cell 0%float (mirror_full_from_half sample_half) 1 0
  = Np.cell 0%float sample_half 1 2 /\
  Np.cell 0%float (mirror_full_from_half sample_half) 1 3
  = Np.cell 0%float sample_half 1 1.
Proof.
  split.
  - apply (mirror_cell_formula 2 3 sample_half rect_sample_half 1 0); lia.
  - apply (mirror_cell_formula 2 3 sample_half rect_sample_half 1 3); lia.
Defined.

Lemma export_writes_one_line_per_node_witness :
  exists table,
    export_structured_csv_full sample_half 6 = Ok table /\
    length table = 2 * 3 /\
    forall j i, j < 2 -> i < 3 ->
      nth_error table (j * 3 + i)
      = Some {| row_i := Z.of_nat i; row_j := Z.of_nat j; row_k := 0;
                row_x := (Py.float_of_int (Z.of_nat i)
                          * (6 / Py.float_of_int (Z.of_nat 3 - 1)))%float;
                row_y := (Py.float_of_int (Z.of_nat j)
                          * (6 / Py.float_of_int (Z.of_nat 2 - 1)))%float;
                row_Temperature := Np.cell 0%float sample_half j i |}.
Proof.
  apply (export_writes_one_line_per_node 2 3 sample_half 6).
  - exact rect_sample_half.
  - lia.
  - lia.
Defined.

Lemma export_needs_two_rows_and_columns_witness :
  (exists table, export_structured_csv_full sample_half 6 = Ok table) /\
  export_structured_csv_full single_row 6 = Err ZeroDivisionError /\
  export_structured_csv_full single_column 6 = Err ZeroDivisionError.
Proof.
  split; [|split].
  - apply (export_needs_two_rows_and_columns 2 3 sample_half 6
             rect_sample_half); lia.
  - apply (export_needs_two_rows_and_columns 1 3 single_row 6
             rect_single_row); lia.
  - apply (export_needs_two_rows_and_columns 3 1 single_column 6
             rect_single_column); lia.
Defined.

Lemma snapshot_table_is_symmetric_witness :
  exists table,
    export_structured_csv_full (mirror_full_from_half sample_half) 6
    = Ok table /\
    length table = 2 * 5 /\
    forall j i, j < 2 -> i < 5 ->
      option_map row_Temperature (nth_error table (j * 5 + i))
      = Some (Np.cell 0%float sample_half j
                (if i <? 3 - 1 then 3 - 1 - i else i - (3 - 1))) /\
      option_map row_Temperature (nth_error table (j * 5 + (5 - 1 - i)))
      = option_map row_Temperature (nth_error table (j * 5 + i)).
Proof.
  apply (snapshot_table_is_symmetric 2 3 sample_half 6).
  - exact rect_sample_half.
  - lia.
  - lia.
Defined.

Lemma full_field_of_builder_output_witness :
  rect 7 7 (mirror_full_from_half seven_rows_grid) /\
  exists table,
    export_structured_csv_full (mirror_full_from_half seven_rows_grid) 6
    = Ok table /\
    length table = 7 * 7 /\
    (Z.odd (N seven_rows) = true ->
     forall j i, j < 7 -> i < 7 ->
       nth_error table (j * 7 + i)
       = Some (csv_row_at (mirror_full_from_half seven_rows_grid) 1 1 j i)).
Proof.
  exact (full_field_of_builder_output seven_rows seven_rows_grid
           seven_rows_fixed 1 1 6 seven_rows_problem).
Defined.

Lemma variable_mask_cells_witness :
  exists var,
    variable_mask seven_rows_fixed = Ok var /\ rect 7 4 var /\
    forall j i, j < 7 -> i < 4 ->
      (Np.cell false var j i = true
       <-> Np.cell false seven_rows_fixed j i = false
           /\ 1 <= j < 7 - 1 /\ 1 <= i < 4 - 1).
Proof.
  apply (variable_mask_cells 7 4 seven_rows_fixed).
  - exact rect_seven_rows_fixed.
  - lia.
  - lia.
Defined.

Lemma solver_rejects_grids_without_cells_witness :
  variable_mask [] = Err IndexError /\
  jacobi_laplace_half_with_snapshots 3 [] [] 1 1 6 short_run
  = Some (Err IndexError).
Proof.
  apply (solver_rejects_grids_without_cells 0 0 [] [] 1 1 6 short_run 3).
  - split; [reflexivity|constructor].
  - left. reflexivity.
Defined.

Lemma solver_rejects_single_column_witness :
  jacobi_laplace_half_with_snapshots 3 single_column single_column_fixed
    1 1 6 short_run
  = Some (Err IndexError).
Proof.
  apply (solver_rejects_single_column 3 single_column single_column_fixed
           1 1 6 short_run 3).
  - exact rect_single_column.
  - exact rect_single_column_fixed.
  - lia.
  - lia.
Defined.

Lemma solver_rejects_single_row_witness :
  jacobi_laplace_half_with_snapshots 3 single_row single_row_fixed
    1 1 6 short_run
  = Some (Err ZeroDivisionError).
Proof.
  apply (solver_rejects_single_row 3 single_row single_row_fixed
           1 1 6 short_run 3).
  - exact rect_single_row.
  - exact rect_single_row_fixed.
  - lia.
  - lia.
  - cbn. lia.
Defined.

Lemma solver_rejects_mask_of_another_shape_witness :
  jacobi_laplace_half_with_snapshots 3 sample_half narrow_fixed
    1 1 6 short_run
  = Some (Err IndexError).
Proof.
  apply (solver_rejects_mask_of_another_shape 2 2 2 3 sample_half
           narrow_fixed 1 1 6 short_run 3).
  - exact rect_narrow_fixed.
  - exact rect_sample_half.
  - right. lia.
  - lia.
Defined.

Lemma zero_period_raises_witness :
  jacobi_laplace_half_with_snapshots 3 seven_rows_grid seven_rows_fixed
    1 1 6 silent_run
  = Some (Err ZeroDivisionError).
Proof.
  apply (zero_period_raises 7 4 seven_rows_grid seven_rows_fixed
           1 1 6 silent_run 3).
  - exact rect_seven_rows_grid.
  - exact rect_seven_rows_fixed.
  - lia.
  - lia.
  - lia.
  - left. reflexivity.
Defined.

Lemma cap_below_two_gives_one_pass_witness :
  exists var T_1 mc trace,
    variable_mask seven_rows_fixed = Ok var /\
    sweep seven_rows_fixed var seven_rows_grid = Ok (T_1, mc) /\
    forall fuel, 1 <= fuel ->
      jacobi_laplace_half_with_snapshots fuel seven_rows_grid
        seven_rows_fixed 1 1 6 no_budget
      = Some (Ok (T_1, 1%Z, mc, trace)).
Proof.
  apply (cap_below_two_gives_one_pass 7 4 seven_rows_grid seven_rows_fixed
           1 1 6 no_budget).
  - exact rect_seven_rows_grid.
  - exact rect_seven_rows_fixed.
  - lia.
  - lia.
  - cbn. lia.
  - cbn. lia.
  - cbn. lia.
Defined.

Lemma nonpositive_delta_runs_to_cap_witness :
  exists T_f mc trace,
    forall fuel, Z.to_nat (max_iters exact_run) <= fuel ->
      jacobi_laplace_half_with_snapshots fuel seven_rows_grid
        seven_rows_fixed 1 1 6 exact_run
      = Some (Ok (T_f, max_iters exact_run, mc, trace)).
Proof.
  apply (nonpositive_delta_runs_to_cap 7 4 seven_rows_grid seven_rows_fixed
           1 1 6 exact_run).
  - exact rect_seven_rows_grid.
  - exact rect_seven_rows_fixed.
  - lia.
  - lia.
  - cbn. lia.
  - cbn. lia.
  - cbn. lia.
  - reflexivity.
Defined.

Lemma max_change_is_the_largest_change_witness :
  exists T_new max_change,
    sweep seven_rows_fixed seven_rows_var seven_rows_grid
    = Ok (T_new, max_change) /\
    (Np.any seven_rows_var = true ->
     exists j i, j < 7 /\ i < 4 /\ Np.cell false seven_rows_var j i = true
                 /\ max_change = change_at seven_rows_grid T_new j i) /\
    (is_nan max_change = false ->
     forall j i, j < 7 -> i < 4 -> Np.cell false seven_rows_var j i = true ->
       (change_at seven_rows_grid T_new j i <=? max_change)%float = true).
Proof.
  apply (max_change_is_the_largest_change 7 4 seven_rows_grid
           seven_rows_fixed seven_rows_var).
  - exact rect_seven_rows_grid.
  - exact rect_seven_rows_fixed.
  - exact rect_seven_rows_var.
  - lia.
  - lia.
Defined.

Lemma converged_run_changes_below_delta_witness :
  exists var k T_prev T_f mc trace,
    variable_mask seven_rows_fixed = Ok var /\
    (forall fuel, 1 <= fuel -> Z.to_nat (max_iters short_run) <= fuel ->
       jacobi_laplace_half_with_snapshots fuel seven_rows_grid
         seven_rows_fixed 1 1 6 short_run
       = Some (Ok (T_f, (Z.of_nat k + 1)%Z, mc, trace))) /\
    grid_before_pass k seven_rows_fixed var seven_rows_grid = Ok T_prev /\
    sweep seven_rows_fixed var T_prev = Ok (T_f, mc) /\
    ((Z.of_nat k + 1 < max_iters short_run)%Z ->
     (mc <? delta short_run)%float = true /\
     forall j i, j < 7 -> i < 4 -> Np.cell false var j i = true ->
       (change_at T_prev T_f j i <? delta short_run)%float = true).
Proof.
  apply (converged_run_changes_below_delta 7 4 seven_rows_grid
           seven_rows_fixed 1 1 6 short_run).
  - exact rect_seven_rows_grid.
  - exact rect_seven_rows_fixed.
  - lia.
  - lia.
  - cbn. lia.
  - cbn. lia.
Defined.

Lemma solver_trace_witness :
  exists var k T_f mc table,
    variable_mask seven_rows_fixed = Ok var /\
    (forall k', exists T' mc' table',
       after_pass k' seven_rows_fixed var seven_rows_grid = Ok (T', mc') /\
       export_structured_csv_full (mirror_full_from_half T') 6 = Ok table') /\
    after_pass k seven_rows_fixed var seven_rows_grid = Ok (T_f, mc) /\
    export_structured_csv_full (mirror_full_from_half T_f) 6 = Ok table /\
    forall fuel, 1 <= fuel -> Z.to_nat (max_iters short_run) <= fuel ->
      jacobi_laplace_half_with_snapshots fuel seven_rows_grid
        seven_rows_fixed 1 1 6 short_run
      = Some (Ok (T_f, (Z.of_nat k + 1)%Z, mc,
                  flat_map (events_of_pass short_run 6 seven_rows_fixed var
                              seven_rows_grid 0)
                    (seq 0 (k + 1))
                  ++ [FinalSnapshot table])).
Proof.
  apply (solver_trace 7 4 seven_rows_grid seven_rows_fixed 1 1 6 short_run).
  - exact rect_seven_rows_grid.
  - exact rect_seven_rows_fixed.
  - lia.
  - lia.
  - cbn. lia.
  - cbn. lia.
Defined.

Lemma solver_keeps_grid_shape_witness :
  exists var,
    variable_mask seven_rows_fixed = Ok var /\
    (forall k, exists T_k mc,
       after_pass k seven_rows_fixed var seven_rows_grid = Ok (T_k, mc) /\
       rect 7 4 T_k) /\
    (forall h_y h_x L cfg fuel T_f epochs mc trace,
       jacobi_laplace_half_with_snapshots fuel seven_rows_grid
         seven_rows_fixed h_y h_x L cfg
       = Some (Ok (T_f, epochs, mc, trace)) ->
       rect 7 4 T_f).
Proof.
  apply (solver_keeps_grid_shape 7 4 seven_rows_grid seven_rows_fixed).
  - exact rect_seven_rows_grid.
  - exact rect_seven_rows_fixed.
  - lia.
  - lia.
Defined.

Lemma solver_accepts_builder_output_witness :
  exists T_f epochs mc trace,
    (1 <= epochs <= Z.max 1 (max_iters short_run))%Z /\
    rect 7 4 T_f /\
    forall fuel, 1 <= fuel -> Z.to_nat (max_iters short_run) <= fuel ->
      jacobi_laplace_half_with_snapshots fuel seven_rows_grid
        seven_rows_fixed 1 1 6 short_run
      = Some (Ok (T_f, epochs, mc, trace)).
Proof.
  apply (solver_accepts_builder_output seven_rows seven_rows_grid
           seven_rows_fixed 1 1 6 short_run seven_rows_problem).
  - cbn. lia.
  - cbn. lia.
Defined.

Lemma symmetry_line_copies_its_neighbour_witness :
  exists var,
    variable_mask seven_rows_fixed = Ok var /\
    (forall k, exists T_k mc,
       after_pass k seven_rows_fixed var seven_rows_grid = Ok (T_k, mc) /\
       forall j, j < 7 -> Np.cell false seven_rows_fixed j 0 = false ->
         Np.cell 0%float T_k j 0 = Np.cell 0%float T_k j 1) /\
    (forall h_y h_x L cfg fuel T_f epochs mc trace,
       jacobi_laplace_half_with_snapshots fuel seven_rows_grid
         seven_rows_fixed h_y h_x L cfg
       = Some (Ok (T_f, epochs, mc, trace)) ->
       forall j, j < 7 -> Np.cell false seven_rows_fixed j 0 = false ->
         Np.cell 0%float T_f j 0 = Np.cell 0%float T_f j 1).
Proof.
  apply (symmetry_line_copies_its_neighbour 7 4 seven_rows_grid
           seven_rows_fixed).
  - exact rect_seven_rows_grid.
  - exact rect_seven_rows_fixed.
  - lia.
  - lia.
Defined.

Lemma outer_edges_are_never_written_witness :
  exists var,
    variable_mask sample_fixed = Ok var /\
    (forall k, exists T_k mc,
       after_pass k sample_fixed var sample_half = Ok (T_k, mc) /\
       forall j i, j < 2 -> 1 <= i < 3 ->
         j = 0 \/ j = 2 - 1 \/ i = 3 - 1 ->
         Np.cell 0%float T_k j i = Np.cell 0%float sample_half j i) /\
    (forall h_y h_x L cfg fuel T_f epochs mc trace,
       jacobi_laplace_half_with_snapshots fuel sample_half sample_fixed
         h_y h_x L cfg
       = Some (Ok (T_f, epochs, mc, trace)) ->
       forall j i, j < 2 -> 1 <= i < 3 ->
         j = 0 \/ j = 2 - 1 \/ i = 3 - 1 ->
         Np.cell 0%float T_f j i = Np.cell 0%float sample_half j i).
Proof.
  apply (outer_edges_are_never_written 2 3 sample_half sample_fixed).
  - exact rect_sample_half.
  - exact rect_sample_fixed.
  - lia.
  - lia.
Defined.

Lemma looser_threshold_stops_no_later_witness :
  exists var k k' T_f T_f' mc mc' trace trace',
    variable_mask seven_rows_fixed = Ok var /\
    (forall fuel, 1 <= fuel -> Z.to_nat (max_iters exact_run) <= fuel ->
       jacobi_laplace_half_with_snapshots fuel seven_rows_grid
         seven_rows_fixed 1 1 6 exact_run
       = Some (Ok (T_f, (Z.of_nat k + 1)%Z, mc, trace)) /\
       jacobi_laplace_half_with_snapshots fuel seven_rows_grid
         seven_rows_fixed 1 1 6 short_run
       = Some (Ok (T_f', (Z.of_nat k' + 1)%Z, mc', trace'))) /\
    k' <= k /\
    after_pass k seven_rows_fixed var seven_rows_grid = Ok (T_f, mc) /\
    after_pass k' seven_rows_fixed var seven_rows_grid = Ok (T_f', mc').
Proof.
  apply (looser_threshold_stops_no_later 7 4 seven_rows_grid
           seven_rows_fixed 1 1 6 exact_run short_run).
  - exact rect_seven_rows_grid.
  - exact rect_seven_rows_fixed.
  - lia.
  - lia.
  - cbn. lia.
  - cbn. lia.
  - cbn. lia.
  - cbn. lia.
  - reflexivity.
  - reflexivity.
Defined.
